(** * Creative strategy assistant: the request handlers of [server.js]

    A shallow embedding of the Express handlers of [server.js] (the later of
    the two revisions of the file, the one with [/api/analyze-video]) and
    of the pure helpers they call: [detectPlatform], [parseVTT], the error
    classifier of the video pipeline, the e-mail pattern, the chat relay.

    JavaScript strings are sequences of UTF-16 code units; regular
    expressions are kept as syntax trees and run by a derivative matcher;
    the file system, the external tools, the hosted model and the client
    connection are an explicit environment and an explicit state. *)

From Stdlib Require Import List Bool Arith NArith ZArith Lia String Ascii.
From Stdlib Require Import DecimalString Floats Uint63 Sorted.
Import ListNotations.
Local Open Scope list_scope.

(* ================================================================= *)
(** ** JavaScript strings *)

Module JS.

(** A code unit of a JavaScript string (a 16-bit value). *)
Definition char := N.
Definition jsstring := list char.

(** An ASCII literal of the source, one code unit per character. *)
Definition lit (s : string) : jsstring :=
  map N_of_ascii (list_ascii_of_string s).
Arguments lit s%_string.

Definition ch (a : ascii) : char := N_of_ascii a.
Arguments ch a%_char.

(** U+2014, the dash of several messages of the source. *)
Definition EM_DASH : char := 8212%N.

Definition NL : char := 10%N.
Definition TAB : char := 9%N.
Definition SP : char := 32%N.

Fixpoint str_eqb (a b : jsstring) : bool :=
  match a, b with
  | [], [] => true
  | x :: a', y :: b' => N.eqb x y && str_eqb a' b'
  | _, _ => false
  end.

(** [\s] of ECMAScript: WhiteSpace and LineTerminator code points. *)
Definition is_space (c : char) : bool :=
  ((9 <=? c) && (c <=? 13) || (c =? 32) || (c =? 160) || (c =? 5760)
   || (8192 <=? c) && (c <=? 8202) || (c =? 8232) || (c =? 8233)
   || (c =? 8239) || (c =? 8287) || (c =? 12288) || (c =? 65279))%N.

(** [\d]: the ten ASCII digits. *)
Definition is_digit (c : char) : bool := ((48 <=? c) && (c <=? 57))%N.

(** The ASCII upper-case counterpart. With the [i] flag and without the [u]
    flag a pattern character is compared through [Canonicalize], which maps a
    character to its upper case unless that would take a non-ASCII character
    to an ASCII one: for the ASCII pattern characters of this program an
    input character matches exactly when it is the same ASCII character up
    to case. *)
Definition ascii_upper (c : char) : char :=
  if ((97 <=? c) && (c <=? 122))%N then (c - 32)%N else c.

Definition ci_eqb (p c : char) : bool := (ascii_upper p =? ascii_upper c)%N.

(** [String.prototype.startsWith]. *)
Fixpoint startsWith (s p : jsstring) : bool :=
  match p, s with
  | [], _ => true
  | x :: p', y :: s' => N.eqb x y && startsWith s' p'
  | _ :: _, [] => false
  end.

(** [String.prototype.endsWith]. *)
Definition endsWith (s p : jsstring) : bool := startsWith (rev s) (rev p).

(** [String.prototype.split] with a one-character separator: the empty
    string splits into one empty piece. *)
Fixpoint split (sep : char) (s : jsstring) : list jsstring :=
  match s with
  | [] => [[]]
  | c :: s' =>
      if N.eqb c sep then [] :: split sep s'
      else match split sep s' with
           | l :: ls => (c :: l) :: ls
           | [] => [[c]]
           end
  end.

(** [Array.prototype.join]. *)
Fixpoint join (sep : jsstring) (parts : list jsstring) : jsstring :=
  match parts with
  | [] => []
  | [p] => p
  | p :: rest => p ++ sep ++ join sep rest
  end.

Fixpoint dropWhile (p : char -> bool) (s : jsstring) : jsstring :=
  match s with
  | [] => []
  | c :: s' => if p c then dropWhile p s' else s
  end.

(** [String.prototype.trim]: white space and line terminators leave both
    ends. *)
Definition trim (s : jsstring) : jsstring :=
  rev (dropWhile is_space (rev (dropWhile is_space s))).

(** [s.slice(0, n)] for a non-negative [n]. *)
Definition slice0 (n : nat) (s : jsstring) : jsstring := firstn n s.

(** [String(n)] for a non-negative integer: its decimal digits. *)
Definition of_nat (n : nat) : jsstring :=
  lit (NilZero.string_of_uint (Nat.to_uint n)).

(** [s.padStart(n, '0')]. *)
Definition padStart0 (n : nat) (s : jsstring) : jsstring :=
  repeat (ch "0") (n - List.length s) ++ s.

End JS.
Import JS.

(* ================================================================= *)
(** ** Regular expressions *)

Module Regex.

(** The fragment of the regular-expression syntax the source uses: character
    classes, concatenation, alternation and the [+] quantifier. Anchors are
    not part of the tree: [^...$] is [test_full], [^...] is [test_start]. *)
Inductive regex : Type :=
| Never : regex
| Eps : regex
| Cls : (char -> bool) -> regex
| Cat : regex -> regex -> regex
| Alt : regex -> regex -> regex
| Star : regex -> regex.

(** [r+] *)
Definition Plus (r : regex) : regex := Cat r (Star r).

(** One literal character, [\.] included. *)
Definition Chr (c : char) : regex := Cls (N.eqb c).

(** A literal word. *)
Fixpoint Lit (w : jsstring) : regex :=
  match w with
  | [] => Eps
  | c :: w' => Cat (Chr c) (Lit w')
  end.

(** A literal word under the [i] flag. *)
Fixpoint LitCI (w : jsstring) : regex :=
  match w with
  | [] => Eps
  | c :: w' => Cat (Cls (ci_eqb c)) (LitCI w')
  end.

Fixpoint nullable (r : regex) : bool :=
  match r with
  | Never => false
  | Eps => true
  | Cls _ => false
  | Cat r1 r2 => nullable r1 && nullable r2
  | Alt r1 r2 => nullable r1 || nullable r2
  | Star _ => true
  end.

Fixpoint deriv (c : char) (r : regex) : regex :=
  match r with
  | Never => Never
  | Eps => Never
  | Cls p => if p c then Eps else Never
  | Cat r1 r2 =>
      if nullable r1 then Alt (Cat (deriv c r1) r2) (deriv c r2)
      else Cat (deriv c r1) r2
  | Alt r1 r2 => Alt (deriv c r1) (deriv c r2)
  | Star r1 => Cat (deriv c r1) (Star r1)
  end.

(** The whole of [s] is a match of [r]. *)
Fixpoint matches (r : regex) (s : jsstring) : bool :=
  match s with
  | [] => nullable r
  | c :: s' => matches (deriv c r) s'
  end.

(** Some prefix of [s] is a match of [r]: a match attempt at index 0. *)
Fixpoint match_here (r : regex) (s : jsstring) : bool :=
  nullable r ||
  match s with
  | [] => false
  | c :: s' => match_here (deriv c r) s'
  end.

(** [/^r$/.test(s)] *)
Definition test_full (r : regex) (s : jsstring) : bool := matches r s.

(** [/^r/.test(s)] *)
Definition test_start (r : regex) (s : jsstring) : bool := match_here r s.

(** [/r/.test(s)]: a match attempt at every index, left to right. *)
Fixpoint test (r : regex) (s : jsstring) : bool :=
  match_here r s ||
  match s with
  | [] => false
  | _ :: s' => test r s'
  end.

(** The length of the longest match of [r] that starts at index 0. *)
Fixpoint match_len (r : regex) (s : jsstring) : option nat :=
  match s with
  | [] => if nullable r then Some 0 else None
  | c :: s' =>
      match match_len (deriv c r) s' with
      | Some n => Some (S n)
      | None => if nullable r then Some 0 else None
      end
  end.

(** [s.replace(/r/g, rep)] for a pattern whose quantifiers are greedy and
    whose match at a given index is its longest one (both hold of the two
    patterns [parseVTT] replaces): scan left to right; at a match of [S n]
    characters emit [rep] and skip the [n] characters that follow; where
    nothing matches copy the character. An empty match inserts [rep] and
    moves one character on, as [lastIndex] does. *)
Fixpoint replace_from (r : regex) (rep : jsstring) (skip : nat) (s : jsstring)
  : jsstring :=
  match s with
  | [] => match skip with
          | 0 => if nullable r then rep else []
          | S _ => []
          end
  | c :: s' =>
      match skip with
      | S k => replace_from r rep k s'
      | 0 =>
          match match_len r s with
          | Some (S n) => rep ++ replace_from r rep n s'
          | Some 0 => rep ++ c :: replace_from r rep 0 s'
          | None => c :: replace_from r rep 0 s'
          end
      end
  end.

Definition replace_all (r : regex) (rep s : jsstring) : jsstring :=
  replace_from r rep 0 s.

(** The language of a pattern, as a relation. *)
Inductive Lang : regex -> jsstring -> Prop :=
| LEps : Lang Eps []
| LCls p c : p c = true -> Lang (Cls p) [c]
| LCat r1 r2 s1 s2 : Lang r1 s1 -> Lang r2 s2 -> Lang (Cat r1 r2) (s1 ++ s2)
| LAltL r1 r2 s : Lang r1 s -> Lang (Alt r1 r2) s
| LAltR r1 r2 s : Lang r2 s -> Lang (Alt r1 r2) s
| LStarNil r : Lang (Star r) []
| LStarApp r s1 s2 : Lang r s1 -> Lang (Star r) s2 -> Lang (Star r) (s1 ++ s2).

(** Equality of words up to ASCII case. *)
Definition same_ci (w m : jsstring) : Prop :=
  Forall2 (fun p c => ascii_upper p = ascii_upper c) w m.

(** [w] occurs in [s]; [w] occurs in [s] up to ASCII case. *)
Definition occurs (w s : jsstring) : Prop :=
  exists a b, s = a ++ w ++ b.
Definition occurs_ci (w s : jsstring) : Prop :=
  exists a m b, s = a ++ m ++ b /\ same_ci w m.

End Regex.
Import Regex.

(* ================================================================= *)
(** ** Responses *)

(** The JSON bodies the handlers send. *)
Inductive Body : Type :=
| ErrorJson (error : jsstring)
    (** [{ error }] *)
| SuccessJson
    (** [{ success: true }] *)
| AnalysisJson (analysis : option jsstring) (platform : jsstring)
    (hasTranscript : bool) (frameCount : nat).
    (** [{ analysis, platform, hasTranscript, frameCount }]; [analysis] is
        [undefined] when the first content block has no [text] *)

(** [res.status(s).json(b)]; [res.json(b)] leaves the status at 200. *)
Record Response : Type := { status : nat; body : Body }.

(* ================================================================= *)
(** ** E-mail capture: [POST /api/save-email] *)

Module Email.

(** [[^\s@]] *)
Definition plain (c : char) : bool := negb (is_space c || (c =? ch "@")%N).
Definition not_space_at : regex := Cls plain.

(** [/^[^\s@]+@[^\s@]+\.[^\s@]+$/] *)
Definition EMAIL_RE : regex :=
  Cat (Plus not_space_at)
    (Cat (Chr (ch "@"))
       (Cat (Plus not_space_at)
          (Cat (Chr (ch ".")) (Plus not_space_at)))).

(** What the request does not decide: the clock and the disk. *)
Record Env : Type := {
  now_iso : jsstring;              (** [new Date().toISOString()] *)
  append_error : option jsstring   (** [fs.appendFileSync] throws this *)
}.

Record World : Type := {
  emails_txt : jsstring;           (** the content of [emails.txt] *)
  appends : list jsstring;         (** the data of every [appendFileSync] call *)
  console_log : list jsstring;
  console_error : list jsstring
}.

(** [fs.appendFileSync(path.join(__dirname, 'emails.txt'), entry, 'utf8')]:
    [None] when it throws, the file untouched. *)
Definition appendFileSync (env : Env) (entry : jsstring) (w : World)
  : option jsstring * World :=
  let w1 := {| emails_txt := emails_txt w; appends := appends w ++ [entry];
               console_log := console_log w;
               console_error := console_error w |} in
  match append_error env with
  | Some err => (Some err, w1)
  | None =>
      (None, {| emails_txt := emails_txt w1 ++ entry; appends := appends w1;
                console_log := console_log w1;
                console_error := console_error w1 |})
  end.

(** The condition of the handler's first [if] negated: [email] is truthy and
    matches the pattern. The field is a string or absent; a field of another
    type, which [test] would convert to a string, is not modelled. *)
Definition valid (email : option jsstring) : bool :=
  match email with
  | None => false
  | Some [] => false
  | Some e => test_full EMAIL_RE e
  end.

Definition entry_of (env : Env) (e : jsstring) : jsstring :=
  now_iso env ++ [TAB] ++ e ++ [NL].

Definition save_email (env : Env) (email : option jsstring) (w : World)
  : Response * World :=
  match email with
  | Some e =>
      if valid email then
        let entry := entry_of env e in
        match appendFileSync env entry w with
        | (None, w1) =>
            ({| status := 200; body := SuccessJson |},
             {| emails_txt := emails_txt w1; appends := appends w1;
                console_log := console_log w1 ++ [lit "[email] " ++ e];
                console_error := console_error w1 |})
        | (Some err, w1) =>
            ({| status := 200; body := SuccessJson |},
             {| emails_txt := emails_txt w1; appends := appends w1;
                console_log := console_log w1;
                console_error :=
                  console_error w1 ++ [lit "Failed to save email: " ++ err] |})
        end
      else ({| status := 400;
               body := ErrorJson (lit "Invalid email address") |}, w)
  | None => ({| status := 400;
                body := ErrorJson (lit "Invalid email address") |}, w)
  end.

End Email.

(* ================================================================= *)
(** ** Streaming chat: [POST /api/chat] *)

Module Chat.

(** The events of the model's stream, as far as the handler looks at them. *)
Inductive delta : Type :=
| TextDelta (text : jsstring)
| OtherDelta.

Inductive event : Type :=
| ContentBlockDelta (d : delta)
| OtherEvent.

(** What happens while the handler awaits the stream: the model emits an
    event, or the caller goes away ([res.destroyed] becomes true). *)
Inductive tick : Type :=
| Emit (e : event)
| Disconnect.

(** How the stream ends: its iterator is done, or it throws (so does a
    failing [anthropic.messages.stream] call, with no tick before). *)
Inductive ending : Type :=
| Completes
| Fails (message : jsstring).

Record Upstream : Type := { ticks : list tick; finish : ending }.

(** The response object of the request. *)
Record Res : Type := {
  destroyed : bool;
  headers : list (jsstring * jsstring);
  written : list jsstring;         (** the chunks of [res.write], in order *)
  ended : bool;                    (** [res.end()] was called *)
  sent : option Response;          (** [res.status(..).json(..)] *)
  console_error : list jsstring
}.

Definition fresh : Res :=
  {| destroyed := false; headers := []; written := []; ended := false;
     sent := None; console_error := [] |}.

Definition set_destroyed (r : Res) : Res :=
  {| destroyed := true; headers := headers r; written := written r;
     ended := ended r; sent := sent r; console_error := console_error r |}.

Definition setHeader (k v : jsstring) (r : Res) : Res :=
  {| destroyed := destroyed r; headers := headers r ++ [(k, v)];
     written := written r; ended := ended r; sent := sent r;
     console_error := console_error r |}.

Definition write (chunk : jsstring) (r : Res) : Res :=
  {| destroyed := destroyed r; headers := headers r;
     written := written r ++ [chunk]; ended := ended r; sent := sent r;
     console_error := console_error r |}.

Definition end_ (r : Res) : Res :=
  {| destroyed := destroyed r; headers := headers r; written := written r;
     ended := true; sent := sent r; console_error := console_error r |}.

Definition log_error (line : jsstring) (r : Res) : Res :=
  {| destroyed := destroyed r; headers := headers r; written := written r;
     ended := ended r; sent := sent r;
     console_error := console_error r ++ [line] |}.

Definition json (resp : Response) (r : Res) : Res :=
  {| destroyed := destroyed r; headers := headers r; written := written r;
     ended := true; sent := Some resp; console_error := console_error r |}.

(** A hexadecimal digit, lower case. *)
Definition hex_digit (n : N) : char :=
  if (n <? 10)%N then (48 + n)%N else (87 + n)%N.

(** [\uXXXX] *)
Definition u_escape (c : char) : jsstring :=
  lit "\u" ++ [hex_digit (c / 4096 mod 16); hex_digit (c / 256 mod 16);
               hex_digit (c / 16 mod 16); hex_digit (c mod 16)]%N.

Definition is_lead (c : char) : bool := ((55296 <=? c) && (c <=? 56319))%N.
Definition is_trail (c : char) : bool := ((56320 <=? c) && (c <=? 57343))%N.

(** [QuoteJSONString] without its quotes: the two-character escapes, [\u]
    escapes for the other control characters and for lone surrogates. *)
Fixpoint json_escape (s : jsstring) : jsstring :=
  match s with
  | [] => []
  | c :: s' =>
      if (c =? 8)%N then lit "\b" ++ json_escape s'
      else if (c =? 9)%N then lit "\t" ++ json_escape s'
      else if (c =? 10)%N then lit "\n" ++ json_escape s'
      else if (c =? 12)%N then lit "\f" ++ json_escape s'
      else if (c =? 13)%N then lit "\r" ++ json_escape s'
      else if (c =? 34)%N then [92; 34]%N ++ json_escape s'
      else if (c =? 92)%N then [92; 92]%N ++ json_escape s'
      else if (c <? 32)%N then u_escape c ++ json_escape s'
      else if is_lead c then
        match s' with
        | d :: s'' =>
            if is_trail d then c :: d :: json_escape s''
            else u_escape c ++ json_escape s'
        | [] => u_escape c
        end
      else if is_trail c then u_escape c ++ json_escape s'
      else c :: json_escape s'
  end.

Definition DQ : char := 34%N.

(** [JSON.stringify({ key: value })] for a string [value]. *)
Definition stringify1 (key value : jsstring) : jsstring :=
  lit "{" ++ [DQ] ++ key ++ [DQ] ++ lit ":" ++ [DQ] ++ json_escape value
    ++ [DQ] ++ lit "}".

(** One server-sent event: [`data: ${payload}\n\n`]. *)
Definition sse (payload : jsstring) : jsstring :=
  lit "data: " ++ payload ++ [NL; NL].

Definition text_event (text : jsstring) : jsstring :=
  sse (stringify1 (lit "text") text).

Definition error_event : jsstring :=
  sse (stringify1 (lit "error") (lit "Something went wrong. Please try again.")).

Definition done_event : jsstring := sse (lit "[DONE]").

(** The body of the [for await] loop for one event. *)
Definition on_event (e : event) (r : Res) : Res :=
  match e with
  | ContentBlockDelta (TextDelta text) => write (text_event text) r
  | _ => r
  end.

(** The [for await] loop: [true] when it was left by [break]. *)
Fixpoint relay (ts : list tick) (r : Res) : bool * Res :=
  match ts with
  | [] => (false, r)
  | Disconnect :: ts' => relay ts' (set_destroyed r)
  | Emit e :: ts' =>
      if destroyed r then (true, r) else relay ts' (on_event e r)
  end.

(** The [catch] block. *)
Definition on_failure (message : jsstring) (r : Res) : Res :=
  let r1 := log_error (lit "Stream error: " ++ message) r in
  if destroyed r1 then r1 else write error_event r1.

(** The [finally] block. *)
Definition finally_ (r : Res) : Res :=
  if destroyed r then r else end_ (write done_event r).

(** A conversation turn: role and content. *)
Definition message : Type := (jsstring * jsstring)%type.

(** The handler. [messages] is [None] when the field is not an array. *)
Definition chat (up : Upstream) (messages : option (list message)) : Res :=
  match messages with
  | None | Some [] =>
      json {| status := 400; body := ErrorJson (lit "Invalid messages array") |}
        fresh
  | Some _ =>
      let r0 :=
        setHeader (lit "Connection") (lit "keep-alive")
          (setHeader (lit "Cache-Control") (lit "no-cache")
             (setHeader (lit "Content-Type") (lit "text/event-stream") fresh)) in
      let (broke, r1) := relay (ticks up) r0 in
      let r2 :=
        if broke then r1
        else match finish up with
             | Completes => r1
             | Fails m => on_failure m r1
             end in
      finally_ r2
  end.

End Chat.

(* ================================================================= *)
(** ** Numbers *)

Module Num.

Local Open Scope float_scope.

(** The number [n] of a loop counter, as a double. *)
Definition of_nat (n : nat) : float :=
  PrimFloat.of_uint63 (Uint63.of_Z (Z.of_nat n)).

(** [Math.max(a, b)]: [NaN] when either is; of two zeros the positive one. *)
Definition Math_max (a b : float) : float :=
  if PrimFloat.is_nan a || PrimFloat.is_nan b then nan
  else if a <? b then b
  else if b <? a then a
  else if PrimFloat.is_zero a && PrimFloat.get_sign a then b
  else a.

(** [x || y] on numbers: [x] unless it is falsy (a zero or [NaN]). *)
Definition or_else (x y : float) : float :=
  if PrimFloat.is_nan x || PrimFloat.is_zero x then y else x.

End Num.

(* ================================================================= *)
(** ** Video analysis: [POST /api/analyze-video] *)

Module Video.

Inductive Platform : Type := youtube | tiktok | instagram.

(** The string the source returns for a platform. *)
Definition platform_name (p : Platform) : jsstring :=
  match p with
  | youtube => lit "youtube"
  | tiktok => lit "tiktok"
  | instagram => lit "instagram"
  end.

(** [/youtube\.com|youtu\.be/] *)
Definition YOUTUBE_RE : regex :=
  Alt (Lit (lit "youtube.com")) (Lit (lit "youtu.be")).
(** [/tiktok\.com/] *)
Definition TIKTOK_RE : regex := Lit (lit "tiktok.com").
(** [/instagram\.com/] *)
Definition INSTAGRAM_RE : regex := Lit (lit "instagram.com").

(** [detectPlatform]; [None] is the source's [null]. *)
Definition detectPlatform (url : jsstring) : option Platform :=
  if test YOUTUBE_RE url then Some youtube
  else if test TIKTOK_RE url then Some tiktok
  else if test INSTAGRAM_RE url then Some instagram
  else None.

(** [/^\d{2}:\d{2}/], without its anchor. *)
Definition TIMESTAMP_RE : regex :=
  Cat (Cls is_digit) (Cat (Cls is_digit)
    (Cat (Chr (ch ":")) (Cat (Cls is_digit) (Cls is_digit)))).

(** [/<[^>]+>/] *)
Definition TAG_RE : regex :=
  Cat (Chr (ch "<"))
    (Cat (Plus (Cls (fun c => negb (c =? ch ">")%N))) (Chr (ch ">"))).

(** [/\s+/] *)
Definition WS_RE : regex := Plus (Cls is_space).

(** The predicate of [parseVTT]'s [filter]. *)
Definition keep_line (line : jsstring) : bool :=
  negb (str_eqb line [])
  && negb (startsWith line (lit "WEBVTT"))
  && negb (test_start TIMESTAMP_RE line)
  && negb (startsWith line (lit "NOTE"))
  && negb (startsWith line (lit "Kind:"))
  && negb (startsWith line (lit "Language:")).

Definition parseVTT (vtt : jsstring) : jsstring :=
  slice0 3000
    (trim
       (replace_all WS_RE (lit " ")
          (replace_all TAG_RE []
             (join (lit " ") (filter keep_line (split NL vtt)))))).

(** The patterns of the [catch] block, all under the [i] flag. *)
Definition PRIVATE_RE : regex := LitCI (lit "private").
Definition DURATION_RE : regex :=
  Alt (LitCI (lit "1200")) (Alt (LitCI (lit "duration")) (LitCI (lit "too long"))).
Definition UNAVAILABLE_RE : regex :=
  Alt (LitCI (lit "unavailable")) (LitCI (lit "not available")).

Definition MSG_PRIVATE : jsstring :=
  lit "That video is private " ++ [EM_DASH] ++ lit " paste a public URL.".
Definition MSG_TOO_LONG : jsstring :=
  lit "Video is too long " ++ [EM_DASH] ++ lit " max 20 minutes.".
Definition MSG_UNAVAILABLE : jsstring :=
  lit "Video unavailable. Make sure the URL is public.".
Definition MSG_GENERIC : jsstring :=
  lit "Could not analyze that video. Make sure the URL is public and try again.".

(** The conditional expression of the [catch] block, on [err.message]. *)
Definition classify (message : jsstring) : jsstring :=
  if test PRIVATE_RE message then MSG_PRIVATE
  else if test DURATION_RE message then MSG_TOO_LONG
  else if test UNAVAILABLE_RE message then MSG_UNAVAILABLE
  else MSG_GENERIC.

(** The messages the handler itself throws. *)
Definition ERR_DOWNLOAD : jsstring :=
  lit "Download failed " ++ [EM_DASH]
    ++ lit " video may be private or unavailable".
Definition ERR_NO_FRAMES : jsstring := lit "Could not extract frames from video".
(** The engine's message for [response.content[0].text] on an empty
    [content]. *)
Definition ERR_NO_CONTENT : jsstring :=
  lit "Cannot read properties of undefined (reading 'text')".
(** The message of a file-system call on a directory that is not there. *)
Definition ERR_ENOENT : jsstring := lit "ENOENT: no such file or directory".

(** *** Frame timestamps *)

Definition frameCount : nat := 8.

(** [Math.max(0.5, (duration / frameCount) * i)] *)
Definition frame_time (duration : float) (i : nat) : float :=
  Num.Math_max 0.5%float
    (PrimFloat.mul (PrimFloat.div duration (Num.of_nat frameCount))
       (Num.of_nat i)).

(** The timestamps of the loop [for (let i = 0; i < frameCount; i++)]. *)
Definition frame_times (duration : float) : list float :=
  map (frame_time duration) (seq 0 frameCount).

(** [`frame${String(i).padStart(2, '0')}.jpg`] *)
Definition frame_name (i : nat) : jsstring :=
  lit "frame" ++ padStart0 2 (JS.of_nat i) ++ lit ".jpg".

(** *** The workspace and the world around the handler *)

Record File : Type := { name : jsstring; content : jsstring }.

(** The default order of [Array.prototype.sort]: strings by code units. *)
Fixpoint str_ltb (a b : jsstring) : bool :=
  match a, b with
  | [], [] => false
  | [], _ :: _ => true
  | _ :: _, [] => false
  | x :: a', y :: b' => (x <? y)%N || (x =? y)%N && str_ltb a' b'
  end.

Fixpoint insert_sorted (x : jsstring) (l : list jsstring) : list jsstring :=
  match l with
  | [] => [x]
  | y :: l' => if str_ltb y x then y :: insert_sorted x l' else x :: l
  end.

Definition sort (l : list jsstring) : list jsstring :=
  fold_right insert_sorted [] l.

(** The files of a directory: one file per name, kept in the order of the
    names, which is the order [fs.readdirSync] lists them in on a POSIX
    system (the entries come from [scandir], sorted by name; for names
    without surrogate pairs the order of the bytes is the order of the code
    units). Writing a file replaces the file of that name or adds one. *)
Fixpoint put (f : File) (dir : list File) : list File :=
  match dir with
  | [] => [f]
  | g :: dir' =>
      if str_eqb (name g) (name f) then f :: dir'
      else if str_ltb (name g) (name f) then g :: put f dir'
      else f :: dir
  end.

(** The files written one after the other. *)
Definition put_all (files : list File) (dir : list File) : list File :=
  fold_left (fun d f => put f d) files dir.

(** The temporary directory of one request,
    [path.join(os.tmpdir(), `analyze-${sessionId}`)], with its [frames]
    subdirectory. *)
Record Workspace : Type := {
  top_files : list File;
  frame_files : list File
}.

(** The names [fs.readdirSync(tempDir)] returns: those of the files and
    that of the [frames] subdirectory, in order. *)
Definition listing (top : list File) : list jsstring :=
  insert_sorted (lit "frames") (map name top).

(** What a recursive deletion that fails part-way leaves of a workspace. *)
Definition survivors (kept : File -> bool) (ws : Workspace) : Workspace :=
  {| top_files := filter kept (top_files ws);
     frame_files := filter kept (frame_files ws) |}.

Inductive outcome (A : Type) : Type :=
| Ok (a : A)
| Throw (message : jsstring).
Arguments Ok {A} a.
Arguments Throw {A} message.

(** A content block of the model's reply; [text] is absent on blocks that
    are not text. *)
Record Block : Type := { text : option jsstring }.

(** What the request does not decide: the external tools, the disk and the
    hosted model. A tool may reject (its [err.message]) and may leave files
    behind either way. *)
Record Env : Type := {
  mkdir_error : option jsstring;
    (** [fs.mkdirSync] throws this *)
  ytdlp_video : jsstring -> option jsstring * list File;
    (** the download, by URL: rejection, files left in the workspace *)
  ytdlp_subs : jsstring -> option jsstring * list File;
    (** the subtitle fetch, by URL *)
  read_error : jsstring -> option jsstring;
    (** [fs.readFileSync] of a file of this name throws this *)
  ffprobe : jsstring -> option float;
    (** by video file: [None] when the probe rejects, else
        [parseFloat(stdout.trim())] *)
  ffmpeg : float -> jsstring -> jsstring -> option jsstring;
    (** by timestamp, video file and frame name: the image written, if any *)
  vision : list jsstring -> jsstring -> outcome (list Block);
    (** [anthropic.messages.create], by frames (sent as base64) and prompt *)
  rm_failure : option (File -> bool)
    (** [fs.rmSync] throws part-way, the entries that satisfy this still in
        place; [None] when the deletion succeeds *)
}.

Record World : Type := {
  workspace : option Workspace;    (** [None]: the directory does not exist *)
  console_error : list jsstring;
  sent : option Response
}.

Definition start : World :=
  {| workspace := None; console_error := []; sent := None |}.

(** Computations that read and change the world and may throw. *)
Definition M (A : Type) : Type := World -> outcome A * World.

Definition ret {A} (a : A) : M A := fun w => (Ok a, w).
Definition throw {A} (message : jsstring) : M A := fun w => (Throw message, w).
Definition bind {A B} (m : M A) (k : A -> M B) : M B :=
  fun w => match m w with
           | (Ok a, w1) => k a w1
           | (Throw e, w1) => (Throw e, w1)
           end.

(** [try { m } catch (err) { h err.message }] *)
Definition try_catch {A} (m : M A) (h : jsstring -> M A) : M A :=
  fun w => match m w with
           | (Ok a, w1) => (Ok a, w1)
           | (Throw e, w1) => h e w1
           end.

(** [try { m } finally { f }] *)
Definition try_finally {A} (m : M A) (f : M unit) : M A :=
  fun w => match m w with
           | (o, w1) => match f w1 with
                        | (Ok _, w2) => (o, w2)
                        | (Throw e, w2) => (Throw e, w2)
                        end
           end.

Declare Scope js_scope.
Delimit Scope js_scope with js.
Notation "x <- m ;; k" := (bind m (fun x => k))
  (at level 61, m at next level, right associativity) : js_scope.
Notation "m ;; k" := (bind m (fun _ => k))
  (at level 61, right associativity) : js_scope.
Local Open Scope js_scope.

Definition set_workspace (ws : option Workspace) : M unit :=
  fun w => (Ok tt, {| workspace := ws; console_error := console_error w;
                      sent := sent w |}).

Definition get_workspace : M Workspace :=
  fun w => match workspace w with
           | Some ws => (Ok ws, w)
           | None => (Throw ERR_ENOENT, w)
           end.

(** [console.error('Video analysis error:', message)] *)
Definition log_error (message : jsstring) : M unit :=
  fun w => (Ok tt,
            {| workspace := workspace w;
               console_error :=
                 console_error w ++ [lit "Video analysis error: " ++ message];
               sent := sent w |}).

(** [res.status(s).json(b)] *)
Definition send (s : nat) (b : Body) : M unit :=
  fun w => (Ok tt, {| workspace := workspace w;
                      console_error := console_error w;
                      sent := Some {| status := s; body := b |} |}).

(** [fs.mkdirSync(framesDir, { recursive: true })] *)
Definition mkdirSync (env : Env) : M unit :=
  match mkdir_error env with
  | Some e => throw e
  | None =>
      fun w => match workspace w with
               | Some _ => (Ok tt, w)
               | None => set_workspace
                           (Some {| top_files := []; frame_files := [] |}) w
               end
  end.

(** A tool writes files into the workspace, if it is there. *)
Definition leave_top (files : list File) : M unit :=
  fun w => match workspace w with
           | Some ws =>
               set_workspace
                 (Some {| top_files := put_all files (top_files ws);
                          frame_files := frame_files ws |}) w
           | None => (Ok tt, w)
           end.

Definition leave_frame (f : File) : M unit :=
  fun w => match workspace w with
           | Some ws =>
               set_workspace
                 (Some {| top_files := top_files ws;
                          frame_files := put f (frame_files ws) |}) w
           | None => (Ok tt, w)
           end.

(** [await execAsync(cmd)] for a tool that leaves [files] and may reject. *)
Definition exec_tool (r : option jsstring * list File) : M unit :=
  leave_top (snd r) ;;
  match fst r with
  | Some e => throw e
  | None => ret tt
  end.

(** [fs.readdirSync(tempDir)] and [fs.readdirSync(framesDir)] *)
Definition readdir_top : M (list jsstring) :=
  ws <- get_workspace ;; ret (listing (top_files ws)).
Definition readdir_frames : M (list jsstring) :=
  ws <- get_workspace ;; ret (map name (frame_files ws)).

Definition find_file (n : jsstring) (fs : list File) : option File :=
  find (fun f => str_eqb (name f) n) fs.

(** [fs.readFileSync] of a file of the workspace. *)
Definition readFileSync (env : Env) (frames : bool) (n : jsstring)
  : M jsstring :=
  ws <- get_workspace ;;
  match read_error env n with
  | Some e => throw e
  | None =>
      match find_file n (if frames then frame_files ws else top_files ws) with
      | Some f => ret (content f)
      | None => throw ERR_ENOENT
      end
  end.

(** [fs.rmSync(tempDir, { recursive: true, force: true })]: with [force] a
    missing directory is no error. The deletion goes entry by entry and the
    directory itself goes last, so a deletion that throws has removed some
    of the entries and left the directory in place. *)
Definition rmSync (env : Env) : M unit :=
  fun w => match workspace w with
           | None => (Ok tt, w)
           | Some ws =>
               match rm_failure env with
               | Some kept =>
                   (set_workspace (Some (survivors kept ws)) ;;
                    throw (lit "EPERM: operation not permitted")) w
               | None => set_workspace None w
               end
           end.

(** *** The steps of the pipeline *)

(** Step 1: the download, and the search for the file it produced. *)
Definition download (env : Env) (url : jsstring) : M jsstring :=
  exec_tool (ytdlp_video env url) ;;
  allFiles <- readdir_top ;;
  match find (fun f => startsWith f (lit "video.")
                       && negb (endsWith f (lit ".vtt"))) allFiles with
  | Some videoFile => ret videoFile
  | None => throw ERR_DOWNLOAD
  end.

(** Step 2: the optional transcript; every failure leaves it empty. *)
Definition fetch_transcript (env : Env) (url : jsstring) : M jsstring :=
  try_catch
    (exec_tool (ytdlp_subs env url) ;;
     files <- readdir_top ;;
     match filter (fun f => endsWith f (lit ".vtt")) files with
     | sub0 :: _ => vtt <- readFileSync env false sub0 ;; ret (parseVTT vtt)
     | [] => ret []
     end)
    (fun _ => ret []).

(** Step 3: the duration, 60 when the probe fails or reports nothing. *)
Definition probe_duration (env : Env) (videoFile : jsstring) : float :=
  match ffprobe env videoFile with
  | Some parsed => Num.or_else parsed 60%float
  | None => 60%float
  end.

(** Step 4: one extraction per timestamp; a failed one is ignored. *)
Definition extract_frame (env : Env) (duration : float) (videoFile : jsstring)
  (i : nat) : M unit :=
  match ffmpeg env (frame_time duration i) videoFile (frame_name i) with
  | Some image => leave_frame {| name := frame_name i; content := image |}
  | None => ret tt
  end.

Fixpoint for_each (l : list nat) (f : nat -> M unit) : M unit :=
  match l with
  | [] => ret tt
  | i :: l' => f i ;; for_each l' f
  end.

Definition extract_frames (env : Env) (duration : float)
  (videoFile : jsstring) : M unit :=
  for_each (seq 0 frameCount) (extract_frame env duration videoFile).

(** Step 5: the frames that can be read, in the order of their names. *)
Definition read_frame (env : Env) (f : jsstring) : M (option jsstring) :=
  try_catch (buf <- readFileSync env true f ;; ret (Some buf))
            (fun _ => ret None).

Fixpoint read_all (env : Env) (fs : list jsstring) : M (list jsstring) :=
  match fs with
  | [] => ret []
  | f :: fs' =>
      b <- read_frame env f ;;
      rest <- read_all env fs' ;;
      ret (match b with Some buf => buf :: rest | None => rest end)
  end.

Definition read_frames (env : Env) : M (list jsstring) :=
  names <- readdir_frames ;;
  read_all env (sort (filter (fun f => endsWith f (lit ".jpg")) names)).

(** Step 6: the prompt. *)
Definition transcript_part (transcript : jsstring) : jsstring :=
  match transcript with
  | [] =>
      lit "No transcript available " ++ [EM_DASH]
        ++ lit " analyze visuals only." ++ [NL; NL]
  | _ =>
      lit "TRANSCRIPT (auto-generated):" ++ [NL] ++ [Chat.DQ] ++ transcript
        ++ [Chat.DQ] ++ [NL; NL]
  end.

Definition prompt_tail : jsstring :=
  join [NL]
    [ lit " frames are attached, sampled evenly across the full video.";
      [];
      lit "Give direct, specific feedback:";
      [];
      lit "## Hook (First 3 Seconds)";
      lit "Was the opening strong? What technique did they use? Would you keep watching?";
      [];
      lit "## Visuals & Production";
      lit "Lighting, framing, editing pace, shot variety, overall production quality.";
      [];
      lit "## Content & Structure";
      lit "How well organized? Pacing, storytelling, clarity of message.";
      [];
      lit "## What's Working";
      lit "2-3 specific strengths. Be specific, not generic.";
      [];
      lit "## Top Improvements";
      lit "2-3 changes that would make the biggest difference. Be direct and actionable.";
      [];
      lit "## Score: X/10";
      lit "One punchy sentence summary.";
      [];
      lit "Talk like a creative director, not a cheerleader. Reference specific things you actually see." ].

Definition prompt (platform : Platform) (transcript : jsstring) (frames : nat)
  : jsstring :=
  lit "You're a sharp content strategist analyzing a " ++ platform_name platform
    ++ lit " video for a creator who wants honest, actionable feedback."
    ++ [NL; NL] ++ transcript_part transcript ++ JS.of_nat frames
    ++ prompt_tail.

(** Steps 6 and 7: the model call and the response. *)
Definition infer (env : Env) (platform : Platform) (transcript : jsstring)
  (frameBuffers : list jsstring) : M unit :=
  match vision env frameBuffers
          (prompt platform transcript (List.length frameBuffers)) with
  | Throw e => throw e
  | Ok [] => throw ERR_NO_CONTENT
  | Ok (first :: _) =>
      send 200 (AnalysisJson (text first) (platform_name platform)
                  (negb (str_eqb transcript [])) (List.length frameBuffers))
  end.

(** The body of the [try] block. *)
Definition pipeline (env : Env) (url : jsstring) (platform : Platform)
  : M unit :=
  mkdirSync env ;;
  videoFile <- download env url ;;
  transcript <- fetch_transcript env url ;;
  extract_frames env (probe_duration env videoFile) videoFile ;;
  frameBuffers <- read_frames env ;;
  match frameBuffers with
  | [] => throw ERR_NO_FRAMES
  | _ => infer env platform transcript frameBuffers
  end.

(** The [catch] block. *)
Definition on_error (message : jsstring) : M unit :=
  log_error message ;;
  send 500 (ErrorJson (classify message)).

(** The [finally] block. *)
Definition cleanup (env : Env) : M unit :=
  try_catch (rmSync env) (fun _ => ret tt).

(** The handler. [url] is [None] when the field is absent. *)
Definition analyze_video (env : Env) (url : option jsstring) : M unit :=
  match url with
  | None | Some [] => send 400 (ErrorJson (lit "No URL provided"))
  | Some u =>
      match detectPlatform u with
      | None =>
          send 400
            (ErrorJson (lit "Please paste a YouTube, TikTok, or Instagram URL."))
      | Some platform =>
          try_finally (try_catch (pipeline env u platform) on_error)
            (cleanup env)
      end
  end.

(** The world a request leaves behind, from a world without its workspace. *)
Definition run (env : Env) (url : option jsstring) : World :=
  snd (analyze_video env url start).

End Video.

(* ================================================================= *)
(** ** Vocabulary of the properties *)

Module ChatView.
Import Chat.

(** The text fragments among the events, in the order of the events. *)
Fixpoint fragments (evs : list event) : list jsstring :=
  match evs with
  | [] => []
  | ContentBlockDelta (TextDelta text) :: evs' => text :: fragments evs'
  | _ :: evs' => fragments evs'
  end.

(** The events the model emits over a run. *)
Fixpoint emitted (ts : list tick) : list event :=
  match ts with
  | [] => []
  | Emit e :: ts' => e :: emitted ts'
  | Disconnect :: ts' => emitted ts'
  end.

(** The events the model emits before the caller goes away. *)
Fixpoint emitted_while_connected (ts : list tick) : list event :=
  match ts with
  | [] => []
  | Emit e :: ts' => e :: emitted_while_connected ts'
  | Disconnect :: _ => []
  end.

(** The caller stays for the whole run. *)
Fixpoint stays (ts : list tick) : bool :=
  match ts with
  | [] => true
  | Emit _ :: ts' => stays ts'
  | Disconnect :: _ => false
  end.

End ChatView.

(** The caller's side of the stream, which is not part of [server.js]: how
    a reader of server-sent events takes one chunk apart, with [JSON.parse]
    on the payload. It serves to say what the chunks of the handler carry. *)
Module Reader.
Import Chat.

Inductive reading : Type :=
| Text (text : jsstring)
    (** [{ text }] *)
| Failure (error : jsstring)
    (** [{ error }] *)
| Done
    (** the sentinel *)
| Unreadable.

(** [s] without its beginning [p]. *)
Fixpoint after (p s : jsstring) : option jsstring :=
  match p, s with
  | [], _ => Some s
  | x :: p', y :: s' => if N.eqb x y then after p' s' else None
  | _ :: _, [] => None
  end.

(** The first line of [s] and what follows it, line break included. *)
Fixpoint line (s : jsstring) : jsstring * jsstring :=
  match s with
  | [] => ([], [])
  | c :: s' =>
      if (c =? NL)%N then ([], s)
      else let (l, rest) := line s' in (c :: l, rest)
  end.

(** The payload of an event: what stands between [data: ] and the blank
    line that ends the event. *)
Definition payload (chunk : jsstring) : option jsstring :=
  match after (lit "data: ") chunk with
  | Some rest =>
      let (p, tail) := line rest in
      if str_eqb tail [NL; NL] then Some p else None
  | None => None
  end.

(** The value of a hexadecimal digit. *)
Definition hex_value (c : char) : option N :=
  if ((48 <=? c) && (c <=? 57))%N then Some (c - 48)%N
  else if ((97 <=? c) && (c <=? 102))%N then Some (c - 87)%N
  else if ((65 <=? c) && (c <=? 70))%N then Some (c - 55)%N
  else None.

(** The character a two-character escape of JSON stands for. *)
Definition unescape (e : char) : option char :=
  if (e =? 34)%N then Some 34%N
  else if (e =? 92)%N then Some 92%N
  else if (e =? 47)%N then Some 47%N
  else if (e =? 98)%N then Some 8%N
  else if (e =? 102)%N then Some 12%N
  else if (e =? 110)%N then Some 10%N
  else if (e =? 114)%N then Some 13%N
  else if (e =? 116)%N then Some 9%N
  else None.

Definition push (c : char) (r : option (jsstring * jsstring))
  : option (jsstring * jsstring) :=
  match r with
  | Some (t, rest) => Some (c :: t, rest)
  | None => None
  end.

(** [JSON.parse] on a string literal whose opening quote was read: the
    string it denotes and what follows its closing quote. *)
Fixpoint json_string (s : jsstring) : option (jsstring * jsstring) :=
  match s with
  | [] => None
  | c :: s' =>
      if (c =? 34)%N then Some ([], s')
      else if (c =? 92)%N then
        match s' with
        | [] => None
        | e :: s'' =>
            if (e =? 117)%N then
              match s'' with
              | h3 :: h2 :: h1 :: h0 :: rest =>
                  match hex_value h3, hex_value h2, hex_value h1,
                        hex_value h0 with
                  | Some x3, Some x2, Some x1, Some x0 =>
                      push (4096 * x3 + 256 * x2 + 16 * x1 + x0)%N
                        (json_string rest)
                  | _, _, _, _ => None
                  end
              | _ => None
              end
            else
              match unescape e with
              | Some x => push x (json_string s'')
              | None => None
              end
        end
      else if (c <? 32)%N then None
      else push c (json_string s')
  end.

(** [JSON.parse] on an object with the one member [key], a string. *)
Definition member (key body : jsstring) : option jsstring :=
  match after (lit "{" ++ [DQ] ++ key ++ [DQ] ++ lit ":" ++ [DQ]) body with
  | Some s =>
      match json_string s with
      | Some (value, tail) =>
          if str_eqb tail (lit "}") then Some value else None
      | None => None
      end
  | None => None
  end.

Definition read (chunk : jsstring) : reading :=
  match payload chunk with
  | None => Unreadable
  | Some p =>
      if str_eqb p (lit "[DONE]") then Done
      else match member (lit "text") p, member (lit "error") p with
           | Some t, _ => Text t
           | None, Some e => Failure e
           | None, None => Unreadable
           end
  end.

End Reader.

Module VideoView.
Import Video.

(** A line that begins with one of the header and metadata markers. *)
Definition header_line (l : jsstring) : Prop :=
  exists rest,
    l = lit "WEBVTT" ++ rest \/ l = lit "NOTE" ++ rest
    \/ l = lit "Kind:" ++ rest \/ l = lit "Language:" ++ rest.

(** A line that begins with two digits, a colon and two digits. *)
Definition timestamp_line (l : jsstring) : Prop :=
  exists d1 d2 d3 d4 rest,
    l = d1 :: d2 :: ch ":" :: d3 :: d4 :: rest
    /\ is_digit d1 = true /\ is_digit d2 = true
    /\ is_digit d3 = true /\ is_digit d4 = true.

(** An inline tag occurs in [s]: [<], one or more characters other than
    [>], then [>]. *)
Definition has_tag (s : jsstring) : Prop :=
  exists a inner b,
    s = a ++ [ch "<"] ++ inner ++ [ch ">"] ++ b
    /\ inner <> [] /\ ~ In (ch ">") inner.

(** Every [<] of [s] is directly followed by [>] or has no [>] after it. *)
Fixpoint angles_closed (s : jsstring) : Prop :=
  match s with
  | [] => True
  | c :: s' =>
      (c = ch "<" -> hd_error s' = Some (ch ">") \/ ~ In (ch ">") s')
      /\ angles_closed s'
  end.

(** Every white-space character of [s] is a space that no space follows. *)
Fixpoint single_spaced (s : jsstring) : Prop :=
  match s with
  | [] => True
  | c :: s' =>
      (is_space c = true -> c = SP /\ hd_error s' <> Some SP)
      /\ single_spaced s'
  end.

(** The files of the workspace once the download is over. *)
Definition downloaded (env : Env) (url : jsstring) : list File :=
  put_all (snd (ytdlp_video env url)) [].

(** The file the download step takes for the video: the first in the
    listing of the workspace whose name begins with [video.] and does not
    end with [.vtt]. *)
Definition video_of (env : Env) (url : jsstring) : option jsstring :=
  find (fun f => startsWith f (lit "video.") && negb (endsWith f (lit ".vtt")))
    (listing (downloaded env url)).

(** The files of the workspace once both downloader runs are over. *)
Definition top_of (env : Env) (url : jsstring) : list File :=
  put_all (snd (ytdlp_subs env url)) (downloaded env url).

(** The subtitle file the transcript step reads, if there is one: the
    first in the listing of the workspace whose name ends with [.vtt]. *)
Definition subtitle_of (env : Env) (url : jsstring) : option jsstring :=
  hd_error (filter (fun f => endsWith f (lit ".vtt"))
              (listing (top_of env url))).

(** The transcript of a run. *)
Definition transcript_of (env : Env) (url : jsstring) : jsstring :=
  match fst (ytdlp_subs env url) with
  | Some _ => []
  | None =>
      match subtitle_of env url with
      | None => []
      | Some sub0 =>
          match read_error env sub0, find_file sub0 (top_of env url) with
          | None, Some f => parseVTT (content f)
          | _, _ => []
          end
      end
  end.

(** The frame files the extraction loop leaves, over the indices [l]. *)
Fixpoint produced_over (env : Env) (d : float) (video : jsstring)
  (l : list nat) : list File :=
  match l with
  | [] => []
  | i :: l' =>
      match ffmpeg env (frame_time d i) video (frame_name i) with
      | Some image =>
          {| name := frame_name i; content := image |}
            :: produced_over env d video l'
      | None => produced_over env d video l'
      end
  end.

Definition produced (env : Env) (video : jsstring) : list File :=
  produced_over env (probe_duration env video) video (seq 0 frameCount).

(** The buffers read from the files [fs] under the names [names]. *)
Fixpoint buffers_over (env : Env) (fs : list File) (names : list jsstring)
  : list jsstring :=
  match names with
  | [] => []
  | n :: names' =>
      match read_error env n, find_file n fs with
      | None, Some f => content f :: buffers_over env fs names'
      | _, _ => buffers_over env fs names'
      end
  end.

(** The frame buffers of a run. *)
Definition buffers_of (env : Env) (video : jsstring) : list jsstring :=
  buffers_over env (produced env video)
    (sort (filter (fun f => endsWith f (lit ".jpg"))
             (map name (produced env video)))).

(** The request gets as far as the frame extraction. *)
Definition reaches_frames (env : Env) (url : jsstring) (video : jsstring)
  : Prop :=
  mkdir_error env = None
  /\ fst (ytdlp_video env url) = None
  /\ video_of env url = Some video.

(** A world in which the workspace holds these files and nothing was
    logged or sent. *)
Definition holding (top frames : list File) : World :=
  {| workspace := Some {| top_files := top; frame_files := frames |};
     console_error := []; sent := None |}.

(** The world the pipeline leaves when it got as far as the frames. *)
Definition after_frames (env : Env) (url video : jsstring) : World :=
  holding (top_of env url) (produced env video).

End VideoView.

(* ================================================================= *)
(** ** The behaviour as the specification words it *)

(** Transcript parsing and error classification written after the words of
    the specification, without patterns, to be compared with [parseVTT] and
    with the classifier of the [catch] block. *)
Module Spec.
Import Video.

(** A line that begins with a header or metadata marker. *)
Definition marked (l : jsstring) : bool :=
  startsWith l (lit "WEBVTT") || startsWith l (lit "NOTE")
  || startsWith l (lit "Kind:") || startsWith l (lit "Language:").

(** A line that begins with two digits, a colon and two digits. *)
Definition timed (l : jsstring) : bool :=
  match l with
  | d1 :: d2 :: c :: d3 :: d4 :: _ =>
      is_digit d1 && is_digit d2 && (c =? ch ":")%N
      && is_digit d3 && is_digit d4
  | _ => false
  end.

(** The lines that stay: the empty ones go with the marked and the timed. *)
Definition stays (l : jsstring) : bool :=
  match l with
  | [] => false
  | _ :: _ => negb (marked l || timed l)
  end.

(** A tag opens at a [<] when a character other than [>] follows it and a
    [>] comes somewhere after that. *)
Definition opens (s : jsstring) : bool :=
  match s with
  | d :: t => negb (d =? ch ">")%N && existsb (N.eqb (ch ">")) t
  | [] => false
  end.

(** The text without its inline tags, read left to right: a tag runs from
    its [<] to the first [>] after it; [inside] says whether the reader is
    in a tag. *)
Fixpoint untag (inside : bool) (s : jsstring) : jsstring :=
  match s with
  | [] => []
  | c :: s' =>
      if inside then
        if (c =? ch ">")%N then untag false s' else untag true s'
      else if (c =? ch "<")%N && opens s' then untag true s'
      else c :: untag false s'
  end.

(** Every run of white space becomes one space; [in_run] says whether the
    character before was white space. *)
Fixpoint squeeze (in_run : bool) (s : jsstring) : jsstring :=
  match s with
  | [] => []
  | c :: s' =>
      if is_space c then
        if in_run then squeeze true s' else SP :: squeeze true s'
      else c :: squeeze false s'
  end.

(** Drop the lines, strip the tags, collapse the white space, cut at 3000
    characters; the lines are put together with spaces and the ends are
    trimmed before the cut. *)
Definition transcript (vtt : jsstring) : jsstring :=
  firstn 3000
    (trim (squeeze false (untag false
       (join [SP] (filter stays (split NL vtt)))))).


End Spec.

(* ================================================================= *)
(** ** Runs used as examples *)

Module Scenarios.
Import Video.

Definition URL : jsstring := lit "https://youtu.be/dQw4w9WgXcQ".

(** A TikTok address whose path holds the name of another platform. *)
Definition TIKTOK_URL : jsstring :=
  lit "https://www.tiktok.com/@youtube.com/video/7301".

Definition video_mp4 : File :=
  {| name := lit "video.mp4"; content := lit "mp4" |}.

(** A subtitle file with a header, metadata and one cue timing, no text. *)
Definition empty_vtt : File :=
  {| name := lit "sub.en.vtt";
     content :=
       join [NL]
         [ lit "WEBVTT"; lit "Kind: captions"; lit "Language: en"; [];
           lit "00:00:00.000 --> 00:00:02.000"; [] ] |}.

Definition reply : list Block := [{| text := Some (lit "Score: 7/10") |}].

(** A model that answers by the branch its prompt took. *)
Definition vision_by_prompt (frames : list jsstring) (prompt : jsstring)
  : outcome (list Block) :=
  if test (Lit (lit "No transcript available")) prompt
  then Ok [{| text := Some (lit "visuals only") |}]
  else Ok [{| text := Some (lit "with transcript") |}].

(** The download and the probe work, there are no subtitles, and three of
    the eight extractions produce a file; [rm] says what the final deletion
    leaves when it throws, [model] is what the model call comes to. *)
Definition three_frames (rm : option (File -> bool))
  (model : outcome (list Block)) : Env :=
  {| mkdir_error := None;
     ytdlp_video := fun _ => (None, [video_mp4]);
     ytdlp_subs := fun _ => (Some (lit "ERROR: no subtitles"), []);
     read_error := fun _ => None;
     ffprobe := fun _ => Some 60%float;
     ffmpeg := fun _ _ f =>
       if str_eqb f (frame_name 1) || str_eqb f (frame_name 4)
          || str_eqb f (frame_name 6)
       then Some (lit "jpeg") else None;
     vision := fun _ _ => model;
     rm_failure := rm |}.

(** The download works and no extraction produces a file. *)
Definition no_frames : Env :=
  {| mkdir_error := None;
     ytdlp_video := fun _ => (None, [video_mp4]);
     ytdlp_subs := fun _ => (None, []);
     read_error := fun _ => None;
     ffprobe := fun _ => None;
     ffmpeg := fun _ _ _ => None;
     vision := fun _ _ => Ok reply;
     rm_failure := None |}.

(** The subtitle fetch works and leaves a file without any text. *)
Definition headers_only : Env :=
  {| mkdir_error := None;
     ytdlp_video := fun _ => (None, [video_mp4]);
     ytdlp_subs := fun _ => (None, [empty_vtt]);
     read_error := fun _ => None;
     ffprobe := fun _ => Some 60%float;
     ffmpeg := fun _ _ _ => Some (lit "jpeg");
     vision := vision_by_prompt;
     rm_failure := None |}.


End Scenarios.

(* ================================================================= *)
(** ** Startup: the system prompt *)

Module Startup.

Definition DQ : char := Chat.DQ.

(** The persona text, a template literal without substitutions. *)
Definition BASE_PROMPT : jsstring :=
  join [NL]
    [
      lit "You are a creative strategist and content coach built for "
        ++ lit "content creators "
        ++ [EM_DASH]
        ++ lit " YouTubers, short-form creators, podcasters, writers, and "
        ++ lit "anyone building an audience online.";
      [];
      lit "Your job is to help creators:";
      lit "- Generate content ideas and hooks that actually perform";
      lit "- Build sustainable, repeatable workflows so they can post "
        ++ lit "consistently without burning out";
      lit "- Improve the quality of their content (structure, "
        ++ lit "storytelling, retention, thumbnails, titles)";
      lit "- Think strategically about growth "
        ++ [EM_DASH]
        ++ lit " niches, formats, platforms, audience building";
      lit "- Stay motivated and overcome creative blocks";
      [];
      lit "Tone: energetic, direct, and encouraging. You talk like a "
        ++ lit "sharp creative director who's been in the trenches "
        ++ [EM_DASH]
        ++ lit " not a corporate coach. No fluff, no filler phrases like "
        ++ [DQ]
        ++ lit "Great question!"
        ++ [DQ]
        ++ lit " Just real, actionable advice.";
      [];
      lit "When relevant, naturally mention that they can use our AI "
        ++ lit "video editor to execute faster "
        ++ [EM_DASH]
        ++ lit " editing is one of the biggest bottlenecks creators face, "
        ++ lit "and our tool cuts editing time dramatically. Don't force "
        ++ lit "it, but when it fits (e.g. someone asks about workflow, "
        ++ lit "efficiency, repurposing content, or video production), "
        ++ lit "weave it in as a genuine recommendation. Refer to it as "
        ++ [DQ]
        ++ lit "our AI video editor"
        ++ [DQ]
        ++ lit " or "
        ++ [DQ]
        ++ lit "the editor"
        ++ [DQ]
        ++ lit " "
        ++ [EM_DASH]
        ++ lit " keep it casual.";
      [];
      lit "Format responses with markdown when helpful "
        ++ [EM_DASH]
        ++ lit " bullet points for ideas, bold for key takeaways. Keep "
        ++ lit "answers focused and punchy. If a creator gives you a vague "
        ++ lit "question, ask one clarifying question to get to something "
        ++ lit "more useful." ].

(** [`\n\n---\n\n# Your Knowledge Base\n\n`], what stands between the persona
    and the knowledge base. *)
Definition KNOWLEDGE_HEADER : jsstring :=
  [NL; NL] ++ lit "---" ++ [NL; NL] ++ lit "# Your Knowledge Base" ++ [NL; NL].

(** [loadContext]. [context_md] is the content of [context.md], or [None]
    when [fs.readFileSync] throws. *)
Definition loadContext (context_md : option jsstring) : jsstring :=
  match context_md with
  | Some context => BASE_PROMPT ++ KNOWLEDGE_HEADER ++ context
  | None => BASE_PROMPT
  end.

End Startup.

(* ================================================================= *)
(** ** Further vocabulary *)

Module Shapes.
Import Chat ChatView Video VideoView.

(** A non-empty run of characters other than white space and [@]. *)
Definition part (s : jsstring) : Prop :=
  s <> [] /\ forall c, In c s -> is_space c = false /\ c <> ch "@".

(** [local@domain.tld] *)
Definition address (e : jsstring) : Prop :=
  exists l d t,
    e = l ++ [ch "@"] ++ d ++ [ch "."] ++ t /\ part l /\ part d /\ part t.

(** The same stream for a caller who never goes away. *)
Definition uninterrupted (up : Upstream) : Upstream :=
  {| ticks := map Emit (emitted (ticks up)); finish := finish up |}.

(** The code units [JSON.stringify] leaves as they are wherever they
    stand: no control character, quote, backslash or surrogate. *)
Definition literal (c : char) : bool :=
  (32 <=? c)%N && negb (c =? 34)%N && negb (c =? 92)%N
  && negb (is_lead c) && negb (is_trail c).


(** A line of cue text as it should come out: one line, free of tags and
    of the markers, its white space single spaces inside the line only. *)
Definition cue_text (l : jsstring) : Prop :=
  l <> [] /\ ~ In NL l /\ ~ header_line l /\ ~ timestamp_line l
  /\ ~ In (ch "<") l /\ single_spaced l
  /\ (forall c rest, l = c :: rest -> is_space c = false)
  /\ (forall pre c, l = pre ++ [c] -> is_space c = false).




End Shapes.

(* ================================================================= *)
(** ** Further runs used as examples *)

Module Runs.
Import Video.

(** The downloader exits normally and leaves nothing but a subtitle file. *)
Definition nothing_downloaded : Env :=
  {| mkdir_error := None;
     ytdlp_video := fun _ => (None, [Scenarios.empty_vtt]);
     ytdlp_subs := fun _ => (None, []);
     read_error := fun _ => None;
     ffprobe := fun _ => None;
     ffmpeg := fun _ _ _ => Some (lit "jpeg");
     vision := fun _ _ => Ok Scenarios.reply;
     rm_failure := None |}.


(** Two lines of cue text between a header and a cue timing. *)
Definition two_cues : list jsstring :=
  [lit "WEBVTT"; lit "Hello there"; lit "00:00:01.000 --> 00:00:02.000";
   lit "general Kenobi"].

(** A subtitle file with one cue. *)
Definition spoken_vtt (n : jsstring) : File :=
  {| name := n;
     content :=
       join [NL]
         [ lit "WEBVTT"; []; lit "00:00:00.000 --> 00:00:02.000";
           lit "Hello there" ] |}.

(** The download leaves two files that could be the video and a subtitle
    file of its own; the subtitle fetch leaves a file without text. *)
Definition several_candidates : Env :=
  {| mkdir_error := None;
     ytdlp_video := fun _ =>
       (None,
        [ {| name := lit "video.webm"; content := lit "webm" |};
          spoken_vtt (lit "video.en.vtt"); Scenarios.video_mp4 ]);
     ytdlp_subs := fun _ => (None, [Scenarios.empty_vtt]);
     read_error := fun _ => None;
     ffprobe := fun _ => Some 60%float;
     ffmpeg := fun _ v _ => Some v;
     vision := Scenarios.vision_by_prompt;
     rm_failure := None |}.

(** The probe prints a number too large for a double, which [parseFloat]
    reads as [Infinity]. *)
Definition endless : Env :=
  {| mkdir_error := None;
     ytdlp_video := fun _ => (None, [Scenarios.video_mp4]);
     ytdlp_subs := fun _ => (None, []);
     read_error := fun _ => None;
     ffprobe := fun _ => Some infinity;
     ffmpeg := fun _ _ _ => Some (lit "jpeg");
     vision := fun _ _ => Ok Scenarios.reply;
     rm_failure := None |}.

(** A deletion that removes the video and then fails on the frames. *)
Definition frames_stuck (f : File) : bool := endsWith (name f) (lit ".jpg").


End Runs.

(* ================================================================= *)
(** ** Requests in a row *)

Module Sessions.
Import Email.

(** A request to the capture endpoint, with the clock and the disk it
    meets. *)
Definition request : Type := (Env * option jsstring)%type.

(** The handler has no [await]: requests are served one after the other,
    each on the world the one before left. *)
Fixpoint serve (reqs : list request) (w : World) : World :=
  match reqs with
  | [] => w
  | (env, email) :: rest => serve rest (snd (save_email env email w))
  end.

(** The line a request asks to append. *)
Definition entry (r : request) : jsstring :=
  match snd r with
  | Some e => entry_of (fst r) e
  | None => []
  end.

(** The request passes validation; its line reaches the disk. *)
Definition accepted (r : request) : bool := valid (snd r).
Definition stored (r : request) : bool :=
  valid (snd r)
  && match append_error (fst r) with None => true | Some _ => false end.

End Sessions.

(** An ASCII lower-case letter. *)
Definition lower_case (c : char) : bool := ((97 <=? c) && (c <=? 122))%N.

(* ================================================================= *)
(** * Properties *)

(** ** The matcher decides the language *)

Module RegexFacts.

Lemma app_nil_inv (A : Type) (a b : list A) : a ++ b = [] -> a = [] /\ b = [].
Proof. destruct a; simpl; intros H; [auto | discriminate]. Qed.

Lemma Lang_Never m : Lang Never m <-> False.
Proof. split; [intros H; inversion H | tauto]. Qed.

Lemma Lang_Eps m : Lang Eps m <-> m = [].
Proof. split; [intros H; inversion H; auto | intros ->; constructor]. Qed.

Lemma Lang_Cls p m : Lang (Cls p) m <-> exists c, m = [c] /\ p c = true.
Proof.
  split.
  - intros H. inversion H; subst. eauto.
  - intros (c & -> & H). apply LCls. exact H.
Qed.

Lemma Lang_Cat r1 r2 m :
  Lang (Cat r1 r2) m <-> exists a b, m = a ++ b /\ Lang r1 a /\ Lang r2 b.
Proof.
  split.
  - intros H. inversion H; subst. eauto.
  - intros (a & b & -> & Ha & Hb). apply LCat; assumption.
Qed.

Lemma Lang_Alt r1 r2 m : Lang (Alt r1 r2) m <-> Lang r1 m \/ Lang r2 m.
Proof.
  split.
  - intros H. inversion H; subst; auto.
  - intros [H | H]; [apply LAltL | apply LAltR]; exact H.
Qed.

Lemma nullable_Lang r : nullable r = true <-> Lang r [].
Proof.
  induction r; simpl.
  - rewrite Lang_Never. split; [discriminate | tauto].
  - rewrite Lang_Eps. tauto.
  - rewrite Lang_Cls. split; [discriminate | ].
    intros (c & E & _). discriminate.
  - rewrite andb_true_iff, IHr1, IHr2, Lang_Cat. split.
    + intros [H1 H2]. exists [], []. auto.
    + intros (a & b & E & Ha & Hb). symmetry in E.
      apply app_nil_inv in E. destruct E; subst. auto.
  - rewrite orb_true_iff, IHr1, IHr2, Lang_Alt. tauto.
  - split; [constructor | reflexivity].
Qed.

(** A non-empty word of [r*] starts with a non-empty word of [r]. *)
Lemma Star_cons_inv r c s :
  Lang (Star r) (c :: s) ->
  exists s1 s2, s = s1 ++ s2 /\ Lang r (c :: s1) /\ Lang (Star r) s2.
Proof.
  intros H. remember (Star r) as R eqn:ER. remember (c :: s) as w eqn:Ew.
  induction H as [ | | | | | | r0 u v Hu _ Hv IHv]; try discriminate.
  injection ER as ->.
  destruct u as [ | x u].
  - simpl in Ew. apply IHv; auto.
  - simpl in Ew. injection Ew as -> <-. exists u, v. auto.
Qed.

Lemma deriv_Lang r : forall c s, Lang (deriv c r) s <-> Lang r (c :: s).
Proof.
  induction r as [ | | p | r1 IH1 r2 IH2 | r1 IH1 r2 IH2 | r IH];
    intros c s; simpl.
  - rewrite !Lang_Never. tauto.
  - rewrite Lang_Never, Lang_Eps. split; [tauto | discriminate].
  - rewrite Lang_Cls. destruct (p c) eqn:E.
    + rewrite Lang_Eps. split.
      * intros ->. exists c. auto.
      * intros (x & Ex & _). injection Ex as _ ->. reflexivity.
    + rewrite Lang_Never. split; [tauto | ].
      intros (x & Ex & Hx). injection Ex as -> _. congruence.
  - assert (C : Lang (Cat (deriv c r1) r2) s <->
                exists a b, s = a ++ b /\ Lang r1 (c :: a) /\ Lang r2 b).
    { rewrite Lang_Cat. split; intros (a & b & E & Ha & Hb);
        exists a, b; (split; [exact E | ]); (split; [ | exact Hb]);
        apply IH1; exact Ha. }
    rewrite (Lang_Cat r1 r2).
    destruct (nullable r1) eqn:N.
    + rewrite Lang_Alt, C, IH2. split.
      * intros [(a & b & -> & Ha & Hb) | H].
        -- exists (c :: a), b. auto.
        -- exists [], (c :: s). apply nullable_Lang in N. auto.
      * intros (a & b & E & Ha & Hb). destruct a as [ | x a]; simpl in E.
        -- right. rewrite E. exact Hb.
        -- injection E as -> ->. left. exists a, b. auto.
    + rewrite C. split.
      * intros (a & b & -> & Ha & Hb). exists (c :: a), b. auto.
      * intros (a & b & E & Ha & Hb). destruct a as [ | x a]; simpl in E.
        -- apply nullable_Lang in Ha. congruence.
        -- injection E as -> ->. exists a, b. auto.
  - rewrite !Lang_Alt, IH1, IH2. tauto.
  - rewrite Lang_Cat. split.
    + intros (a & b & -> & Ha & Hb). apply IH in Ha.
      apply (LStarApp _ _ _ Ha Hb).
    + intros H. apply Star_cons_inv in H.
      destruct H as (s1 & s2 & -> & Ha & Hb).
      exists s1, s2. split; [reflexivity | ].
      split; [apply IH; exact Ha | exact Hb].
Qed.

Lemma matches_Lang s : forall r, matches r s = true <-> Lang r s.
Proof.
  induction s as [ | c s IH]; intros r; simpl.
  - apply nullable_Lang.
  - rewrite IH. apply deriv_Lang.
Qed.

(** A match attempt at index 0 succeeds when some prefix is in the language. *)
Lemma match_here_spec s : forall r,
  match_here r s = true <-> exists m b, s = m ++ b /\ Lang r m.
Proof.
  induction s as [ | c s IH]; intros r; simpl.
  - rewrite orb_false_r, nullable_Lang. split.
    + intros H. exists [], []. auto.
    + intros (m & b & E & H). symmetry in E. apply app_nil_inv in E.
      destruct E; subst. exact H.
  - rewrite orb_true_iff, nullable_Lang, IH. split.
    + intros [H | (m & b & -> & H)].
      * exists [], (c :: s). auto.
      * exists (c :: m), b. split; [reflexivity | apply deriv_Lang; exact H].
    + intros (m & b & E & H). destruct m as [ | x m]; simpl in E.
      * left. exact H.
      * injection E as -> ->. right. exists m, b.
        split; [reflexivity | apply deriv_Lang; exact H].
Qed.

(** [test] finds a match anywhere in the string. *)
Lemma test_spec r s :
  test r s = true <-> exists a m b, s = a ++ m ++ b /\ Lang r m.
Proof.
  induction s as [ | c s IH]; cbn [test].
  - rewrite orb_false_r, match_here_spec. split.
    + intros (m & b & E & H). exists [], m, b. auto.
    + intros (a & m & b & E & H). symmetry in E.
      apply app_nil_inv in E. destruct E as [-> E].
      exists m, b. auto.
  - rewrite orb_true_iff, match_here_spec, IH. split.
    + intros [(m & b & E & H) | (a & m & b & -> & H)].
      * exists [], m, b. auto.
      * exists (c :: a), m, b. auto.
    + intros (a & m & b & E & H). destruct a as [ | x a]; simpl in E.
      * left. exists m, b. auto.
      * injection E as -> ->. right. exists a, m, b. auto.
Qed.

Lemma Lang_Chr c m : Lang (Chr c) m <-> m = [c].
Proof.
  unfold Chr. rewrite Lang_Cls. split.
  - intros (x & -> & H). apply N.eqb_eq in H. subst. reflexivity.
  - intros ->. exists c. split; [reflexivity | apply N.eqb_refl].
Qed.

(** The words of [p*] and [p+] for a character class [p]. *)
Lemma Lang_Star_Cls p m : Lang (Star (Cls p)) m <-> forallb p m = true.
Proof.
  split.
  - intros H. remember (Star (Cls p)) as R eqn:ER.
    induction H as [ | | | | | | r0 u v Hu _ Hv IHv]; try discriminate.
    + reflexivity.
    + injection ER as ->. apply Lang_Cls in Hu. destruct Hu as (c & -> & Hc).
      simpl. rewrite Hc, IHv by reflexivity. reflexivity.
  - induction m as [ | c m IH]; simpl; intros H.
    + constructor.
    + apply andb_true_iff in H. destruct H as [Hc Hm].
      apply (LStarApp _ [c] m); [apply LCls; exact Hc | auto].
Qed.

Lemma Lang_Plus_Cls p m :
  Lang (Plus (Cls p)) m <-> m <> [] /\ forallb p m = true.
Proof.
  unfold Plus. rewrite Lang_Cat. split.
  - intros (a & b & -> & Ha & Hb). apply Lang_Cls in Ha.
    destruct Ha as (c & -> & Hc). apply Lang_Star_Cls in Hb.
    split; [discriminate | simpl; rewrite Hc, Hb; reflexivity].
  - intros [Hne H]. destruct m as [ | c m]; [congruence | ].
    simpl in H. apply andb_true_iff in H. destruct H as [Hc Hm].
    exists [c], m. split; [reflexivity | ]. split.
    + apply LCls. exact Hc.
    + apply Lang_Star_Cls. exact Hm.
Qed.

Lemma Lang_Lit w : forall m, Lang (Lit w) m <-> m = w.
Proof.
  induction w as [ | c w IH]; intros m; simpl.
  - apply Lang_Eps.
  - rewrite Lang_Cat. split.
    + intros (a & b & -> & Ha & Hb). apply Lang_Chr in Ha. apply IH in Hb.
      subst. reflexivity.
    + intros ->. exists [c], w. split; [reflexivity | ].
      split; [apply Lang_Chr; reflexivity | apply IH; reflexivity].
Qed.

Lemma Lang_LitCI w : forall m, Lang (LitCI w) m <-> same_ci w m.
Proof.
  unfold same_ci. induction w as [ | c w IH]; intros m; simpl.
  - rewrite Lang_Eps.
    split; [intros ->; constructor | intros H; inversion H; auto].
  - rewrite Lang_Cat. split.
    + intros (a & b & -> & Ha & Hb). apply Lang_Cls in Ha.
      destruct Ha as (x & -> & Hx). apply IH in Hb. simpl.
      constructor; [apply N.eqb_eq; exact Hx | exact Hb].
    + intros H. inversion H as [ | ? x ? m' Hx Hm]; subst.
      exists [x], m'. split; [reflexivity | ]. split.
      * apply LCls. apply N.eqb_eq. exact Hx.
      * apply IH. exact Hm.
Qed.

(** A literal pattern tests for an occurrence of its word. *)
Lemma test_Lit w s : test (Lit w) s = true <-> occurs w s.
Proof.
  rewrite test_spec. unfold occurs. split.
  - intros (a & m & b & -> & H). apply Lang_Lit in H. subst. eauto.
  - intros (a & b & ->). exists a, w, b.
    split; [reflexivity | apply Lang_Lit; reflexivity].
Qed.

Lemma test_LitCI w s : test (LitCI w) s = true <-> occurs_ci w s.
Proof.
  rewrite test_spec. unfold occurs_ci. split.
  - intros (a & m & b & -> & H). apply Lang_LitCI in H. eauto.
  - intros (a & m & b & -> & H). exists a, m, b.
    split; [reflexivity | apply Lang_LitCI; exact H].
Qed.

Lemma test_Alt r1 r2 s : test (Alt r1 r2) s = test r1 s || test r2 s.
Proof.
  apply eq_true_iff_eq. rewrite orb_true_iff, !test_spec. split.
  - intros (a & m & b & E & H). apply Lang_Alt in H.
    destruct H as [H | H]; [left | right]; exists a, m, b; auto.
  - intros [(a & m & b & E & H) | (a & m & b & E & H)];
      exists a, m, b; (split; [exact E | ]); apply Lang_Alt; auto.
Qed.

End RegexFacts.

(* ================================================================= *)
(** ** The chat relay *)

Module ChatFacts.
Import Chat ChatView.

(** Once the caller is gone the loop writes nothing more. *)
Lemma relay_destroyed ts : forall r,
  destroyed r = true ->
  destroyed (snd (relay ts r)) = true
  /\ written (snd (relay ts r)) = written r
  /\ ended (snd (relay ts r)) = ended r
  /\ sent (snd (relay ts r)) = sent r.
Proof.
  induction ts as [ | [e | ] ts IH]; intros r H; simpl.
  - auto.
  - rewrite H. simpl. auto.
  - destruct (IH (set_destroyed r) eq_refl) as (A & B & C & D). auto.
Qed.

(** While the caller stays, every fragment is written, in order, and the
    loop runs to the end of the stream. *)
Lemma relay_stays ts : forall r,
  stays ts = true -> destroyed r = false ->
  fst (relay ts r) = false
  /\ destroyed (snd (relay ts r)) = false
  /\ written (snd (relay ts r))
     = written r ++ map text_event (fragments (emitted ts))
  /\ ended (snd (relay ts r)) = ended r
  /\ sent (snd (relay ts r)) = sent r.
Proof.
  induction ts as [ | [e | ] ts IH]; intros r S H; simpl in *.
  - rewrite app_nil_r. auto.
  - rewrite H.
    assert (D : destroyed (on_event e r) = false)
      by (destruct e as [[t | ] | ]; exact H).
    destruct (IH (on_event e r) S D) as (A & B & C & E & F).
    repeat split; try assumption.
    + rewrite C. destruct e as [[t | ] | ]; simpl; try reflexivity.
      rewrite <- app_assoc. reflexivity.
    + rewrite E. destruct e as [[t | ] | ]; reflexivity.
    + rewrite F. destruct e as [[t | ] | ]; reflexivity.
  - discriminate.
Qed.

(** When the caller goes away, what was written is what the model had
    emitted until then. *)
Lemma relay_gone ts : forall r,
  stays ts = false -> destroyed r = false ->
  destroyed (snd (relay ts r)) = true
  /\ written (snd (relay ts r))
     = written r ++ map text_event (fragments (emitted_while_connected ts))
  /\ ended (snd (relay ts r)) = ended r
  /\ sent (snd (relay ts r)) = sent r.
Proof.
  induction ts as [ | [e | ] ts IH]; intros r S H; simpl in *.
  - discriminate.
  - rewrite H.
    assert (D : destroyed (on_event e r) = false)
      by (destruct e as [[t | ] | ]; exact H).
    destruct (IH (on_event e r) S D) as (A & C & E & F).
    repeat split; try assumption.
    + rewrite C. destruct e as [[t | ] | ]; simpl; try reflexivity.
      rewrite <- app_assoc. reflexivity.
    + rewrite E. destruct e as [[t | ] | ]; reflexivity.
    + rewrite F. destruct e as [[t | ] | ]; reflexivity.
  - destruct (relay_destroyed ts (set_destroyed r) eq_refl) as (A & B & C & D).
    rewrite app_nil_r. auto.
Qed.

Lemma finally_connected r :
  destroyed r = false ->
  written (finally_ r) = written r ++ [done_event]
  /\ ended (finally_ r) = true /\ sent (finally_ r) = sent r.
Proof. intros H. unfold finally_. rewrite H. simpl. auto. Qed.

Lemma finally_gone r : destroyed r = true -> finally_ r = r.
Proof. intros H. unfold finally_. rewrite H. reflexivity. Qed.

Lemma on_failure_connected m r :
  destroyed r = false ->
  destroyed (on_failure m r) = false
  /\ written (on_failure m r) = written r ++ [error_event]
  /\ ended (on_failure m r) = ended r /\ sent (on_failure m r) = sent r.
Proof.
  intros H. unfold on_failure.
  replace (destroyed (log_error _ r)) with (destroyed r) by reflexivity.
  rewrite H. simpl. auto.
Qed.

Lemma on_failure_gone m r :
  destroyed r = true ->
  destroyed (on_failure m r) = true
  /\ written (on_failure m r) = written r
  /\ ended (on_failure m r) = ended r /\ sent (on_failure m r) = sent r.
Proof.
  intros H. unfold on_failure.
  replace (destroyed (log_error _ r)) with (destroyed r) by reflexivity.
  rewrite H. simpl. auto.
Qed.

(** The handler after validation, by whether the caller stays. *)
Lemma chat_stays up m ms :
  stays (ticks up) = true ->
  let r := chat up (Some (m :: ms)) in
  written r
  = map text_event (fragments (emitted (ticks up)))
      ++ match finish up with
         | Completes => []
         | Fails _ => [error_event]
         end
      ++ [done_event]
  /\ ended r = true /\ sent r = None.
Proof.
  intros S. cbv zeta. unfold chat.
  set (r0 := setHeader _ _ (setHeader _ _ (setHeader _ _ fresh))).
  destruct (relay_stays (ticks up) r0 S eq_refl) as (A & B & C & E & F).
  destruct (relay (ticks up) r0) as [broke r1]. simpl in A, B, C, E, F.
  subst broke. destruct (finish up) as [ | msg].
  - destruct (finally_connected r1 B) as (W & X & Y).
    rewrite W, X, Y, C, F. auto.
  - destruct (on_failure_connected msg r1 B) as (B' & W' & X' & Y').
    destruct (finally_connected (on_failure msg r1) B') as (W & X & Y).
    rewrite W, X, Y, W', Y', C, F, <- app_assoc. auto.
Qed.

Lemma chat_gone up m ms :
  stays (ticks up) = false ->
  let r := chat up (Some (m :: ms)) in
  written r = map text_event (fragments (emitted_while_connected (ticks up)))
  /\ ended r = false /\ sent r = None.
Proof.
  intros S. cbv zeta. unfold chat.
  set (r0 := setHeader _ _ (setHeader _ _ (setHeader _ _ fresh))).
  destruct (relay_gone (ticks up) r0 S eq_refl) as (B & C & E & F).
  destruct (relay (ticks up) r0) as [broke r1]. simpl in B, C, E, F.
  assert (G : forall r2, destroyed r2 = true -> written r2 = written r1 ->
                ended r2 = ended r1 -> sent r2 = sent r1 ->
                written (finally_ r2)
                = map text_event
                    (fragments (emitted_while_connected (ticks up)))
                /\ ended (finally_ r2) = false /\ sent (finally_ r2) = None).
  { intros r2 D W X Y. rewrite (finally_gone r2 D), W, X, Y, C, E, F. auto. }
  destruct broke; [apply G; auto | ].
  destruct (finish up) as [ | msg]; [apply G; auto | ].
  destruct (on_failure_gone msg r1 B) as (B' & W' & X' & Y').
  apply G; auto.
Qed.

(** *** JSON escaping *)

Lemma hex_digit_ge n : (32 <= hex_digit n)%N.
Proof. unfold hex_digit. destruct (n <? 10)%N; lia. Qed.

Lemma u_escape_ge x c : In c (u_escape x) -> (32 <= c)%N.
Proof.
  unfold u_escape. simpl.
  intros [<- | [<- | [<- | [<- | [<- | [<- | []]]]]]];
    try apply hex_digit_ge; lia.
Qed.

(** The escaped text holds no control character: no line break, no tab. *)
Lemma json_escape_ge s : forall c, In c (json_escape s) -> (32 <= c)%N.
Proof.
  remember (List.length s) as n eqn:L. revert s L.
  induction n as [n IH] using lt_wf_ind. intros s L c.
  destruct s as [ | x s]; [simpl; tauto | ].
  assert (T : forall c, In c (json_escape s) -> (32 <= c)%N).
  { intros c'. apply (IH (List.length s)); [simpl in L; lia | reflexivity]. }
  assert (P : forall pre, (forall c, In c pre -> (32 <= c)%N) ->
                In c (pre ++ json_escape s) -> (32 <= c)%N).
  { intros pre Hp H. apply in_app_or in H. destruct H; auto. }
  cbn [json_escape].
  destruct (x =? 8)%N; [apply P; simpl; intros ? [<- | [<- | []]]; lia | ].
  destruct (x =? 9)%N; [apply P; simpl; intros ? [<- | [<- | []]]; lia | ].
  destruct (x =? 10)%N; [apply P; simpl; intros ? [<- | [<- | []]]; lia | ].
  destruct (x =? 12)%N; [apply P; simpl; intros ? [<- | [<- | []]]; lia | ].
  destruct (x =? 13)%N; [apply P; simpl; intros ? [<- | [<- | []]]; lia | ].
  destruct (x =? 34)%N; [apply P; simpl; intros ? [<- | [<- | []]]; lia | ].
  destruct (x =? 92)%N; [apply P; simpl; intros ? [<- | [<- | []]]; lia | ].
  destruct (N.ltb_spec x 32) as [Hlt | Hge]; [apply P; apply u_escape_ge | ].
  destruct (is_lead x) eqn:Lx.
  - destruct s as [ | d s'']; [apply u_escape_ge | ].
    destruct (is_trail d) eqn:Td; [ | apply P; apply u_escape_ge].
    intros [<- | [<- | H]].
    + exact Hge.
    + unfold is_trail in Td. apply andb_true_iff in Td.
      destruct Td as [Td _]. apply N.leb_le in Td. lia.
    + revert H. apply (IH (List.length s'')); [simpl in L; lia | reflexivity].
  - destruct (is_trail x); [apply P; apply u_escape_ge | ].
    intros [<- | H0]; [exact Hge | apply T; exact H0].
Qed.

(** *** What the caller reads *)

Lemma after_app p s : Reader.after p (p ++ s) = Some s.
Proof.
  induction p as [ | x p IH]; simpl.
  - destruct s; reflexivity.
  - rewrite N.eqb_refl. exact IH.
Qed.

Lemma line_app p tail :
  ~ In NL p -> Reader.line (p ++ NL :: tail) = (p, NL :: tail).
Proof.
  induction p as [ | c p IH]; intros H.
  - reflexivity.
  - cbn [app Reader.line]. destruct (N.eqb_spec c NL) as [E | E].
    + exfalso. apply H. left. exact E.
    + rewrite IH; [reflexivity | ]. intros Hin. apply H. right. exact Hin.
Qed.

(** An event whose payload holds no control character is read as one
    event with that payload. *)
Lemma payload_sse p :
  (forall c, In c p -> (32 <= c)%N) -> Reader.payload (sse p) = Some p.
Proof.
  intros H. unfold Reader.payload, sse. rewrite after_app.
  change [NL; NL] with (NL :: [NL]). rewrite line_app.
  - reflexivity.
  - intros Hin. apply H in Hin. unfold NL in Hin. lia.
Qed.

Lemma hex_value_digit n :
  (n < 16)%N -> Reader.hex_value (hex_digit n) = Some n.
Proof.
  intros H. destruct n as [ | p]; [reflexivity | ].
  do 4 (destruct p as [p | p | ]; try reflexivity); exfalso; lia.
Qed.

Lemma json_string_raw c X :
  (c =? 34)%N = false -> (c =? 92)%N = false -> (c <? 32)%N = false ->
  Reader.json_string (c :: X) = Reader.push c (Reader.json_string X).
Proof. intros A B C. cbn [Reader.json_string]. rewrite A, B, C. reflexivity. Qed.

Lemma json_string_pair e x X :
  (e =? 117)%N = false -> Reader.unescape e = Some x ->
  Reader.json_string (92%N :: e :: X)
  = Reader.push x (Reader.json_string X).
Proof.
  intros A B. cbn [Reader.json_string].
  change (92 =? 34)%N with false. change (92 =? 92)%N with true.
  cbv iota. rewrite A, B. reflexivity.
Qed.

Lemma json_string_u c X :
  (c < 65536)%N ->
  Reader.json_string (u_escape c ++ X)
  = Reader.push c (Reader.json_string X).
Proof.
  intros H. unfold u_escape.
  change (lit "\u") with [92; 117]%N. cbn [app Reader.json_string].
  change (92 =? 34)%N with false. change (92 =? 92)%N with true.
  change (117 =? 117)%N with true. cbv iota.
  rewrite !hex_value_digit by (apply N.mod_lt; discriminate).
  f_equal. zify. Z.to_euclidean_division_equations. lia.
Qed.

(** Reading an escaped string gives the string back. *)
Lemma json_string_escape s : forall rest,
  Reader.json_string (json_escape s ++ DQ :: rest) = Some (s, rest).
Proof.
  remember (List.length s) as n eqn:L. revert s L.
  induction n as [n IH] using lt_wf_ind. intros s L rest.
  destruct s as [ | c s]; [reflexivity | ].
  assert (T : Reader.json_string (json_escape s ++ DQ :: rest) = Some (s, rest)).
  { apply (IH (List.length s)); [simpl in L; lia | reflexivity]. }
  assert (P : forall e x, (e =? 117)%N = false -> Reader.unescape e = Some x ->
            c = x ->
            Reader.json_string (([92; e]%N ++ json_escape s) ++ DQ :: rest)
            = Some (c :: s, rest)).
  { intros e x A B ->. cbn [app]. rewrite (json_string_pair e x _ A B).
    exact (f_equal (Reader.push x) T). }
  assert (U : (c < 65536)%N ->
            Reader.json_string ((u_escape c ++ json_escape s) ++ DQ :: rest)
            = Some (c :: s, rest)).
  { intros H. rewrite <- app_assoc, (json_string_u c _ H).
    exact (f_equal (Reader.push c) T). }
  cbn [json_escape].
  destruct (N.eqb_spec c 8) as [E | N8]; [apply (P 98 8)%N; auto | ].
  destruct (N.eqb_spec c 9) as [E | N9]; [apply (P 116 9)%N; auto | ].
  destruct (N.eqb_spec c 10) as [E | N10]; [apply (P 110 10)%N; auto | ].
  destruct (N.eqb_spec c 12) as [E | N12]; [apply (P 102 12)%N; auto | ].
  destruct (N.eqb_spec c 13) as [E | N13]; [apply (P 114 13)%N; auto | ].
  destruct (N.eqb_spec c 34) as [E | N34]; [apply (P 34 34)%N; auto | ].
  destruct (N.eqb_spec c 92) as [E | N92]; [apply (P 92 92)%N; auto | ].
  destruct (N.ltb_spec c 32) as [Hlt | Hge]; [apply U; lia | ].
  assert (R : forall d X, (55296 <= d)%N ->
            Reader.json_string (d :: X)
            = Reader.push d (Reader.json_string X)).
  { intros d X H. apply json_string_raw;
      [apply N.eqb_neq | apply N.eqb_neq | apply N.ltb_ge]; lia. }
  destruct (is_lead c) eqn:Lc.
  - unfold is_lead in Lc. apply andb_true_iff in Lc. destruct Lc as [L1 L2].
    apply N.leb_le in L1, L2.
    destruct s as [ | d s'].
    + rewrite (json_string_u c _ ltac:(lia)). reflexivity.
    + destruct (is_trail d) eqn:Td; [ | apply U; lia].
      unfold is_trail in Td. apply andb_true_iff in Td. destruct Td as [T1 _].
      apply N.leb_le in T1. cbn [app].
      rewrite (R c _ L1), (R d _ ltac:(lia)).
      rewrite (IH (List.length s')); [reflexivity | simpl in L; lia | reflexivity].
  - destruct (is_trail c) eqn:Tc.
    + unfold is_trail in Tc. apply andb_true_iff in Tc. destruct Tc as [_ T2].
      apply N.leb_le in T2. apply U. lia.
    + cbn [app]. rewrite json_string_raw, T;
        [reflexivity | apply N.eqb_neq | apply N.eqb_neq | apply N.ltb_ge];
        assumption.
Qed.

Lemma stringify1_ge key value :
  (forall c, In c key -> (32 <= c)%N) ->
  forall c, In c (stringify1 key value) -> (32 <= c)%N.
Proof.
  intros K. apply Forall_forall. unfold stringify1.
  assert (J : Forall (fun c => (32 <= c)%N) (json_escape value))
    by (apply Forall_forall, json_escape_ge).
  assert (K' : Forall (fun c => (32 <= c)%N) key) by (apply Forall_forall, K).
  repeat (apply Forall_app; split); try exact J; try exact K';
    vm_compute; repeat constructor; discriminate.
Qed.

Lemma member_stringify1 key value :
  Reader.member key (stringify1 key value) = Some value.
Proof.
  unfold Reader.member, stringify1.
  replace (lit "{" ++ [DQ] ++ key ++ [DQ] ++ lit ":" ++ [DQ]
             ++ json_escape value ++ [DQ] ++ lit "}")
    with ((lit "{" ++ [DQ] ++ key ++ [DQ] ++ lit ":" ++ [DQ])
            ++ json_escape value ++ DQ :: lit "}")
    by (rewrite <- !app_assoc; reflexivity).
  rewrite after_app, json_string_escape. reflexivity.
Qed.

(** The caller reads a text event as the fragment it was made of. *)
Lemma read_text t : Reader.read (text_event t) = Reader.Text t.
Proof.
  unfold Reader.read, text_event. rewrite payload_sse.
  - replace (str_eqb (stringify1 (lit "text") t) (lit "[DONE]")) with false
      by reflexivity.
    rewrite member_stringify1. reflexivity.
  - apply stringify1_ge. apply Forall_forall. vm_compute.
    repeat constructor; discriminate.
Qed.

Lemma read_error :
  Reader.read error_event
  = Reader.Failure (lit "Something went wrong. Please try again.").
Proof. vm_compute. reflexivity. Qed.

Lemma read_done : Reader.read done_event = Reader.Done.
Proof. vm_compute. reflexivity. Qed.

Lemma read_texts l : map Reader.read (map text_event l) = map Reader.Text l.
Proof.
  induction l as [ | t l IH]; [reflexivity | ].
  simpl. rewrite read_text, IH. reflexivity.
Qed.

(** *** The stream *)

(** C4. For a request with a non-empty conversation no JSON response is
    sent, and the stream is as follows. While the caller stays connected,
    the chunks written are the text fragments of the model, each in its own
    event and in the order the model emitted them, then one error event if
    the stream failed, then the [[DONE]] sentinel, and the response is
    ended; what the caller reads out of the chunks is the fragments
    themselves, in that order, then the apology if the stream failed, then
    the end of the stream. If the caller disconnects, the chunks written are
    the fragments emitted until then, and nothing is written after: no
    error event, no sentinel, no [end]. Every text event is
    [data: {"text":...}] with the fragment as a JSON string, and a blank
    line; the sentinel is [data: [DONE]] and a blank line. *)
Theorem C4_chat_stream_order_and_sentinel
  (up : Upstream) (m : message) (ms : list message) :
  let r := chat up (Some (m :: ms)) in
  let apology := lit "Something went wrong. Please try again." in
  sent r = None
  /\ (stays (ticks up) = true ->
      written r
      = map text_event (fragments (emitted (ticks up)))
          ++ match finish up with
             | Completes => []
             | Fails _ => [error_event]
             end
          ++ [done_event]
      /\ map Reader.read (written r)
         = map Reader.Text (fragments (emitted (ticks up)))
             ++ match finish up with
                | Completes => []
                | Fails _ => [Reader.Failure apology]
                end
             ++ [Reader.Done]
      /\ last (written r) [] = lit "data: [DONE]" ++ [NL; NL]
      /\ ended r = true)
  /\ (stays (ticks up) = false ->
      written r
      = map text_event (fragments (emitted_while_connected (ticks up)))
      /\ map Reader.read (written r)
         = map Reader.Text (fragments (emitted_while_connected (ticks up)))
      /\ ended r = false)
  /\ (forall t,
        text_event t
        = lit "data: {" ++ [DQ] ++ lit "text" ++ [DQ] ++ lit ":" ++ [DQ]
            ++ json_escape t ++ [DQ] ++ lit "}" ++ [NL; NL]
        /\ Reader.json_string (json_escape t ++ [DQ]) = Some (t, [])
        /\ Reader.read (text_event t) = Reader.Text t).
Proof.
  cbv zeta. split; [ | split; [ | split]].
  - destruct (stays (ticks up)) eqn:S.
    + apply (chat_stays up m ms S).
    + apply (chat_gone up m ms S).
  - intros S. destruct (chat_stays up m ms S) as (A & B & _).
    split; [exact A | ]. split; [ | split; [ | exact B]].
    + rewrite A, !map_app, read_texts. f_equal.
      destruct (finish up); simpl; rewrite ?read_error, read_done; reflexivity.
    + rewrite A, !app_assoc. apply last_last.
  - intros S. destruct (chat_gone up m ms S) as (A & B & _).
    split; [exact A | ]. split; [ | exact B].
    rewrite A. apply read_texts.
  - intros t. split; [ | split].
    + unfold text_event, sse, stringify1. rewrite <- !app_assoc. reflexivity.
    + apply (json_string_escape t []).
    + apply read_text.
Qed.

(** The two cases of C4 at a run of the spec: the model emits ["Hello"] and
    [" there"] and completes; the same run with the caller gone after the
    first fragment. *)
Lemma C4_chat_stream_witness :
  let hello := ContentBlockDelta (TextDelta (lit "Hello")) in
  let there := ContentBlockDelta (TextDelta (lit " there")) in
  let turn := (lit "user", lit "hi") in
  let complete :=
    chat {| ticks := [Emit hello; Emit there]; finish := Completes |}
      (Some [turn]) in
  let cut :=
    chat {| ticks := [Emit hello; Disconnect; Emit there];
            finish := Completes |} (Some [turn]) in
  (written complete
   = [ lit "data: {" ++ [DQ] ++ lit "text" ++ [DQ] ++ lit ":" ++ [DQ]
         ++ lit "Hello" ++ [DQ] ++ lit "}" ++ [NL; NL];
       lit "data: {" ++ [DQ] ++ lit "text" ++ [DQ] ++ lit ":" ++ [DQ]
         ++ lit " there" ++ [DQ] ++ lit "}" ++ [NL; NL];
       lit "data: [DONE]" ++ [NL; NL] ]
   /\ map Reader.read (written complete)
      = [Reader.Text (lit "Hello"); Reader.Text (lit " there"); Reader.Done])
  /\ (written cut
      = [ lit "data: {" ++ [DQ] ++ lit "text" ++ [DQ] ++ lit ":" ++ [DQ]
            ++ lit "Hello" ++ [DQ] ++ lit "}" ++ [NL; NL] ]
      /\ map Reader.read (written cut) = [Reader.Text (lit "Hello")]).
Proof.
  cbv zeta. split.
  - destruct (proj1 (proj2 (C4_chat_stream_order_and_sentinel
      {| ticks := [Emit (ContentBlockDelta (TextDelta (lit "Hello")));
                   Emit (ContentBlockDelta (TextDelta (lit " there")))];
         finish := Completes |} (lit "user", lit "hi") [])) eq_refl)
      as (A & B & _).
    split; [exact A | exact B].
  - destruct (proj1 (proj2 (proj2 (C4_chat_stream_order_and_sentinel
      {| ticks := [Emit (ContentBlockDelta (TextDelta (lit "Hello")));
                   Disconnect;
                   Emit (ContentBlockDelta (TextDelta (lit " there")))];
         finish := Completes |} (lit "user", lit "hi") []))) eq_refl)
      as (A & B & _).
    split; [exact A | exact B].
Defined.

End ChatFacts.

(* ================================================================= *)
(** ** E-mail capture *)

Module EmailFacts.
Import Email RegexFacts.

(** The words of the e-mail pattern: [local@domain.tld], the three parts
    non-empty and free of white space and of [@]. *)
Lemma EMAIL_RE_shape e :
  Lang EMAIL_RE e <->
  exists l d t,
    e = l ++ [ch "@"] ++ d ++ [ch "."] ++ t
    /\ l <> [] /\ d <> [] /\ t <> []
    /\ forallb plain l = true /\ forallb plain d = true
    /\ forallb plain t = true.
Proof.
  unfold EMAIL_RE, not_space_at. rewrite Lang_Cat. split.
  - intros (l & r1 & -> & Hl & H1). apply Lang_Plus_Cls in Hl.
    apply Lang_Cat in H1. destruct H1 as (x & r2 & -> & Hx & H2).
    apply Lang_Chr in Hx. subst x.
    apply Lang_Cat in H2. destruct H2 as (d & r3 & -> & Hd & H3).
    apply Lang_Plus_Cls in Hd.
    apply Lang_Cat in H3. destruct H3 as (y & t & -> & Hy & Ht).
    apply Lang_Chr in Hy. subst y. apply Lang_Plus_Cls in Ht.
    exists l, d, t. tauto.
  - intros (l & d & t & -> & Nl & Nd & Nt & Hl & Hd & Ht).
    exists l, ([ch "@"] ++ d ++ [ch "."] ++ t).
    split; [reflexivity | ].
    split; [apply Lang_Plus_Cls; auto | ].
    apply Lang_Cat. exists [ch "@"], (d ++ [ch "."] ++ t).
    split; [reflexivity | ].
    split; [apply Lang_Chr; reflexivity | ].
    apply Lang_Cat. exists d, ([ch "."] ++ t).
    split; [reflexivity | ].
    split; [apply Lang_Plus_Cls; auto | ].
    apply Lang_Cat. exists [ch "."], t.
    split; [reflexivity | ].
    split; [apply Lang_Chr; reflexivity | apply Lang_Plus_Cls; auto].
Qed.

Lemma valid_Lang e : valid (Some e) = true -> Lang EMAIL_RE e.
Proof.
  unfold valid, test_full. destruct e; [discriminate | ].
  apply matches_Lang.
Qed.

Lemma plain_not_In (c : char) l :
  plain c = false -> forallb plain l = true -> ~ In c l.
Proof.
  intros Hc Hl Hin. rewrite forallb_forall in Hl.
  rewrite (Hl c Hin) in Hc. discriminate.
Qed.

(** A character that occurs once splits a string in one way only. *)
Lemma split_unique (c : char) l : forall r a b,
  l ++ c :: r = a ++ c :: b -> ~ In c l -> ~ In c r -> a = l /\ b = r.
Proof.
  induction l as [ | x l IH]; intros r a b E Hl Hr; destruct a as [ | y a];
    simpl in E.
  - injection E as ->. auto.
  - injection E as -> ->. exfalso. apply Hr. apply in_or_app. right. left.
    reflexivity.
  - injection E as -> _. exfalso. apply Hl. left. reflexivity.
  - injection E as -> E. destruct (IH r a b E) as [-> ->]; auto.
    intros H. apply Hl. right. exact H.
Qed.

(** An address without [@] does not pass. *)
Lemma missing_at_invalid e : ~ In (ch "@") e -> valid (Some e) = false.
Proof.
  intros H. destruct (valid (Some e)) eqn:V; [ | reflexivity].
  apply valid_Lang, EMAIL_RE_shape in V.
  destruct V as (l & d & t & -> & _). exfalso. apply H.
  apply in_or_app. right. left. reflexivity.
Qed.

(** An address with no dot after an [@] does not pass. *)
Lemma missing_dot_invalid e a b :
  e = a ++ ch "@" :: b -> ~ In (ch ".") b -> valid (Some e) = false.
Proof.
  intros E H. destruct (valid (Some e)) eqn:V; [ | reflexivity].
  apply valid_Lang, EMAIL_RE_shape in V.
  destruct V as (l & d & t & E' & _ & _ & _ & Hl & Hd & Ht).
  rewrite E in E'. symmetry in E'. simpl in E'.
  apply split_unique in E'.
  - destruct E' as [_ ->]. exfalso. apply H. apply in_or_app. right. left.
    reflexivity.
  - apply plain_not_In; [reflexivity | exact Hl].
  - intros Hin. apply in_app_or in Hin. simpl in Hin.
    destruct Hin as [Hin | [Hin | Hin]].
    + revert Hin. apply plain_not_In; [reflexivity | exact Hd].
    + discriminate.
    + revert Hin. apply plain_not_In; [reflexivity | exact Ht].
Qed.

(** A passing address holds no white space: no tab, no line break. *)
Lemma valid_no_space e c :
  valid (Some e) = true -> is_space c = true -> ~ In c e.
Proof.
  intros V Hc. apply valid_Lang, EMAIL_RE_shape in V.
  destruct V as (l & d & t & -> & _ & _ & _ & Hl & Hd & Ht).
  assert (P : plain c = false) by (unfold plain; rewrite Hc; reflexivity).
  intros Hin. apply in_app_or in Hin. simpl in Hin.
  destruct Hin as [Hin | [Hin | Hin]].
  - revert Hin. apply plain_not_In; assumption.
  - subst c. discriminate.
  - apply in_app_or in Hin. simpl in Hin. destruct Hin as [Hin | [Hin | Hin]].
    + revert Hin. apply plain_not_In; assumption.
    + subst c. discriminate.
    + revert Hin. apply plain_not_In; assumption.
Qed.

(** C8. An e-mail string that fails validation, in particular one without
    [@] or one with no dot after an [@], is answered with status 400 and the
    message ['Invalid email address'], and the world is left as it was: the
    log file is unchanged and no append was attempted. *)
Theorem C8_invalid_email_rejected_and_not_logged
  (env : Env) (e : jsstring) (w : World) :
  ~ In (ch "@") e
  \/ (exists a b, e = a ++ ch "@" :: b /\ ~ In (ch ".") b)
  \/ valid (Some e) = false ->
  save_email env (Some e) w
  = ({| status := 400; body := ErrorJson (lit "Invalid email address") |}, w).
Proof.
  intros H.
  assert (V : valid (Some e) = false).
  { destruct H as [H | [(a & b & E & H) | H]].
    - apply missing_at_invalid. exact H.
    - eapply missing_dot_invalid; eassumption.
    - exact H. }
  unfold save_email. rewrite V. reflexivity.
Qed.

(** C8 at ["ab.c"], which has no [@], and at ["a@b"], which has no dot in
    its domain. *)
Lemma C8_invalid_email_witness :
  let w := {| emails_txt := []; appends := []; console_log := [];
              console_error := [] |} in
  let env := {| now_iso := lit "2024-01-01T00:00:00.000Z";
                append_error := None |} in
  save_email env (Some (lit "ab.c")) w
  = ({| status := 400; body := ErrorJson (lit "Invalid email address") |}, w)
  /\ save_email env (Some (lit "a@b")) w
     = ({| status := 400; body := ErrorJson (lit "Invalid email address") |}, w).
Proof.
  cbv zeta. split.
  - apply C8_invalid_email_rejected_and_not_logged. left.
    vm_compute. intuition discriminate.
  - apply C8_invalid_email_rejected_and_not_logged. right. left.
    exists (lit "a"), (lit "b"). split; [reflexivity | ].
    vm_compute. intuition discriminate.
Defined.

(** C9. For an e-mail string that passes validation the handler calls the
    append once, with the line [<timestamp>\t<address>\n], and answers with
    status 200 and [{ success: true }] whether or not the append throws.
    When it succeeds the line is at the end of the log file; when it throws
    the file is unchanged and the failure is logged on the server's error
    console. The address holds no tab and no line break, so the entry is one
    line of two fields. *)
Theorem C9_valid_email_appended_once_and_success
  (env : Env) (e : jsstring) (w : World) :
  valid (Some e) = true ->
  let entry := now_iso env ++ [TAB] ++ e ++ [NL] in
  let resp := fst (save_email env (Some e) w) in
  let w' := snd (save_email env (Some e) w) in
  resp = {| status := 200; body := SuccessJson |}
  /\ appends w' = appends w ++ [entry]
  /\ (append_error env = None ->
      emails_txt w' = emails_txt w ++ entry
      /\ console_error w' = console_error w)
  /\ (forall err, append_error env = Some err ->
      emails_txt w' = emails_txt w
      /\ console_error w'
         = console_error w ++ [lit "Failed to save email: " ++ err])
  /\ ~ In TAB e /\ ~ In NL e.
Proof.
  intros V. cbv zeta.
  assert (T : ~ In TAB e) by (apply valid_no_space; [exact V | reflexivity]).
  assert (L : ~ In NL e) by (apply valid_no_space; [exact V | reflexivity]).
  unfold save_email, appendFileSync, entry_of.
  rewrite V. destruct (append_error env) as [err | ]; simpl.
  - split; [reflexivity | ]. split; [reflexivity | ].
    split; [discriminate | ]. split; [ | auto].
    intros err' E. injection E as ->. auto.
  - split; [reflexivity | ]. split; [reflexivity | ].
    split; [auto | ]. split; [discriminate | auto].
Qed.

(** C9 at ["a@b.c"] with a disk that refuses the write. *)
Lemma C9_valid_email_witness :
  let w := {| emails_txt := []; appends := []; console_log := [];
              console_error := [] |} in
  let env := {| now_iso := lit "2024-01-01T00:00:00.000Z";
                append_error := Some (lit "ENOSPC") |} in
  fst (save_email env (Some (lit "a@b.c")) w)
  = {| status := 200; body := SuccessJson |}
  /\ appends (snd (save_email env (Some (lit "a@b.c")) w))
     = [lit "2024-01-01T00:00:00.000Z" ++ [TAB] ++ lit "a@b.c" ++ [NL]].
Proof.
  cbv zeta.
  pose proof (C9_valid_email_appended_once_and_success
    {| now_iso := lit "2024-01-01T00:00:00.000Z";
       append_error := Some (lit "ENOSPC") |}
    (lit "a@b.c")
    {| emails_txt := []; appends := []; console_log := [];
       console_error := [] |} eq_refl) as H.
  cbv zeta in H. destruct H as (A & B & _). split; [exact A | exact B].
Defined.

End EmailFacts.

(* ================================================================= *)
(** ** The video handler: classification, cleanup *)

Module VideoFacts.
Import Video VideoView RegexFacts.

Local Open Scope js_scope.

#[local] Arguments put_all : simpl never.
#[local] Arguments listing : simpl never.

(** *** The handler as a whole *)

(** The [finally] block never throws and touches the workspace only. *)
Lemma cleanup_spec env w :
  fst (cleanup env w) = Ok tt
  /\ sent (snd (cleanup env w)) = sent w
  /\ console_error (snd (cleanup env w)) = console_error w
  /\ workspace (snd (cleanup env w))
     = match rm_failure env with
       | None => None
       | Some kept => option_map (survivors kept) (workspace w)
       end.
Proof.
  unfold cleanup, try_catch, rmSync, bind.
  destruct (workspace w) eqn:E; destruct (rm_failure env) eqn:R; simpl;
    rewrite ?E; auto.
Qed.

(** The [catch] block answers 500 with the classified text. *)
Lemma on_error_spec m w :
  on_error m w
  = (Ok tt,
     {| workspace := workspace w;
        console_error :=
          console_error w ++ [lit "Video analysis error: " ++ m];
        sent := Some {| status := 500; body := ErrorJson (classify m) |} |}).
Proof. reflexivity. Qed.

(** A URL that names a platform is not empty. *)
Lemma detect_nonempty u p : detectPlatform u = Some p -> u <> [].
Proof. intros H ->. discriminate. Qed.

(** The handler past validation: the guarded pipeline, then the cleanup. *)
Lemma analyze_valid env u p :
  detectPlatform u = Some p ->
  analyze_video env (Some u)
  = try_finally (try_catch (pipeline env u p) on_error) (cleanup env).
Proof.
  intros H. unfold analyze_video. destruct u as [ | c u]; [discriminate | ].
  rewrite H. reflexivity.
Qed.

(** The world of a request past validation, from the world [w1] in which
    the [try]/[catch] ends. *)
Lemma run_valid env u p o w1 :
  detectPlatform u = Some p ->
  try_catch (pipeline env u p) on_error start = (o, w1) ->
  fst (analyze_video env (Some u) start) = o
  /\ sent (run env (Some u)) = sent w1
  /\ console_error (run env (Some u)) = console_error w1
  /\ workspace (run env (Some u))
     = match rm_failure env with
       | None => None
       | Some kept => option_map (survivors kept) (workspace w1)
       end.
Proof.
  intros H E. unfold run. rewrite (analyze_valid env u p H).
  unfold try_finally. rewrite E.
  destruct (cleanup_spec env w1) as (A & B & C & D).
  destruct (cleanup env w1) as [[[] | e] w2]; simpl in *; try discriminate.
  auto.
Qed.

(** A failure of the pipeline is answered 500 with the classified text. *)
Lemma run_failure env u p m w1 :
  detectPlatform u = Some p ->
  pipeline env u p start = (Throw m, w1) ->
  sent (run env (Some u))
  = Some {| status := 500; body := ErrorJson (classify m) |}
  /\ console_error (run env (Some u))
     = console_error w1 ++ [lit "Video analysis error: " ++ m].
Proof.
  intros H E.
  destruct (run_valid env u p (Ok tt) (snd (on_error m w1)) H) as (_ & A & B & _).
  - unfold try_catch. rewrite E. reflexivity.
  - rewrite A, B. auto.
Qed.

(** A success of the pipeline is answered as the pipeline answered. *)
Lemma run_success env u p w1 :
  detectPlatform u = Some p ->
  pipeline env u p start = (Ok tt, w1) ->
  sent (run env (Some u)) = sent w1.
Proof.
  intros H E.
  destruct (run_valid env u p (Ok tt) w1 H) as (_ & A & _).
  - unfold try_catch. rewrite E. reflexivity.
  - exact A.
Qed.

(** *** Directories *)

Lemma str_eqb_eq a : forall b, str_eqb a b = true -> a = b.
Proof.
  induction a as [ | x a IH]; intros [ | y b]; simpl; try discriminate.
  - reflexivity.
  - intros H. apply andb_true_iff in H. destruct H as [E H].
    apply N.eqb_eq in E. rewrite E, (IH b H). reflexivity.
Qed.

Lemma str_ltb_irrefl a : str_ltb a a = false.
Proof.
  induction a as [ | x a IH]; [reflexivity | ].
  simpl. rewrite N.ltb_irrefl, N.eqb_refl. exact IH.
Qed.

Lemma str_ltb_neq a b : str_ltb a b = true -> str_eqb a b = false.
Proof.
  intros H. destruct (str_eqb a b) eqn:E; [ | reflexivity].
  apply str_eqb_eq in E. subst b. rewrite str_ltb_irrefl in H. discriminate.
Qed.

(** A file whose name comes after every name of the directory goes to its
    end. *)
Lemma put_last f dir :
  (forall g, In g dir -> str_ltb (name g) (name f) = true) ->
  put f dir = dir ++ [f].
Proof.
  induction dir as [ | g dir IH]; intros H; [reflexivity | ].
  cbn [put app].
  rewrite (str_ltb_neq _ _ (H g (or_introl eq_refl))), (H g (or_introl eq_refl)).
  rewrite IH; [reflexivity | ]. intros g' Hg. apply H. right. exact Hg.
Qed.

(** With two digits the names of the frames are in the order of their
    indices, up to index 99. *)
Lemma frame_name_lt i j :
  i < j -> j < 100 -> str_ltb (frame_name i) (frame_name j) = true.
Proof.
  intros Hij Hj.
  assert (C : forallb (fun i => forallb (fun j =>
                negb (i <? j) || str_ltb (frame_name i) (frame_name j))
                (seq 0 100)) (seq 0 100) = true) by (vm_compute; reflexivity).
  rewrite forallb_forall in C.
  assert (Ci := C i ltac:(apply in_seq; lia)). rewrite forallb_forall in Ci.
  assert (Cj := Ci j ltac:(apply in_seq; lia)).
  apply Nat.ltb_lt in Hij. rewrite Hij in Cj. exact Cj.
Qed.



(** Every file of the extraction loop is the frame of one of its indices. *)
Lemma produced_over_In env d v l f :
  In f (produced_over env d v l) ->
  exists i, In i l
    /\ ffmpeg env (frame_time d i) v (frame_name i) = Some (content f)
    /\ name f = frame_name i.
Proof.
  induction l as [ | i l IH]; simpl; [tauto | ].
  destruct (ffmpeg env (frame_time d i) v (frame_name i)) as [image | ] eqn:E.
  - intros [<- | H].
    + exists i. simpl. auto.
    + destruct (IH H) as (j & Hj & Fj & Nj). exists j. auto.
  - intros H. destruct (IH H) as (j & Hj & Fj & Nj). exists j. auto.
Qed.

Lemma seq8_sorted :
  StronglySorted lt (seq 0 frameCount)
  /\ Forall (fun i => i < 100) (seq 0 frameCount).
Proof.
  split.
  - simpl. repeat (constructor; [ | repeat constructor; lia]). constructor.
  - simpl. repeat constructor; lia.
Qed.

(** *** The pipeline, step by step *)

Lemma mkdir_run env :
  mkdir_error env = None -> mkdirSync env start = (Ok tt, holding [] []).
Proof. intros H. unfold mkdirSync. rewrite H. reflexivity. Qed.

Lemma download_run env u v :
  fst (ytdlp_video env u) = None -> video_of env u = Some v ->
  download env u (holding [] [])
  = (Ok v, holding (downloaded env u) []).
Proof.
  intros F V. unfold video_of in V.
  unfold download, exec_tool, bind, leave_top, readdir_top, get_workspace, bind.
  simpl. rewrite F. simpl.
  change (put_all (snd (ytdlp_video env u)) []) with (downloaded env u).
  rewrite V. reflexivity.
Qed.

Lemma transcript_run env u :
  fetch_transcript env u (holding (downloaded env u) [])
  = (Ok (transcript_of env u), holding (top_of env u) []).
Proof.
  unfold fetch_transcript, transcript_of, subtitle_of.
  unfold try_catch, exec_tool, bind, leave_top, readdir_top, get_workspace,
    bind, readFileSync, get_workspace, bind.
  simpl.
  change (put_all (snd (ytdlp_subs env u)) (downloaded env u))
    with (top_of env u).
  destruct (fst (ytdlp_subs env u)) as [e | ]; simpl; [reflexivity | ].
  destruct (filter _ _) as [ | sub0 rest]; simpl; [reflexivity | ].
  destruct (read_error env sub0) as [e | ]; simpl; [reflexivity | ].
  destruct (find_file sub0 _) as [f | ]; reflexivity.
Qed.

Lemma produced_over_app env d v a b :
  produced_over env d v (a ++ b)
  = produced_over env d v a ++ produced_over env d v b.
Proof.
  induction a as [ | i a IH]; [reflexivity | ].
  simpl. rewrite IH.
  destruct (ffmpeg env (frame_time d i) v (frame_name i)); reflexivity.
Qed.

(** In a sorted list what stands before an element is below it. *)
Lemma sorted_before a : forall (x : nat) b,
  StronglySorted lt (a ++ x :: b) -> Forall (fun y => y < x) a.
Proof.
  induction a as [ | y a IH]; intros x b S; [constructor | ].
  inversion S as [ | ? ? S' F]; subst. constructor.
  - rewrite Forall_forall in F. apply F. apply in_or_app. right. left.
    reflexivity.
  - apply (IH x b S').
Qed.

(** One extraction: the frame, if there is one, comes after the frames of
    the lower indices. *)
Lemma extract_step env d v i pre top :
  Forall (fun j => j < i) pre -> i < 100 ->
  extract_frame env d v i (holding top (produced_over env d v pre))
  = (Ok tt, holding top (produced_over env d v (pre ++ [i]))).
Proof.
  intros Lt Hi. unfold extract_frame. rewrite produced_over_app.
  cbn [produced_over].
  destruct (ffmpeg env (frame_time d i) v (frame_name i)) as [image | ].
  - unfold leave_frame, holding, set_workspace.
    cbn [workspace top_files frame_files console_error sent].
    rewrite put_last; [reflexivity | ].
    intros g Hg. destruct (produced_over_In env d v pre g Hg) as (j & Hj & _ & Nj).
    rewrite Nj. cbn [name]. rewrite Forall_forall in Lt.
    apply frame_name_lt; [apply Lt, Hj | exact Hi].
  - rewrite app_nil_r. reflexivity.
Qed.

(** The extraction loop leaves the frames it produced, in the order of
    their indices, which is the order of their names. *)
Lemma extract_run env d v l : forall pre top,
  StronglySorted lt (pre ++ l) -> Forall (fun i => i < 100) (pre ++ l) ->
  for_each l (extract_frame env d v) (holding top (produced_over env d v pre))
  = (Ok tt, holding top (produced_over env d v (pre ++ l))).
Proof.
  induction l as [ | i l IH]; intros pre top S B.
  - rewrite app_nil_r. reflexivity.
  - cbn [for_each]. unfold bind.
    rewrite (extract_step env d v i pre top (sorted_before pre i l S)).
    + replace (pre ++ i :: l) with ((pre ++ [i]) ++ l) in *
        by (rewrite <- app_assoc; reflexivity).
      apply IH; assumption.
    + rewrite Forall_forall in B. apply B. apply in_or_app. right. left.
      reflexivity.
Qed.

Lemma read_frame_run env top frames n :
  read_frame env n (holding top frames)
  = (Ok match read_error env n, find_file n frames with
        | None, Some f => Some (content f)
        | _, _ => None
        end, holding top frames).
Proof.
  unfold read_frame, try_catch, readFileSync, bind, get_workspace. simpl.
  destruct (read_error env n) as [e | ]; [reflexivity | ].
  destruct (find_file n frames) as [f | ]; reflexivity.
Qed.

Lemma read_all_run env top frames names :
  read_all env names (holding top frames)
  = (Ok (buffers_over env frames names), holding top frames).
Proof.
  induction names as [ | n names IH]; [reflexivity | ].
  cbn [read_all buffers_over]. unfold bind.
  rewrite read_frame_run, IH.
  destruct (read_error env n) as [e | ]; [reflexivity | ].
  destruct (find_file n frames) as [f | ]; reflexivity.
Qed.

Lemma read_frames_run env top frames :
  read_frames env (holding top frames)
  = (Ok (buffers_over env frames
           (sort (filter (fun f => endsWith f (lit ".jpg")) (map name frames)))),
     holding top frames).
Proof.
  unfold read_frames, readdir_frames, bind, get_workspace. simpl.
  apply read_all_run.
Qed.

(** The pipeline of a request that gets as far as the frames: it fails for
    want of frames, or goes on to the model with the transcript and the
    buffers of the run. *)
Lemma pipeline_frames env u p v :
  reaches_frames env u v ->
  pipeline env u p start
  = match buffers_of env v with
    | [] => (Throw ERR_NO_FRAMES, after_frames env u v)
    | _ :: _ =>
        infer env p (transcript_of env u) (buffers_of env v)
          (after_frames env u v)
    end.
Proof.
  intros (M & F & V). unfold pipeline, bind.
  rewrite (mkdir_run env M), (download_run env u v F V), transcript_run.
  unfold extract_frames.
  destruct seq8_sorted as [S8 B8].
  change (holding (top_of env u) [])
    with (holding (top_of env u)
            (produced_over env (probe_duration env v) v [])).
  rewrite (extract_run env (probe_duration env v) v (seq 0 frameCount) []
             (top_of env u) S8 B8).
  change (produced_over env (probe_duration env v) v ([] ++ seq 0 frameCount))
    with (produced env v).
  rewrite read_frames_run.
  change (buffers_over env (produced env v) _) with (buffers_of env v).
  unfold after_frames. destruct (buffers_of env v); reflexivity.
Qed.

(** The pipeline stops early, or gets as far as the frames. *)
Lemma pipeline_early env u p :
  (exists e, mkdir_error env = Some e
             /\ pipeline env u p start = (Throw e, start))
  \/ (exists e, mkdir_error env = None /\ fst (ytdlp_video env u) = Some e
                /\ pipeline env u p start
                   = (Throw e, holding (downloaded env u) []))
  \/ (mkdir_error env = None /\ fst (ytdlp_video env u) = None
      /\ video_of env u = None
      /\ pipeline env u p start
         = (Throw ERR_DOWNLOAD, holding (downloaded env u) []))
  \/ (exists v, reaches_frames env u v).
Proof.
  destruct (mkdir_error env) as [e | ] eqn:M.
  - left. exists e. split; [reflexivity | ].
    unfold pipeline, bind, mkdirSync. rewrite M. reflexivity.
  - right. destruct (fst (ytdlp_video env u)) as [e | ] eqn:F.
    + left. exists e. split; [reflexivity | ]. split; [reflexivity | ].
      unfold pipeline, bind. rewrite (mkdir_run env M).
      unfold download, exec_tool, bind, leave_top. simpl. rewrite F.
      reflexivity.
    + right. destruct (video_of env u) as [v | ] eqn:V.
      * right. exists v. repeat split; assumption.
      * left. repeat split.
        unfold pipeline, bind. rewrite (mkdir_run env M).
        unfold video_of in V.
        unfold download, exec_tool, bind, leave_top, readdir_top,
          get_workspace, bind. simpl. rewrite F. simpl.
        change (put_all (snd (ytdlp_video env u)) []) with (downloaded env u).
        rewrite V. reflexivity.
Qed.

(** Once the directory is made it is there when the [try]/[catch] ends. *)
Lemma pipeline_workspace env u p :
  mkdir_error env = None ->
  workspace (snd (try_catch (pipeline env u p) on_error start)) <> None.
Proof.
  intros M. unfold try_catch.
  destruct (pipeline_early env u p)
    as [(e & M' & _) | [(e & _ & _ & P) | [(_ & _ & _ & P) | (v & R)]]].
  - congruence.
  - rewrite P. discriminate.
  - rewrite P. discriminate.
  - rewrite (pipeline_frames env u p v R).
    destruct (buffers_of env v) as [ | b0 bs]; [discriminate | ].
    unfold infer.
    destruct (vision env (b0 :: bs) _) as [[ | first rest] | e]; discriminate.
Qed.

(** *** Cleanup of the workspace *)

(** C1, as the code has it. For a request that passes URL validation the
    handler never throws, and its [finally] block leaves the answer and the
    console as the [try]/[catch] left them, whatever the pipeline did. When
    the deletion succeeds the workspace no longer exists after the request,
    on every path: success, failure of any step. When the deletion throws,
    the error is suppressed and what the deletion had not removed stays:
    if the directory was made, it still exists after the request. *)
Theorem C1_workspace_removed_unless_deletion_fails
  (env : Env) (u : jsstring) (p : Platform) :
  detectPlatform u = Some p ->
  let before := snd (try_catch (pipeline env u p) on_error start) in
  fst (analyze_video env (Some u) start) = Ok tt
  /\ sent (run env (Some u)) = sent before
  /\ console_error (run env (Some u)) = console_error before
  /\ (rm_failure env = None -> workspace (run env (Some u)) = None)
  /\ (forall kept, rm_failure env = Some kept ->
      workspace (run env (Some u))
      = option_map (survivors kept) (workspace before)
      /\ (mkdir_error env = None -> workspace (run env (Some u)) <> None)).
Proof.
  intros H. cbv zeta.
  pose proof (pipeline_workspace env u p) as W.
  destruct (try_catch (pipeline env u p) on_error start) as [o w1] eqn:E.
  assert (O : o = Ok tt).
  { unfold try_catch in E. destruct (pipeline env u p start) as [[[] | e] w0].
    - injection E as <- _. reflexivity.
    - rewrite on_error_spec in E. injection E as <- _. reflexivity. }
  destruct (run_valid env u p o w1 H E) as (A & B & C & D).
  cbn [snd] in W |- *. rewrite A, B, C, D, O.
  split; [reflexivity | ]. split; [reflexivity | ]. split; [reflexivity | ].
  split.
  - intros R. rewrite R. reflexivity.
  - intros kept R. rewrite R. split; [reflexivity | ].
    intros M. specialize (W M). destruct (workspace w1); [discriminate | tauto].
Qed.

(** C1 at a run in which every step succeeds and the deletion does too. *)
Lemma C1_workspace_removed_witness :
  workspace (run (Scenarios.three_frames None (Ok Scenarios.reply))
               (Some Scenarios.URL)) = None.
Proof.
  apply (proj1 (proj2 (proj2 (proj2
    (C1_workspace_removed_unless_deletion_fails
       (Scenarios.three_frames None (Ok Scenarios.reply)) Scenarios.URL
       youtube eq_refl))))).
  reflexivity.
Defined.

(** The claim of C1 fails where the deletion throws: here it removes the
    video and fails on the frames; the request is answered with status 200
    and the workspace is still there, with the three frames in it. *)
Lemma C1_counterexample_deletion_throws :
  let w := run (Scenarios.three_frames (Some Runs.frames_stuck)
                  (Ok Scenarios.reply))
             (Some Scenarios.URL) in
  detectPlatform Scenarios.URL = Some youtube
  /\ option_map status (sent w) = Some 200
  /\ workspace w
     = Some {| top_files := [];
               frame_files :=
                 [ {| name := frame_name 1; content := lit "jpeg" |};
                   {| name := frame_name 4; content := lit "jpeg" |};
                   {| name := frame_name 6; content := lit "jpeg" |} ] |}
  /\ workspace w <> None.
Proof.
  cbv zeta. split; [reflexivity | ]. split; [vm_compute; reflexivity | ].
  split; [vm_compute; reflexivity | ]. vm_compute. discriminate.
Qed.

(** *** Classification of failures *)




Lemma not_true_false (b : bool) (P : Prop) :
  (b = true <-> P) -> ~ P -> b = false.
Proof. intros H N. destruct b; [exfalso; apply N, H; reflexivity | reflexivity]. Qed.




(** *** Platform detection *)

Lemma test_YOUTUBE u :
  test YOUTUBE_RE u = true <->
  occurs (lit "youtube.com") u \/ occurs (lit "youtu.be") u.
Proof. unfold YOUTUBE_RE. rewrite test_Alt, orb_true_iff, !test_Lit. tauto. Qed.

(** C7, as the code has it: the three patterns are tried in order against
    the whole URL, not against its host. A URL in which [youtube.com] or
    [youtu.be] occurs is [youtube]; a URL without those in which
    [tiktok.com] occurs is [tiktok]; a URL without any of those in which
    [instagram.com] occurs is [instagram]. A URL in which none occurs has no
    platform, and when it is not empty the request is answered with status
    400 and a message that names YouTube, TikTok and Instagram, without a
    workspace being created. *)
Theorem C7_platform_by_first_pattern_in_url (env : Env) (u : jsstring) :
  let yt := occurs (lit "youtube.com") u \/ occurs (lit "youtu.be") u in
  let tt := occurs (lit "tiktok.com") u in
  let ig := occurs (lit "instagram.com") u in
  let guidance := lit "Please paste a YouTube, TikTok, or Instagram URL." in
  (yt -> detectPlatform u = Some youtube)
  /\ (~ yt -> tt -> detectPlatform u = Some tiktok)
  /\ (~ yt -> ~ tt -> ig -> detectPlatform u = Some instagram)
  /\ (~ yt -> ~ tt -> ~ ig ->
      detectPlatform u = None
      /\ (u <> [] ->
          run env (Some u)
          = {| workspace := None; console_error := [];
               sent := Some {| status := 400; body := ErrorJson guidance |} |}))
  /\ occurs (lit "YouTube") guidance /\ occurs (lit "TikTok") guidance
  /\ occurs (lit "Instagram") guidance.
Proof.
  cbv zeta. unfold detectPlatform, TIKTOK_RE, INSTAGRAM_RE.
  split; [ | split; [ | split; [ | split; [ | split; [ | split]]]]].
  - intros Y. apply test_YOUTUBE in Y. rewrite Y. reflexivity.
  - intros NY T. rewrite (not_true_false _ _ (test_YOUTUBE u) NY).
    apply test_Lit in T. rewrite T. reflexivity.
  - intros NY NT I. rewrite (not_true_false _ _ (test_YOUTUBE u) NY).
    rewrite (not_true_false _ _ (test_Lit _ u) NT).
    apply test_Lit in I. rewrite I. reflexivity.
  - intros NY NT NI.
    assert (D : detectPlatform u = None).
    { unfold detectPlatform, TIKTOK_RE, INSTAGRAM_RE.
      rewrite (not_true_false _ _ (test_YOUTUBE u) NY).
      rewrite (not_true_false _ _ (test_Lit _ u) NT).
      rewrite (not_true_false _ _ (test_Lit _ u) NI). reflexivity. }
    split; [exact D | ].
    intros N. unfold run, analyze_video. destruct u as [ | c u]; [congruence | ].
    rewrite D. reflexivity.
  - exists (lit "Please paste a "), (lit ", TikTok, or Instagram URL.").
    reflexivity.
  - exists (lit "Please paste a YouTube, "), (lit ", or Instagram URL.").
    reflexivity.
  - exists (lit "Please paste a YouTube, TikTok, or "), (lit " URL.").
    reflexivity.
Qed.

(** C7 at a short YouTube link. *)
Lemma C7_platform_witness :
  detectPlatform Scenarios.URL = Some youtube.
Proof.
  apply (proj1 (C7_platform_by_first_pattern_in_url Scenarios.no_frames
                  Scenarios.URL)).
  right. exists (lit "https://"), (lit "/dQw4w9WgXcQ"). reflexivity.
Defined.

(** The claim of C7 fails at a TikTok address whose path holds
    [youtube.com]: its host is [www.tiktok.com], the TikTok pattern occurs
    in it, and it is classified as [youtube]. *)
Lemma C7_counterexample_tiktok_url :
  Scenarios.TIKTOK_URL
  = lit "https://www.tiktok.com" ++ lit "/@youtube.com/video/7301"
  /\ occurs (lit "tiktok.com") Scenarios.TIKTOK_URL
  /\ test TIKTOK_RE Scenarios.TIKTOK_URL = true
  /\ detectPlatform Scenarios.TIKTOK_URL = Some youtube
  /\ detectPlatform Scenarios.TIKTOK_URL <> Some tiktok.
Proof.
  split; [reflexivity | ]. split; [ | split; [ | split]].
  - exists (lit "https://www."), (lit "/@youtube.com/video/7301"). reflexivity.
  - reflexivity.
  - reflexivity.
  - vm_compute. discriminate.
Qed.

(** *** The number of frames *)

Lemma str_eqb_refl a : str_eqb a a = true.
Proof. induction a as [ | x a IH]; simpl; [ | rewrite N.eqb_refl]; auto. Qed.

Lemma startsWith_app p s : startsWith (p ++ s) p = true.
Proof.
  induction p as [ | x p IH]; simpl.
  - destruct s; reflexivity.
  - rewrite N.eqb_refl. exact IH.
Qed.

Lemma frame_name_jpg i : endsWith (frame_name i) (lit ".jpg") = true.
Proof.
  unfold endsWith, frame_name. rewrite !rev_app_distr, <- app_assoc.
  apply startsWith_app.
Qed.

Lemma insert_sorted_length x l :
  List.length (insert_sorted x l) = S (List.length l).
Proof.
  induction l as [ | y l IH]; simpl; [reflexivity | ].
  destruct (str_ltb y x); simpl; [rewrite IH | ]; reflexivity.
Qed.

Lemma insert_sorted_In x y l : In y (insert_sorted x l) -> y = x \/ In y l.
Proof.
  induction l as [ | z l IH]; simpl.
  - intros [H | []]. auto.
  - destruct (str_ltb z x); simpl; intros [H | H]; auto.
    destruct (IH H); auto.
Qed.

Lemma sort_length l : List.length (sort l) = List.length l.
Proof.
  induction l as [ | x l IH]; simpl; [reflexivity | ].
  unfold sort in *. simpl. rewrite insert_sorted_length, IH. reflexivity.
Qed.

Lemma sort_In y l : In y (sort l) -> In y l.
Proof.
  induction l as [ | x l IH]; simpl; [auto | ].
  intros H. apply insert_sorted_In in H. destruct H as [-> | H]; auto.
Qed.

Lemma produced_over_length env d v l :
  List.length (produced_over env d v l) <= List.length l.
Proof.
  induction l as [ | i l IH]; simpl; [lia | ].
  destruct (ffmpeg env (frame_time d i) v (frame_name i)); simpl; lia.
Qed.

Lemma produced_over_jpg env d v l f :
  In f (produced_over env d v l) -> endsWith (name f) (lit ".jpg") = true.
Proof.
  induction l as [ | i l IH]; simpl; [tauto | ].
  destruct (ffmpeg env (frame_time d i) v (frame_name i)); simpl; auto.
  intros [<- | H]; [apply frame_name_jpg | auto].
Qed.

Lemma buffers_over_length env fs names :
  List.length (buffers_over env fs names) <= List.length names.
Proof.
  induction names as [ | n names IH]; simpl; [lia | ].
  destruct (read_error env n); [lia | ].
  destruct (find_file n fs); simpl; lia.
Qed.

Lemma find_file_In n fs :
  In n (map name fs) -> exists f, find_file n fs = Some f.
Proof.
  unfold find_file. induction fs as [ | g fs IH]; simpl; [tauto | ].
  intros [<- | H].
  - rewrite str_eqb_refl. eauto.
  - destruct (str_eqb (name g) n); eauto.
Qed.

Lemma buffers_over_full env fs names :
  (forall n, In n names -> read_error env n = None /\ In n (map name fs)) ->
  List.length (buffers_over env fs names) = List.length names.
Proof.
  induction names as [ | n names IH]; simpl; [reflexivity | ].
  intros H. destruct (H n (or_introl eq_refl)) as [R I].
  destruct (find_file_In n fs I) as [f F]. rewrite R, F. simpl.
  rewrite IH; [reflexivity | ]. intros n' Hn. apply H. right. exact Hn.
Qed.

Lemma filter_all (A : Type) (q : A -> bool) l :
  (forall x, In x l -> q x = true) -> filter q l = l.
Proof.
  induction l as [ | x l IH]; simpl; [reflexivity | ].
  intros H. rewrite (H x (or_introl eq_refl)), IH; [reflexivity | ].
  intros y Hy. apply H. right. exact Hy.
Qed.

(** The directory listing of the frames keeps every file produced. *)
Lemma frame_listing env v :
  filter (fun f => endsWith f (lit ".jpg")) (map name (produced env v))
  = map name (produced env v).
Proof.
  apply filter_all. intros n H. apply in_map_iff in H.
  destruct H as (f & <- & H). apply (produced_over_jpg _ _ _ _ _ H).
Qed.

Lemma frames_counts env v :
  List.length (buffers_of env v) <= List.length (produced env v)
  /\ List.length (produced env v) <= 8
  /\ ((forall f, In f (produced env v) -> read_error env (name f) = None) ->
      List.length (buffers_of env v) = List.length (produced env v)).
Proof.
  unfold buffers_of. rewrite frame_listing. split; [ | split].
  - pose proof (buffers_over_length env (produced env v)
                  (sort (map name (produced env v)))) as H.
    rewrite sort_length, length_map in H. exact H.
  - apply (produced_over_length env _ v (seq 0 frameCount)).
  - intros R. rewrite buffers_over_full.
    + rewrite sort_length, length_map. reflexivity.
    + intros n H. apply sort_In in H. split; [ | exact H].
      apply in_map_iff in H. destruct H as (f & <- & H). apply R. exact H.
Qed.

(** The answers of a request that gets as far as the frames. *)
Lemma run_no_frames env u p v :
  detectPlatform u = Some p -> reaches_frames env u v ->
  buffers_of env v = [] ->
  sent (run env (Some u))
  = Some {| status := 500; body := ErrorJson MSG_GENERIC |}
  /\ console_error (run env (Some u))
     = [lit "Video analysis error: " ++ ERR_NO_FRAMES].
Proof.
  intros D R B. pose proof (pipeline_frames env u p v R) as P.
  rewrite B in P. apply (run_failure env u p _ _ D P).
Qed.

Lemma run_with_frames env u p v b rest :
  detectPlatform u = Some p -> reaches_frames env u v ->
  buffers_of env v <> [] ->
  vision env (buffers_of env v)
    (prompt p (transcript_of env u) (List.length (buffers_of env v)))
  = Ok (b :: rest) ->
  sent (run env (Some u))
  = Some {| status := 200;
            body := AnalysisJson (text b) (platform_name p)
                      (negb (str_eqb (transcript_of env u) []))
                      (List.length (buffers_of env v)) |}.
Proof.
  intros D R B V. pose proof (pipeline_frames env u p v R) as P.
  destruct (buffers_of env v) as [ | b0 bs] eqn:E; [congruence | ].
  unfold infer in P. rewrite V in P.
  rewrite (run_success env u p _ D P). reflexivity.
Qed.

(** C2, as the code has it. For a request that gets as far as the frame
    extraction, at most 8 frame files result and at most that many are
    read, all of them when every file can be read. If no frame is read, so
    in particular if no file results, the request is answered with status
    500 and the generic could-not-analyze text, the message about frames
    going to the server's console only. If at least one is read and the
    model returns a first content block, the request is answered with
    status 200 and a [frameCount] equal to the number of frames read. *)
Theorem C2_frame_count_decides_the_answer
  (env : Env) (u : jsstring) (p : Platform) (v : jsstring) :
  detectPlatform u = Some p -> reaches_frames env u v ->
  let files := produced env v in
  let bufs := buffers_of env v in
  List.length bufs <= List.length files /\ List.length files <= 8
  /\ ((forall f, In f files -> read_error env (name f) = None) ->
      List.length bufs = List.length files)
  /\ (bufs = [] ->
      sent (run env (Some u))
      = Some {| status := 500; body := ErrorJson MSG_GENERIC |}
      /\ console_error (run env (Some u))
         = [lit "Video analysis error: " ++ ERR_NO_FRAMES])
  /\ (forall b rest,
        bufs <> [] ->
        vision env bufs (prompt p (transcript_of env u) (List.length bufs))
        = Ok (b :: rest) ->
        sent (run env (Some u))
        = Some {| status := 200;
                  body := AnalysisJson (text b) (platform_name p)
                            (negb (str_eqb (transcript_of env u) []))
                            (List.length bufs) |}).
Proof.
  intros D R. cbv zeta.
  destruct (frames_counts env v) as (A & B & C).
  split; [exact A | ]. split; [exact B | ]. split; [exact C | ].
  split.
  - apply (run_no_frames env u p v D R).
  - intros b rest. apply (run_with_frames env u p v b rest D R).
Qed.

Lemma reaches_three rm model :
  reaches_frames (Scenarios.three_frames rm model) Scenarios.URL
    (lit "video.mp4").
Proof. repeat split. Qed.

(** C2 at a run in which three extractions out of eight produce a file and
    the model answers: status 200 and a [frameCount] of 3. *)
Lemma C2_frame_count_witness :
  sent (run (Scenarios.three_frames None (Ok Scenarios.reply))
          (Some Scenarios.URL))
  = Some {| status := 200;
            body := AnalysisJson (Some (lit "Score: 7/10")) (lit "youtube")
                      false 3 |}.
Proof.
  apply (proj2 (proj2 (proj2 (proj2
    (C2_frame_count_decides_the_answer
       (Scenarios.three_frames None (Ok Scenarios.reply)) Scenarios.URL
       youtube (lit "video.mp4") eq_refl (reaches_three _ _)))))
    {| text := Some (lit "Score: 7/10") |} []).
  - vm_compute. discriminate.
  - reflexivity.
Defined.

(** The claim of C2 fails twice. With no frame file the answer is 500, but
    its text is the generic one, in which nothing about frames occurs. With
    three frame files and a model that fails the request does not succeed. *)
Lemma C2_counterexample_generic_text_and_model_failure :
  let busy := Scenarios.three_frames None (Throw (lit "Overloaded")) in
  (reaches_frames Scenarios.no_frames Scenarios.URL (lit "video.mp4")
   /\ produced Scenarios.no_frames (lit "video.mp4") = []
   /\ sent (run Scenarios.no_frames (Some Scenarios.URL))
      = Some {| status := 500; body := ErrorJson MSG_GENERIC |}
   /\ test (LitCI (lit "frame")) MSG_GENERIC = false
   /\ test (LitCI (lit "extract")) MSG_GENERIC = false)
  /\ (reaches_frames busy Scenarios.URL (lit "video.mp4")
      /\ List.length (produced busy (lit "video.mp4")) = 3
      /\ List.length (buffers_of busy (lit "video.mp4")) = 3
      /\ sent (run busy (Some Scenarios.URL))
         = Some {| status := 500; body := ErrorJson MSG_GENERIC |}).
Proof.
  cbv zeta. split.
  - split; [repeat split | ]. repeat split.
  - split; [repeat split | ]. repeat split.
Qed.

(** *** The transcript flag *)

(** C10. In the answer of a successful request [hasTranscript] says
    whether the parsed transcript is a non-empty string. When the subtitle
    fetch succeeds and leaves a subtitle file that can be read but whose
    parse is the empty string, the transcript is empty, [hasTranscript] is
    false, and the prompt sent to the model is the one of the no-transcript
    branch. *)
Theorem C10_hasTranscript_is_nonempty_parse
  (env : Env) (u : jsstring) (p : Platform) (v : jsstring)
  (b : Block) (rest : list Block) :
  detectPlatform u = Some p -> reaches_frames env u v ->
  buffers_of env v <> [] ->
  let n := List.length (buffers_of env v) in
  vision env (buffers_of env v) (prompt p (transcript_of env u) n)
  = Ok (b :: rest) ->
  sent (run env (Some u))
  = Some {| status := 200;
            body := AnalysisJson (text b) (platform_name p)
                      (negb (str_eqb (transcript_of env u) [])) n |}
  /\ (forall sub0 f,
        fst (ytdlp_subs env u) = None ->
        subtitle_of env u = Some sub0 ->
        read_error env sub0 = None ->
        find_file sub0 (top_of env u) = Some f ->
        parseVTT (content f) = [] ->
        transcript_of env u = []
        /\ sent (run env (Some u))
           = Some {| status := 200;
                     body := AnalysisJson (text b) (platform_name p) false n |}
        /\ prompt p (transcript_of env u) n
           = lit "You're a sharp content strategist analyzing a "
               ++ platform_name p
               ++ lit " video for a creator who wants honest, actionable feedback."
               ++ [NL; NL]
               ++ (lit "No transcript available " ++ [EM_DASH]
                     ++ lit " analyze visuals only." ++ [NL; NL])
               ++ JS.of_nat n ++ prompt_tail).
Proof.
  intros D R B n V.
  pose proof (run_with_frames env u p v b rest D R B V) as S.
  split; [exact S | ].
  intros sub0 f F0 S0 R0 F1 P0.
  assert (T : transcript_of env u = []).
  { unfold transcript_of. rewrite F0, S0, R0, F1. exact P0. }
  split; [exact T | ]. rewrite S, T. split; reflexivity.
Qed.

(** The listing of a workspace is by name, not by the order in which the
    files were written: of two candidates for the video, and of two
    subtitle files, the one whose name comes first is taken. *)
Example listing_by_name :
  map name (snd (ytdlp_video Runs.several_candidates Scenarios.URL))
  = [lit "video.webm"; lit "video.en.vtt"; lit "video.mp4"]
  /\ listing (top_of Runs.several_candidates Scenarios.URL)
     = [lit "frames"; lit "sub.en.vtt"; lit "video.en.vtt"; lit "video.mp4";
        lit "video.webm"]
  /\ video_of Runs.several_candidates Scenarios.URL = Some (lit "video.mp4")
  /\ subtitle_of Runs.several_candidates Scenarios.URL
     = Some (lit "sub.en.vtt").
Proof. repeat split. Qed.

(** C10 at two runs. In the first the subtitle file holds a header,
    metadata and a cue timing only: the file exists, the flag is false, and
    the model, which answers by the branch of its prompt, saw the
    no-transcript one. In the second the download left a subtitle file with
    text as well; the file without text comes first in the listing, it is
    the one read, and the flag is false again. *)
Lemma C10_hasTranscript_witness :
  (subtitle_of Scenarios.headers_only Scenarios.URL = Some (lit "sub.en.vtt")
   /\ sent (run Scenarios.headers_only (Some Scenarios.URL))
      = Some {| status := 200;
                body := AnalysisJson (Some (lit "visuals only")) (lit "youtube")
                          false 8 |})
  /\ (parseVTT (content (Runs.spoken_vtt (lit "video.en.vtt")))
      = lit "Hello there"
      /\ sent (run Runs.several_candidates (Some Scenarios.URL))
         = Some {| status := 200;
                   body := AnalysisJson (Some (lit "visuals only"))
                             (lit "youtube") false 8 |}).
Proof.
  split.
  - split; [reflexivity | ].
    assert (R : reaches_frames Scenarios.headers_only Scenarios.URL
                  (lit "video.mp4")) by (repeat split).
    assert (B : buffers_of Scenarios.headers_only (lit "video.mp4") <> [])
      by (vm_compute; discriminate).
    destruct (C10_hasTranscript_is_nonempty_parse Scenarios.headers_only
                Scenarios.URL youtube (lit "video.mp4")
                {| text := Some (lit "visuals only") |} [] eq_refl R B eq_refl)
      as [_ H].
    destruct (H (lit "sub.en.vtt") Scenarios.empty_vtt eq_refl eq_refl eq_refl
                eq_refl eq_refl) as (_ & S & _).
    exact S.
  - split; [reflexivity | ].
    assert (R : reaches_frames Runs.several_candidates Scenarios.URL
                  (lit "video.mp4")) by (repeat split).
    assert (B : buffers_of Runs.several_candidates (lit "video.mp4") <> [])
      by (vm_compute; discriminate).
    destruct (C10_hasTranscript_is_nonempty_parse Runs.several_candidates
                Scenarios.URL youtube (lit "video.mp4")
                {| text := Some (lit "visuals only") |} [] eq_refl R B eq_refl)
      as [_ H].
    destruct (H (lit "sub.en.vtt") Scenarios.empty_vtt eq_refl eq_refl eq_refl
                eq_refl eq_refl) as (_ & S & _).
    exact S.
Defined.

End VideoFacts.

(* ================================================================= *)
(** ** Frame timestamps *)

Module TimeFacts.
Import Video.

Local Open Scope float_scope.

(** [NaN] is the one number that differs from itself. *)
Lemma is_nan_SF x :
  PrimFloat.is_nan x
  = match Prim2SF x with S754_nan => true | _ => false end.
Proof.
  unfold PrimFloat.is_nan. rewrite FloatAxioms.eqb_spec. unfold SFeqb.
  destruct (Prim2SF x) as [s | s | | s m e]; simpl; try reflexivity.
  - destruct s; reflexivity.
  - destruct s; rewrite Z.compare_refl, Pos.compare_cont_refl; reflexivity.
Qed.

Lemma finite_SF x :
  PrimFloat.is_finite x = true ->
  (exists s, Prim2SF x = S754_zero s)
  \/ (exists s m e, Prim2SF x = S754_finite s m e).
Proof.
  unfold PrimFloat.is_finite, PrimFloat.is_infinity.
  rewrite is_nan_SF, FloatAxioms.eqb_spec, FloatAxioms.abs_spec.
  destruct (Prim2SF x) as [s | s | | s m e]; simpl; try discriminate; eauto.
Qed.

(** A finite number times zero is a zero. *)
Lemma mul_zero_SF q :
  PrimFloat.is_finite q = true -> exists s, Prim2SF (q * 0) = S754_zero s.
Proof.
  intros H. rewrite FloatAxioms.mul_spec. apply finite_SF in H.
  destruct H as [[s E] | (s & m & e & E)]; rewrite E; simpl; eauto.
Qed.

Lemma max_half_zero z s :
  Prim2SF z = S754_zero s -> Num.Math_max 0.5 z = 0.5.
Proof.
  intros E. unfold Num.Math_max. rewrite (is_nan_SF z), E.
  rewrite !FloatAxioms.ltb_spec, E. reflexivity.
Qed.

Lemma ltb_leb x y : (x <? y) = true -> (x <=? y) = true.
Proof.
  rewrite FloatAxioms.ltb_spec, FloatAxioms.leb_spec. unfold SFltb, SFleb.
  destruct (SFcompare _ _) as [[ | | ] | ]; auto.
Qed.

Lemma ltb_not_nan x y : (x <? y) = true -> PrimFloat.is_nan y = false.
Proof.
  rewrite FloatAxioms.ltb_spec, is_nan_SF. unfold SFltb.
  destruct (Prim2SF y); try reflexivity.
  destruct (Prim2SF x); simpl; discriminate.
Qed.

Lemma max_half_above x : (0.5 <? x) = true -> Num.Math_max 0.5 x = x.
Proof.
  intros H. unfold Num.Math_max. rewrite (ltb_not_nan _ _ H), H. reflexivity.
Qed.

Lemma max_half_floor x :
  PrimFloat.is_nan (Num.Math_max 0.5 x) = false ->
  (0.5 <=? Num.Math_max 0.5 x) = true.
Proof.
  unfold Num.Math_max. destruct (PrimFloat.is_nan x) eqn:N; simpl.
  - discriminate.
  - destruct (0.5 <? x) eqn:L.
    + intros _. apply ltb_leb. exact L.
    + destruct (x <? 0.5); reflexivity.
Qed.

(** Comparing the other way round gives the opposite answer. *)
Lemma compare_swap a b : SFcompare b a = option_map CompOpp (SFcompare a b).
Proof.
  destruct a as [sa | sa | | sa ma ea], b as [sb | sb | | sb mb eb];
    try reflexivity; try (destruct sa; reflexivity);
    try (destruct sb; reflexivity);
    try (destruct sa, sb; reflexivity).
  destruct sa, sb; try reflexivity; simpl;
    rewrite (Z.compare_antisym ea eb); destruct (ea ?= eb)%Z; simpl;
    try reflexivity; f_equal.
  - rewrite CompOpp_involutive. exact (Pos.compare_cont_antisym mb ma Eq).
  - symmetry. exact (Pos.compare_cont_antisym ma mb Eq).
Qed.

Lemma leb_not_ltb x y : (x <=? y) = true -> (y <? x) = false.
Proof.
  rewrite FloatAxioms.ltb_spec, FloatAxioms.leb_spec. unfold SFltb, SFleb.
  rewrite (compare_swap (Prim2SF x) (Prim2SF y)).
  destruct (SFcompare (Prim2SF x) (Prim2SF y)) as [[ | | ] | ];
    simpl; congruence.
Qed.

Lemma leb_not_nan x y : (x <=? y) = true -> PrimFloat.is_nan x = false.
Proof.
  rewrite FloatAxioms.leb_spec, is_nan_SF. unfold SFleb.
  destruct (Prim2SF x); try reflexivity. simpl. discriminate.
Qed.

(** At or below the floor the floor is taken. *)
Lemma max_half_below x : (x <=? 0.5) = true -> Num.Math_max 0.5 x = 0.5.
Proof.
  intros H. unfold Num.Math_max.
  rewrite (leb_not_nan _ _ H), (leb_not_ltb _ _ H).
  destruct (x <? 0.5); reflexivity.
Qed.

Lemma max_half_nan x :
  PrimFloat.is_nan x = true -> PrimFloat.is_nan (Num.Math_max 0.5 x) = true.
Proof.
  intros H. unfold Num.Math_max. rewrite H, orb_true_r. reflexivity.
Qed.

Lemma not_finite_SF x :
  PrimFloat.is_finite x = false ->
  Prim2SF x = S754_nan \/ exists s, Prim2SF x = S754_infinity s.
Proof.
  unfold PrimFloat.is_finite, PrimFloat.is_infinity.
  rewrite is_nan_SF, FloatAxioms.eqb_spec, FloatAxioms.abs_spec.
  destruct (Prim2SF x) as [s | s | | s m e]; simpl; try discriminate; eauto.
Qed.

(** A number that is not finite times zero is no number. *)
Lemma mul_zero_nan q :
  PrimFloat.is_finite q = false -> PrimFloat.is_nan (q * 0) = true.
Proof.
  intros H. rewrite is_nan_SF, FloatAxioms.mul_spec.
  destruct (not_finite_SF q H) as [E | [s E]]; rewrite E; reflexivity.
Qed.

Lemma frame_times_nth d i :
  i < 8 ->
  nth i (frame_times d) nan = Num.Math_max 0.5 (d / 8 * Num.of_nat i).
Proof.
  intros H. do 8 (destruct i as [ | i]; [reflexivity | ]). lia.
Qed.

(** C6, as the code has it. For every duration [d] the loop computes 8
    timestamps, the [i]-th being [Math.max(0.5, (d / 8) * i)] in double
    arithmetic: it is [(d / 8) * i] where that exceeds 0.5, it is 0.5 where
    that is at most 0.5, and it is [NaN] where that is [NaN]; so a timestamp
    that is a number is never below 0.5. The first timestamp is 0.5 exactly
    when [d / 8] is finite, and [NaN] otherwise. With the default duration
    of 60 seconds, which a failed probe leaves, the timestamps are 0.5, 7.5,
    15, ..., 52.5. *)
Theorem C6_frame_timestamps (d : float) :
  List.length (frame_times d) = 8%nat
  /\ (forall i, i < 8 ->
      let x := d / 8 * Num.of_nat i in
      let t := nth i (frame_times d) nan in
      t = Num.Math_max 0.5 x
      /\ ((0.5 <? x) = true -> t = x)
      /\ ((x <=? 0.5) = true -> t = 0.5)
      /\ (PrimFloat.is_nan x = true -> PrimFloat.is_nan t = true)
      /\ (PrimFloat.is_nan t = false -> (0.5 <=? t) = true))
  /\ (PrimFloat.is_finite (d / 8) = true -> nth 0 (frame_times d) nan = 0.5)
  /\ (PrimFloat.is_finite (d / 8) = false ->
      PrimFloat.is_nan (nth 0 (frame_times d) nan) = true)
  /\ (forall env v, ffprobe env v = None ->
      frame_times (probe_duration env v)
      = [0.5; 7.5; 15; 22.5; 30; 37.5; 45; 52.5]).
Proof.
  split; [reflexivity | ].
  split; [ | split; [ | split; [ | ]]].
  - intros i H. cbv zeta. rewrite (frame_times_nth d i H).
    split; [reflexivity | ]. split; [apply max_half_above | ].
    split; [apply max_half_below | ]. split; [apply max_half_nan | ].
    apply max_half_floor.
  - intros F. rewrite (frame_times_nth d 0) by lia.
    destruct (mul_zero_SF (d / 8) F) as [s E].
    apply (max_half_zero _ s). exact E.
  - intros F. rewrite (frame_times_nth d 0) by lia.
    apply max_half_nan. apply (mul_zero_nan (d / 8) F).
  - intros env v E. unfold probe_duration. rewrite E. reflexivity.
Qed.

(** C6 at a video of 90 seconds: the first timestamp is the floor, the
    others are the multiples of 11.25 seconds. *)
Lemma C6_frame_timestamps_witness :
  nth 0 (frame_times 90) nan = 0.5
  /\ nth 1 (frame_times 90) nan = 11.25
  /\ nth 7 (frame_times 90) nan = 78.75.
Proof.
  destruct (C6_frame_timestamps 90) as (_ & A & Z & _).
  split; [apply Z; reflexivity | ].
  assert (L1 : (1 < 8)%nat) by lia.
  split.
  - exact (proj1 (proj2 (A 1%nat L1)) eq_refl).
  - exact (proj1 (proj2 (A 7%nat (Nat.lt_succ_diag_r 7))) eq_refl).
Defined.

(** The claim of C6 fails at a duration the probe can report: a number too
    large for a double is read as [Infinity], which is kept as the
    duration; its eighth times zero is [NaN], so the first timestamp is
    [NaN] and not the floor of 0.5, and the timestamps that follow are all
    [Infinity]. *)
Lemma C6_counterexample_infinite_duration :
  let d := probe_duration Runs.endless (lit "video.mp4") in
  d = infinity
  /\ frame_times d
     = [nan; infinity; infinity; infinity; infinity; infinity; infinity;
        infinity]
  /\ PrimFloat.is_nan (nth 0 (frame_times d) nan) = true
  /\ (0.5 <=? nth 0 (frame_times d) nan) = false
  /\ nth 0 (frame_times d) nan <> 0.5.
Proof.
  cbv zeta. split; [reflexivity | ]. split; [vm_compute; reflexivity | ].
  split; [vm_compute; reflexivity | ]. split; [vm_compute; reflexivity | ].
  intros H. apply (f_equal PrimFloat.is_nan) in H. vm_compute in H.
  discriminate H.
Qed.

End TimeFacts.

(* ================================================================= *)
(** ** Global replacement *)

Module ReplaceFacts.
Import RegexFacts.

(** Where [match_len] finds nothing, no prefix is in the language. *)
Lemma match_len_None s : forall r,
  match_len r s = None ->
  forall m, m <= List.length s -> ~ Lang r (firstn m s).
Proof.
  induction s as [ | d s IH]; intros r; simpl.
  - destruct (nullable r) eqn:N; [discriminate | ].
    intros _ m H. destruct m; simpl; rewrite <- nullable_Lang; congruence.
  - destruct (match_len (deriv d r) s) eqn:E; [discriminate | ].
    destruct (nullable r) eqn:N; [discriminate | ].
    intros _ m H. destruct m as [ | m]; simpl.
    + rewrite <- nullable_Lang. congruence.
    + rewrite <- deriv_Lang. apply (IH _ E). lia.
Qed.

(** [match_len] returns the length of the longest prefix in the language. *)
Lemma match_len_Some s : forall r n,
  match_len r s = Some n ->
  n <= List.length s /\ Lang r (firstn n s)
  /\ forall m, n < m -> m <= List.length s -> ~ Lang r (firstn m s).
Proof.
  induction s as [ | c s IH]; intros r n; simpl.
  - destruct (nullable r) eqn:N; [ | discriminate].
    intros E. injection E as <-. split; [lia | ].
    split; [apply nullable_Lang; exact N | ]. intros m H1 H2. lia.
  - destruct (match_len (deriv c r) s) as [k | ] eqn:E.
    + intros E'. injection E' as <-.
      destruct (IH _ _ E) as (A & B & C).
      split; [lia | ]. split; [apply deriv_Lang; exact B | ].
      intros m H1 H2. destruct m as [ | m]; [lia | ]. simpl.
      rewrite <- deriv_Lang. apply C; lia.
    + destruct (nullable r) eqn:N; [ | discriminate].
      intros E'. injection E' as <-. split; [lia | ].
      split; [apply nullable_Lang; exact N | ].
      intros m H1 H2. destruct m as [ | m]; [lia | ]. simpl.
      rewrite <- deriv_Lang. apply (match_len_None s _ E). lia.
Qed.

(** Skipping is the same as starting further on. *)
Lemma replace_from_skip r rep s : forall k,
  k <= List.length s ->
  replace_from r rep k s = replace_all r rep (skipn k s).
Proof.
  unfold replace_all. induction s as [ | c s IH]; intros k H.
  - simpl in H. replace k with 0 by lia. reflexivity.
  - destruct k as [ | k]; [reflexivity | ]. simpl. apply IH. simpl in H. lia.
Qed.

(** One step of the scan. *)
Lemma replace_all_cons r rep c s :
  replace_all r rep (c :: s)
  = match match_len r (c :: s) with
    | Some (S n) => rep ++ replace_all r rep (skipn n s)
    | Some 0 => rep ++ c :: replace_all r rep s
    | None => c :: replace_all r rep s
    end.
Proof.
  unfold replace_all at 1. cbn [replace_from].
  destruct (match_len r (c :: s)) as [[ | n] | ] eqn:E; try reflexivity.
  apply match_len_Some in E. destruct E as (H & _). simpl in H.
  rewrite replace_from_skip by lia. reflexivity.
Qed.

Lemma replace_all_nil r rep :
  nullable r = false -> replace_all r rep [] = [].
Proof. intros H. unfold replace_all. simpl. rewrite H. reflexivity. Qed.

Lemma skipn_length_le (A : Type) n (l : list A) :
  List.length (skipn n l) <= List.length l.
Proof. rewrite length_skipn. lia. Qed.

(** A replacement by nothing only deletes. *)
Lemma delete_In r x s : In x (replace_all r [] s) -> In x s.
Proof.
  remember (List.length s) as n eqn:L. revert s L.
  induction n as [n IH] using lt_wf_ind. intros s L.
  destruct s as [ | c s].
  - unfold replace_all. simpl. destruct (nullable r); auto.
  - rewrite replace_all_cons.
    destruct (match_len r (c :: s)) as [[ | k] | ] eqn:E; simpl.
    + intros [<- | H]; [left; reflexivity | right].
      apply (IH (List.length s)); [simpl in L; lia | reflexivity | exact H].
    + intros H. right.
      apply (IH (List.length (skipn k s))) in H;
        [ | pose proof (skipn_length_le _ k s); simpl in L; lia | reflexivity].
      rewrite <- (firstn_skipn k s). apply in_or_app. right. exact H.
    + intros [<- | H]; [left; reflexivity | right].
      apply (IH (List.length s)); [simpl in L; lia | reflexivity | exact H].
Qed.

End ReplaceFacts.

(* ================================================================= *)
(** ** Transcript parsing *)

Module ParseFacts.
Import Video VideoView RegexFacts ReplaceFacts.

(** *** Inline tags *)

Lemma not_gt_forallb inner :
  forallb (fun c => negb (c =? ch ">")%N) inner = true <-> ~ In (ch ">") inner.
Proof.
  induction inner as [ | c inner IH]; simpl.
  - tauto.
  - rewrite andb_true_iff, IH, negb_true_iff, N.eqb_neq. intuition congruence.
Qed.

(** The words of the tag pattern. *)
Lemma Lang_TAG m :
  Lang TAG_RE m <->
  exists inner,
    m = ch "<" :: inner ++ [ch ">"] /\ inner <> [] /\ ~ In (ch ">") inner.
Proof.
  unfold TAG_RE. rewrite Lang_Cat. split.
  - intros (a & b & -> & Ha & Hb). apply Lang_Chr in Ha. subst a.
    apply Lang_Cat in Hb. destruct Hb as (x & y & -> & Hx & Hy).
    apply Lang_Plus_Cls in Hx. apply Lang_Chr in Hy. subst y.
    destruct Hx as [N F]. apply not_gt_forallb in F. exists x. auto.
  - intros (inner & -> & N & F). exists [ch "<"], (inner ++ [ch ">"]).
    split; [reflexivity | ]. split; [apply Lang_Chr; reflexivity | ].
    apply Lang_Cat. exists inner, [ch ">"]. split; [reflexivity | ].
    split; [ | apply Lang_Chr; reflexivity].
    apply Lang_Plus_Cls. split; [exact N | apply not_gt_forallb; exact F].
Qed.

(** A tag is what the tag pattern finds. *)
Lemma has_tag_test s : has_tag s <-> test TAG_RE s = true.
Proof.
  rewrite test_spec. unfold has_tag. split.
  - intros (a & inner & b & -> & N & F).
    exists a, (ch "<" :: inner ++ [ch ">"]), b. split.
    + simpl. rewrite <- app_assoc. reflexivity.
    + apply Lang_TAG. exists inner. auto.
  - intros (a & m & b & -> & H). apply Lang_TAG in H.
    destruct H as (inner & -> & N & F). exists a, inner, b.
    split; [ | auto]. simpl. rewrite <- app_assoc. reflexivity.
Qed.

(** Up to the first occurrence of a character a string splits in one way. *)
Lemma first_unique (x : char) a : forall a' b b',
  a ++ x :: b = a' ++ x :: b' -> ~ In x a -> ~ In x a' -> a = a'.
Proof.
  induction a as [ | c a IH]; intros a' b b' E Ha Ha'; destruct a' as [ | c' a'];
    simpl in E.
  - reflexivity.
  - injection E as -> _. exfalso. apply Ha'. left. reflexivity.
  - injection E as -> _. exfalso. apply Ha. left. reflexivity.
  - injection E as -> E. f_equal. apply (IH a' b b' E).
    + intros H. apply Ha. right. exact H.
    + intros H. apply Ha'. right. exact H.
Qed.

(** At a given index the tag pattern has one match at most, so the match a
    backtracking engine finds there is the longest one. *)
Lemma TAG_match_unique s n m :
  n <= List.length s -> m <= List.length s ->
  Lang TAG_RE (firstn n s) -> Lang TAG_RE (firstn m s) -> n = m.
Proof.
  intros Hn Hm Ln Lm. apply Lang_TAG in Ln. apply Lang_TAG in Lm.
  destruct Ln as (i1 & E1 & _ & F1). destruct Lm as (i2 & E2 & _ & F2).
  assert (S1 : s = (ch "<" :: i1 ++ [ch ">"]) ++ skipn n s)
    by (rewrite <- E1; symmetry; apply firstn_skipn).
  assert (S2 : s = (ch "<" :: i2 ++ [ch ">"]) ++ skipn m s)
    by (rewrite <- E2; symmetry; apply firstn_skipn).
  rewrite S1 in S2 at 1. simpl in S2. injection S2 as S2.
  rewrite <- !app_assoc in S2. simpl in S2.
  apply first_unique in S2; [ | exact F1 | exact F2]. subst i2.
  rewrite <- (firstn_length_le s Hn), <- (firstn_length_le s Hm), E1, E2.
  reflexivity.
Qed.

(** A character other than [<] is copied. *)
Lemma strip_other c s :
  c <> ch "<" ->
  replace_all TAG_RE [] (c :: s) = c :: replace_all TAG_RE [] s.
Proof.
  intros N. rewrite replace_all_cons.
  destruct (match_len TAG_RE (c :: s)) as [k | ] eqn:E; [ | reflexivity].
  apply match_len_Some in E. destruct E as (_ & L & _).
  apply Lang_TAG in L. destruct L as (inner & E & _).
  destruct k; simpl in E; [discriminate | ]. injection E as Ec _.
  exfalso. apply N. exact Ec.
Qed.

(** The first occurrence of a character. *)
Lemma first_occurrence (x : char) s :
  In x s -> exists a b, s = a ++ x :: b /\ ~ In x a.
Proof.
  induction s as [ | c s IH]; simpl; [tauto | ].
  intros H. destruct (N.eq_dec c x) as [-> | N].
  - exists [], s. auto.
  - destruct H as [H | H]; [congruence | ].
    destruct (IH H) as (a & b & -> & Ha). exists (c :: a), b.
    split; [reflexivity | ]. simpl. tauto.
Qed.

(** After the tags are deleted every [<] left is directly followed by [>]
    or has no [>] after it. *)
Lemma strip_closed s : angles_closed (replace_all TAG_RE [] s).
Proof.
  remember (List.length s) as n eqn:L. revert s L.
  induction n as [n IH] using lt_wf_ind. intros s L.
  destruct s as [ | c s]; [exact I | ].
  rewrite replace_all_cons.
  destruct (match_len TAG_RE (c :: s)) as [[ | k] | ] eqn:E.
  - apply match_len_Some in E. destruct E as (_ & L0 & _).
    apply Lang_TAG in L0. destruct L0 as (inner & X & _). discriminate.
  - simpl. apply (IH (List.length (skipn k s))); [ | reflexivity].
    pose proof (skipn_length_le _ k s). simpl in L. lia.
  - simpl. split.
    + intros ->. destruct s as [ | d s']; [right; simpl; tauto | ].
      destruct (N.eq_dec d (ch ">")) as [-> | Nd].
      * left. rewrite strip_other by discriminate. reflexivity.
      * right. intros Hin. apply delete_In in Hin.
        apply first_occurrence in Hin. destruct Hin as (inner & rest & Es & Hn).
        assert (Ni : inner <> []).
        { destruct inner; [ | discriminate]. simpl in Es.
          injection Es as Ed _. exfalso. apply Nd. exact Ed. }
        apply (match_len_None _ _ E (S (List.length inner + 1))).
        -- rewrite Es. simpl. rewrite length_app. simpl. lia.
        -- rewrite Es. cbn [firstn]. rewrite firstn_app_2. simpl.
           apply Lang_TAG. exists inner. auto.
    + apply (IH (List.length s)); [simpl in L; lia | reflexivity].
Qed.

(** *** White space *)

Lemma Lang_WS m : Lang WS_RE m <-> m <> [] /\ forallb is_space m = true.
Proof. apply Lang_Plus_Cls. Qed.

(** A character that is not white space is copied. *)
Lemma collapse_other c s :
  is_space c = false ->
  replace_all WS_RE [SP] (c :: s) = c :: replace_all WS_RE [SP] s.
Proof.
  intros N. rewrite replace_all_cons.
  destruct (match_len WS_RE (c :: s)) as [k | ] eqn:E; [ | reflexivity].
  apply match_len_Some in E. destruct E as (_ & L & _).
  apply Lang_WS in L. destruct L as [Ne F].
  destruct k; simpl in *; [congruence | ].
  rewrite N in F. discriminate.
Qed.

Lemma firstn_succ_skipn (A : Type) k : forall (s : list A) d rest,
  skipn k s = d :: rest -> firstn (S k) s = firstn k s ++ [d].
Proof.
  induction k as [ | k IH]; intros s d rest E.
  - simpl in E. subst s. reflexivity.
  - destruct s as [ | x s]; [discriminate | ]. simpl in E.
    change (firstn (S (S k)) (x :: s)) with (x :: firstn (S k) s).
    rewrite (IH s d rest E). reflexivity.
Qed.

(** A white-space character starts a run that one space replaces; what
    follows the run does not start with white space. *)
Lemma collapse_space c s :
  is_space c = true ->
  exists k,
    k <= List.length s
    /\ replace_all WS_RE [SP] (c :: s)
       = SP :: replace_all WS_RE [SP] (skipn k s)
    /\ forall d rest, skipn k s = d :: rest -> is_space d = false.
Proof.
  intros Hc. rewrite replace_all_cons.
  destruct (match_len WS_RE (c :: s)) as [[ | k] | ] eqn:E.
  - apply match_len_Some in E. destruct E as (_ & L & _).
    apply Lang_WS in L. simpl in L. tauto.
  - apply match_len_Some in E. destruct E as (Hk & L & Max). simpl in Hk.
    exists k. split; [lia | ]. split; [reflexivity | ].
    intros d rest Es. destruct (is_space d) eqn:Hd; [exfalso | reflexivity].
    apply Lang_WS in L. destruct L as [_ F].
    assert (Hl : k < List.length s).
    { destruct (Nat.lt_ge_cases k (List.length s)) as [H | H]; [exact H | ].
      rewrite (skipn_all2 s H) in Es. discriminate. }
    apply (Max (S (S k))); [lia | simpl; lia | ].
    apply Lang_WS. split; [discriminate | ].
    change (firstn (S (S k)) (c :: s)) with (c :: firstn (S k) s).
    change (firstn (S k) (c :: s)) with (c :: firstn k s) in F.
    cbn [forallb] in F |- *.
    apply andb_true_iff in F. destruct F as [_ F]. rewrite Hc.
    rewrite (firstn_succ_skipn _ k s d rest Es), forallb_app, F. simpl.
    rewrite Hd. reflexivity.
  - exfalso. apply (match_len_None _ _ E 1); [simpl; lia | ].
    apply Lang_WS. split; [discriminate | ]. simpl. rewrite Hc. reflexivity.
Qed.

(** The characters of the collapsed string are spaces or come from the
    string. *)
Lemma collapse_In x s : In x (replace_all WS_RE [SP] s) -> x = SP \/ In x s.
Proof.
  remember (List.length s) as n eqn:L. revert s L.
  induction n as [n IH] using lt_wf_ind. intros s L.
  destruct s as [ | c s]; [simpl; tauto | ].
  destruct (is_space c) eqn:Hc.
  - destruct (collapse_space c s Hc) as (k & Hk & -> & _).
    intros [<- | H]; [left; reflexivity | ].
    apply (IH (List.length (skipn k s))) in H;
      [ | pose proof (skipn_length_le _ k s); simpl in L; lia | reflexivity].
    destruct H as [H | H]; [left; exact H | right; right].
    rewrite <- (firstn_skipn k s). apply in_or_app. right. exact H.
  - rewrite (collapse_other c s Hc).
    intros [<- | H]; [right; left; reflexivity | ].
    apply (IH (List.length s)) in H; [ | simpl in L; lia | reflexivity].
    simpl. tauto.
Qed.

(** *** The two invariants through the rest of the chain *)

Lemma closed_app a b :
  angles_closed (a ++ b) -> angles_closed a /\ angles_closed b.
Proof.
  induction a as [ | c a IH]; simpl.
  - tauto.
  - intros [H1 H2]. destruct (IH H2) as [Ha Hb].
    split; [split; [ | exact Ha] | exact Hb].
    intros Ec. destruct (H1 Ec) as [H | H].
    + destruct a as [ | x a]; [right; simpl; tauto | left; exact H].
    + right. intros Hin. apply H. apply in_or_app. left. exact Hin.
Qed.

Lemma single_app a b :
  single_spaced (a ++ b) -> single_spaced a /\ single_spaced b.
Proof.
  induction a as [ | c a IH]; simpl.
  - tauto.
  - intros [H1 H2]. destruct (IH H2) as [Ha Hb].
    split; [split; [ | exact Ha] | exact Hb].
    intros Hc. destruct (H1 Hc) as [E H]. split; [exact E | ].
    destruct a as [ | x a]; [discriminate | exact H].
Qed.

(** Collapsing white space keeps the angle brackets as they are. *)
Lemma collapse_closed s :
  angles_closed s -> angles_closed (replace_all WS_RE [SP] s).
Proof.
  remember (List.length s) as n eqn:L. revert s L.
  induction n as [n IH] using lt_wf_ind. intros s L C.
  destruct s as [ | c s]; [exact I | ].
  destruct (is_space c) eqn:Hc.
  - destruct (collapse_space c s Hc) as (k & Hk & -> & _).
    simpl. split; [discriminate | ].
    apply (IH (List.length (skipn k s)));
      [pose proof (skipn_length_le _ k s); simpl in L; lia | reflexivity | ].
    destruct C as [_ C]. rewrite <- (firstn_skipn k s) in C.
    apply closed_app in C. tauto.
  - rewrite (collapse_other c s Hc). destruct C as [C1 C2].
    split; [ | apply (IH (List.length s)); [simpl in L; lia | reflexivity | exact C2]].
    intros Ec. destruct (C1 Ec) as [H | H].
    + left. destruct s as [ | d s]; [discriminate | ].
      injection H as ->. rewrite collapse_other by reflexivity. reflexivity.
    + right. intros Hin. apply collapse_In in Hin.
      destruct Hin as [Hin | Hin]; [discriminate | tauto].
Qed.

(** After the collapse every white-space character is a space that no
    space follows. *)
Lemma collapse_single s : single_spaced (replace_all WS_RE [SP] s).
Proof.
  remember (List.length s) as n eqn:L. revert s L.
  induction n as [n IH] using lt_wf_ind. intros s L.
  destruct s as [ | c s]; [exact I | ].
  destruct (is_space c) eqn:Hc.
  - destruct (collapse_space c s Hc) as (k & Hk & -> & Hd).
    split.
    + intros _. split; [reflexivity | ].
      destruct (skipn k s) as [ | d rest] eqn:Es; [discriminate | ].
      rewrite (collapse_other d rest (Hd d rest eq_refl)). simpl.
      intros E. injection E as ->. specialize (Hd _ _ eq_refl). discriminate.
    + apply (IH (List.length (skipn k s))); [ | reflexivity].
      pose proof (skipn_length_le _ k s). simpl in L. lia.
  - rewrite (collapse_other c s Hc). split; [congruence | ].
    apply (IH (List.length s)); [simpl in L; lia | reflexivity].
Qed.

Lemma dropWhile_suffix q s : exists a, s = a ++ dropWhile q s.
Proof.
  induction s as [ | c s [a IH]]; simpl.
  - exists []. reflexivity.
  - destruct (q c); [exists (c :: a); simpl; congruence | exists []; reflexivity].
Qed.

(** [trim] and [slice] return a piece of their argument. *)
Lemma trim_piece s : exists a b, s = a ++ trim s ++ b.
Proof.
  unfold trim. destruct (dropWhile_suffix is_space s) as [a Ha].
  destruct (dropWhile_suffix is_space (rev (dropWhile is_space s))) as [b Hb].
  exists a, (rev b). rewrite Ha at 1. f_equal.
  rewrite <- (rev_involutive (dropWhile is_space s)) at 1.
  rewrite Hb at 1. rewrite rev_app_distr. reflexivity.
Qed.

Lemma closed_no_tag s : angles_closed s -> ~ has_tag s.
Proof.
  intros C (a & inner & b & -> & N & F).
  apply closed_app in C. destruct C as [_ [C _]].
  destruct (C eq_refl) as [H | H].
  - destruct inner as [ | d inner]; [congruence | ]. simpl in H.
    injection H as ->. apply F. left. reflexivity.
  - apply H. simpl. apply in_or_app. right. simpl. left. reflexivity.
Qed.

Lemma single_spaces s :
  single_spaced s ->
  (forall c, In c s -> is_space c = true -> c = SP) /\ ~ occurs [SP; SP] s.
Proof.
  intros S. split.
  - induction s as [ | x s IH]; simpl; [tauto | ].
    destruct S as [S1 S2]. intros c [<- | H] Hc; [apply S1; exact Hc | auto].
  - intros (a & b & ->). apply single_app in S. destruct S as [_ [S _]].
    destruct (S eq_refl) as [_ H]. apply H. reflexivity.
Qed.

(** *** Lines *)

Lemma split_nonempty sep s : split sep s <> [].
Proof.
  destruct s as [ | c s]; simpl; [discriminate | ].
  destruct (c =? sep)%N; [discriminate | ].
  destruct (split sep s); discriminate.
Qed.

Lemma split_app sep a b :
  split sep (a ++ sep :: b) = split sep a ++ split sep b.
Proof.
  induction a as [ | c a IH]; simpl.
  - rewrite N.eqb_refl. reflexivity.
  - rewrite IH. destruct (c =? sep)%N; [reflexivity | ].
    pose proof (split_nonempty sep a) as N.
    destruct (split sep a); [congruence | reflexivity].
Qed.

Lemma split_line sep h : ~ In sep h -> split sep h = [h].
Proof.
  induction h as [ | c h IH]; simpl; [reflexivity | ].
  intros H. destruct (N.eqb_spec c sep) as [-> | N]; [tauto | ].
  rewrite IH by tauto. reflexivity.
Qed.

Lemma split_join sep ls :
  ls <> [] -> split sep (join [sep] ls) = List.concat (map (split sep) ls).
Proof.
  induction ls as [ | l ls IH]; [congruence | ]. intros _.
  destruct ls as [ | l' ls].
  - simpl. rewrite app_nil_r. reflexivity.
  - change (join [sep] (l :: l' :: ls)) with (l ++ sep :: join [sep] (l' :: ls)).
    rewrite split_app, IH by discriminate. reflexivity.
Qed.

(** The lines kept of a text put together from pieces. *)
Lemma kept_of_join ls :
  filter keep_line (split NL (join [NL] ls))
  = filter keep_line (List.concat (map (split NL) ls)).
Proof.
  destruct ls as [ | l ls]; [reflexivity | ].
  rewrite split_join by discriminate. reflexivity.
Qed.

Lemma header_dropped h : header_line h -> keep_line h = false.
Proof.
  intros [rest [-> | [-> | [-> | ->]]]]; unfold keep_line;
    rewrite VideoFacts.startsWith_app; simpl;
    rewrite ?andb_false_r; reflexivity.
Qed.

Lemma timestamp_dropped h : timestamp_line h -> keep_line h = false.
Proof.
  intros (d1 & d2 & d3 & d4 & rest & -> & H1 & H2 & H3 & H4).
  unfold keep_line.
  assert (T : test_start TIMESTAMP_RE
                (d1 :: d2 :: ch ":" :: d3 :: d4 :: rest) = true).
  { apply match_here_spec. exists [d1; d2; ch ":"; d3; d4], rest.
    split; [reflexivity | ]. unfold TIMESTAMP_RE.
    apply (LCat _ _ [d1] _ (LCls _ _ H1)).
    apply (LCat _ _ [d2] _ (LCls _ _ H2)).
    apply (LCat _ _ [ch ":"] [d3; d4]); [apply Lang_Chr; reflexivity | ].
    apply (LCat _ _ [d3] [d4] (LCls _ _ H3) (LCls _ _ H4)). }
  rewrite T. simpl. rewrite ?andb_false_r. reflexivity.
Qed.

(** A header, metadata or timestamp line leaves no trace in the lines
    kept, wherever it stands. *)
Lemma line_removed before h after :
  ~ In NL h -> header_line h \/ timestamp_line h ->
  filter keep_line (split NL (join [NL] (before ++ h :: after)))
  = filter keep_line (split NL (join [NL] (before ++ after))).
Proof.
  intros N H. rewrite !kept_of_join, !map_app, !List.concat_app, !filter_app.
  f_equal. simpl. rewrite (split_line NL h N). simpl.
  assert (K : keep_line h = false)
    by (destruct H; [apply header_dropped | apply timestamp_dropped]; assumption).
  rewrite K. reflexivity.
Qed.

Lemma startsWith_prefix s : forall p,
  startsWith s p = true <-> exists rest, s = p ++ rest.
Proof.
  induction s as [ | y s IH]; intros [ | x p]; simpl.
  - split; [exists []; reflexivity | reflexivity].
  - split; [discriminate | intros (rest & E); discriminate].
  - split; [exists (y :: s); reflexivity | reflexivity].
  - rewrite andb_true_iff, N.eqb_eq, IH. split.
    + intros (-> & rest & ->). exists rest. reflexivity.
    + intros (rest & E). injection E as -> ->. eauto.
Qed.

Lemma header_line_starts l :
  header_line l <->
  startsWith l (lit "WEBVTT") = true \/ startsWith l (lit "NOTE") = true
  \/ startsWith l (lit "Kind:") = true \/ startsWith l (lit "Language:") = true.
Proof.
  rewrite !startsWith_prefix. unfold header_line. split.
  - intros (rest & [E | [E | [E | E]]]); eauto 6.
  - intros [(r & E) | [(r & E) | [(r & E) | (r & E)]]]; exists r; auto.
Qed.

Lemma timestamp_line_test l :
  timestamp_line l <-> test_start TIMESTAMP_RE l = true.
Proof.
  unfold test_start. rewrite match_here_spec. unfold timestamp_line. split.
  - intros (d1 & d2 & d3 & d4 & rest & -> & H1 & H2 & H3 & H4).
    exists [d1; d2; ch ":"; d3; d4], rest. split; [reflexivity | ].
    unfold TIMESTAMP_RE.
    apply (LCat _ _ [d1] _ (LCls _ _ H1)).
    apply (LCat _ _ [d2] _ (LCls _ _ H2)).
    apply (LCat _ _ [ch ":"] [d3; d4]); [apply Lang_Chr; reflexivity | ].
    apply (LCat _ _ [d3] [d4] (LCls _ _ H3) (LCls _ _ H4)).
  - intros (m & rest & -> & L). unfold TIMESTAMP_RE in L.
    apply Lang_Cat in L. destruct L as (a1 & r1 & -> & L1 & L).
    apply Lang_Cat in L. destruct L as (a2 & r2 & -> & L2 & L).
    apply Lang_Cat in L. destruct L as (a3 & r3 & -> & L3 & L).
    apply Lang_Cat in L. destruct L as (a4 & a5 & -> & L4 & L5).
    apply Lang_Cls in L1, L2, L4, L5. apply Lang_Chr in L3.
    destruct L1 as (d1 & -> & H1). destruct L2 as (d2 & -> & H2).
    destruct L4 as (d3 & -> & H3). destruct L5 as (d4 & -> & H4). subst a3.
    exists d1, d2, d3, d4, rest. auto.
Qed.

(** A line is kept exactly when it is not empty and begins with none of
    the markers and with no timestamp. *)
Lemma keep_line_iff l :
  keep_line l = true <-> l <> [] /\ ~ header_line l /\ ~ timestamp_line l.
Proof.
  rewrite header_line_starts, timestamp_line_test. unfold keep_line.
  rewrite !andb_true_iff, !negb_true_iff.
  assert (E : str_eqb l [] = false <-> l <> []).
  { destruct l; simpl; split; congruence. }
  rewrite E.
  destruct (startsWith l (lit "WEBVTT")), (startsWith l (lit "NOTE")),
    (startsWith l (lit "Kind:")), (startsWith l (lit "Language:")),
    (test_start TIMESTAMP_RE l); intuition congruence.
Qed.

Lemma timed_line l : Spec.timed l = true <-> timestamp_line l.
Proof.
  unfold timestamp_line. split.
  - destruct l as [ | d1 [ | d2 [ | c [ | d3 [ | d4 rest]]]]];
      try discriminate.
    cbn [Spec.timed]. rewrite !andb_true_iff, N.eqb_eq.
    intros ((((H1 & H2) & ->) & H3) & H4).
    exists d1, d2, d3, d4, rest. auto.
  - intros (d1 & d2 & d3 & d4 & rest & -> & H1 & H2 & H3 & H4).
    cbn [Spec.timed]. rewrite H1, H2, H3, H4, N.eqb_refl. reflexivity.
Qed.

(** The filter of [parseVTT] keeps the lines the specification keeps. *)
Lemma keep_line_stays l : keep_line l = Spec.stays l.
Proof.
  destruct l as [ | c l]; [reflexivity | ].
  assert (T : test_start TIMESTAMP_RE (c :: l) = Spec.timed (c :: l)).
  { apply eq_true_iff_eq. rewrite timed_line. symmetry.
    apply timestamp_line_test. }
  unfold keep_line, Spec.stays, Spec.marked. rewrite T.
  change (str_eqb (c :: l) []) with false.
  destruct (startsWith (c :: l) (lit "WEBVTT")),
    (startsWith (c :: l) (lit "NOTE")), (startsWith (c :: l) (lit "Kind:")),
    (startsWith (c :: l) (lit "Language:")), (Spec.timed (c :: l));
    reflexivity.
Qed.

(** *** The two replacements, without patterns *)

Lemma untag_inside a : forall rest,
  ~ In (ch ">") a ->
  Spec.untag true (a ++ ch ">" :: rest) = Spec.untag false rest.
Proof.
  induction a as [ | c a IH]; intros rest H; cbn [app Spec.untag].
  - rewrite N.eqb_refl. reflexivity.
  - destruct (N.eqb_spec c (ch ">")) as [E | E].
    + exfalso. apply H. left. exact E.
    + apply IH. intros Hin. apply H. right. exact Hin.
Qed.

Lemma opens_tag s :
  Spec.opens s = true <->
  exists inner rest,
    s = inner ++ ch ">" :: rest /\ inner <> [] /\ ~ In (ch ">") inner.
Proof.
  unfold Spec.opens. split.
  - destruct s as [ | d t]; [discriminate | ].
    rewrite andb_true_iff, negb_true_iff, N.eqb_neq, existsb_exists.
    intros (Nd & x & Hx & Ex). apply N.eqb_eq in Ex. subst x.
    destruct (first_occurrence _ _ Hx) as (a & b & -> & Ha).
    exists (d :: a), b. split; [reflexivity | ]. split; [discriminate | ].
    intros [E | E]; [apply Nd; exact E | apply Ha; exact E].
  - intros (inner & rest & -> & Ni & Fi).
    destruct inner as [ | d a]; [congruence | ]. cbn [app].
    rewrite andb_true_iff, negb_true_iff, N.eqb_neq, existsb_exists. split.
    + intros E. apply Fi. left. exact E.
    + exists (ch ">"). split; [ | apply N.eqb_refl].
      apply in_or_app. right. left. reflexivity.
Qed.

Lemma skipn_app_exact (A : Type) (a b : list A) :
  skipn (List.length a) (a ++ b) = b.
Proof. induction a as [ | x a IH]; [reflexivity | exact IH]. Qed.

(** Deleting the matches of the tag pattern is reading the text with the
    tags left out. *)
Lemma strip_untag s : replace_all TAG_RE [] s = Spec.untag false s.
Proof.
  remember (List.length s) as n eqn:L. revert s L.
  induction n as [n IH] using lt_wf_ind. intros s L.
  destruct s as [ | c s]; [reflexivity | ].
  destruct (N.eqb_spec c (ch "<")) as [-> | Nc].
  - destruct (Spec.opens s) eqn:O.
    + cbn [Spec.untag]. rewrite N.eqb_refl, O. cbn [andb].
      apply opens_tag in O. destruct O as (inner & rest & -> & Ni & Fi).
      rewrite (untag_inside inner rest Fi).
      assert (T : Lang TAG_RE
                    (firstn (S (List.length inner + 1))
                       (ch "<" :: inner ++ ch ">" :: rest))).
      { cbn [firstn].
        replace (inner ++ ch ">" :: rest) with ((inner ++ [ch ">"]) ++ rest)
          by (rewrite <- app_assoc; reflexivity).
        replace (List.length inner + 1) with (List.length (inner ++ [ch ">"]))
          by (rewrite length_app; reflexivity).
        rewrite firstn_app, Nat.sub_diag, firstn_all. cbn [firstn].
        rewrite app_nil_r. apply Lang_TAG. exists inner. auto. }
      assert (Len : S (List.length inner + 1)
                    <= List.length (ch "<" :: inner ++ ch ">" :: rest)).
      { simpl. rewrite length_app. simpl. lia. }
      rewrite replace_all_cons.
      destruct (match_len TAG_RE (ch "<" :: inner ++ ch ">" :: rest))
        as [[ | k] | ] eqn:E.
      * apply match_len_Some in E. destruct E as (_ & L0 & _).
        apply Lang_TAG in L0. destruct L0 as (i0 & X & _). discriminate.
      * apply match_len_Some in E. destruct E as (Hk & Lk & _).
        pose proof (TAG_match_unique _ _ _ Hk Len Lk T) as K.
        injection K as ->. cbn [app].
        replace (inner ++ ch ">" :: rest) with ((inner ++ [ch ">"]) ++ rest)
          by (rewrite <- app_assoc; reflexivity).
        replace (List.length inner + 1) with (List.length (inner ++ [ch ">"]))
          by (rewrite length_app; reflexivity).
        rewrite skipn_app_exact.
        apply (IH (List.length rest)); [ | reflexivity].
        rewrite L. simpl. rewrite length_app. simpl. lia.
      * exfalso. apply (match_len_None _ _ E _ Len T).
    + cbn [Spec.untag]. rewrite N.eqb_refl, O. cbn [andb].
      rewrite replace_all_cons.
      destruct (match_len TAG_RE (ch "<" :: s)) as [[ | k] | ] eqn:E.
      * apply match_len_Some in E. destruct E as (_ & L0 & _).
        apply Lang_TAG in L0. destruct L0 as (i0 & X & _). discriminate.
      * exfalso. apply match_len_Some in E. destruct E as (Hk & Lk & _).
        apply Lang_TAG in Lk. destruct Lk as (inner & X & Ni & Fi).
        cbn [firstn] in X. injection X as X.
        assert (O' : Spec.opens s = true).
        { apply opens_tag. exists inner, (skipn k s).
          split; [ | auto]. rewrite <- (firstn_skipn k s) at 1.
          rewrite X, <- app_assoc. reflexivity. }
        congruence.
      * f_equal. apply (IH (List.length s)); [simpl in L; lia | reflexivity].
  - rewrite (strip_other c s Nc). cbn [Spec.untag].
    apply N.eqb_neq in Nc. rewrite Nc. cbn [andb]. f_equal.
    apply (IH (List.length s)); [simpl in L; lia | reflexivity].
Qed.

(** A white-space character starts a run of white space that one space
    replaces; what follows the run does not start with white space. *)
Lemma collapse_run c s :
  is_space c = true ->
  exists k,
    k <= List.length s
    /\ forallb is_space (firstn k s) = true
    /\ replace_all WS_RE [SP] (c :: s)
       = SP :: replace_all WS_RE [SP] (skipn k s)
    /\ forall d rest, skipn k s = d :: rest -> is_space d = false.
Proof.
  intros Hc. destruct (collapse_space c s Hc) as (k0 & Hk0 & R0 & D0).
  rewrite replace_all_cons in R0 |- *.
  destruct (match_len WS_RE (c :: s)) as [[ | k] | ] eqn:E.
  - apply match_len_Some in E. destruct E as (_ & L & _).
    apply Lang_WS in L. simpl in L. tauto.
  - pose proof E as E'. apply match_len_Some in E'.
    destruct E' as (Hk & L & Max). simpl in Hk.
    apply Lang_WS in L. destruct L as [_ F].
    change (firstn (S k) (c :: s)) with (c :: firstn k s) in F.
    cbn [forallb] in F. apply andb_true_iff in F. destruct F as [_ F].
    exists k. split; [lia | ]. split; [exact F | ]. split; [reflexivity | ].
    intros d rest Es. destruct (is_space d) eqn:Hd; [exfalso | reflexivity].
    assert (Hl : k < List.length s).
    { destruct (Nat.lt_ge_cases k (List.length s)) as [H | H]; [exact H | ].
      rewrite (skipn_all2 s H) in Es. discriminate. }
    apply (Max (S (S k))); [lia | simpl; lia | ].
    apply Lang_WS. split; [discriminate | ].
    change (firstn (S (S k)) (c :: s)) with (c :: firstn (S k) s).
    cbn [forallb]. rewrite Hc.
    rewrite (firstn_succ_skipn _ k s d rest Es), forallb_app, F. simpl.
    rewrite Hd. reflexivity.
  - exfalso. apply (match_len_None _ _ E 1); [simpl; lia | ].
    apply Lang_WS. split; [discriminate | ]. simpl. rewrite Hc. reflexivity.
Qed.

Lemma squeeze_run run : forall rest,
  forallb is_space run = true ->
  Spec.squeeze true (run ++ rest) = Spec.squeeze true rest.
Proof.
  induction run as [ | c run IH]; intros rest H; [reflexivity | ].
  cbn [forallb] in H. apply andb_true_iff in H. destruct H as [Hc H].
  cbn [app Spec.squeeze]. rewrite Hc. apply IH. exact H.
Qed.

Lemma squeeze_fresh rest :
  (forall d r, rest = d :: r -> is_space d = false) ->
  Spec.squeeze true rest = Spec.squeeze false rest.
Proof.
  intros H. destruct rest as [ | d r]; [reflexivity | ].
  cbn [Spec.squeeze]. rewrite (H d r eq_refl). reflexivity.
Qed.

(** Replacing the matches of the white-space pattern by a space is reading
    the text with every run of white space taken for one space. *)
Lemma collapse_squeeze s : replace_all WS_RE [SP] s = Spec.squeeze false s.
Proof.
  remember (List.length s) as n eqn:L. revert s L.
  induction n as [n IH] using lt_wf_ind. intros s L.
  destruct s as [ | c s]; [reflexivity | ].
  destruct (is_space c) eqn:Hc.
  - destruct (collapse_run c s Hc) as (k & Hk & F & -> & Hd).
    cbn [Spec.squeeze]. rewrite Hc. f_equal.
    rewrite <- (firstn_skipn k s) at 2.
    rewrite (squeeze_run _ _ F), (squeeze_fresh _ Hd).
    apply (IH (List.length (skipn k s))); [ | reflexivity].
    pose proof (skipn_length_le _ k s). simpl in L. lia.
  - rewrite (collapse_other c s Hc). cbn [Spec.squeeze]. rewrite Hc. f_equal.
    apply (IH (List.length s)); [simpl in L; lia | reflexivity].
Qed.

(** *** The transcript *)

(** The transcript is a piece of the text in which the tags were deleted
    and the white space collapsed. *)
Lemma parseVTT_piece vtt :
  exists a b,
    replace_all WS_RE [SP]
      (replace_all TAG_RE []
         (join (lit " ") (filter keep_line (split NL vtt))))
    = a ++ parseVTT vtt ++ b.
Proof.
  unfold parseVTT, slice0. change (lit " ") with [SP].
  set (z := replace_all WS_RE [SP] _).
  destruct (trim_piece z) as (a & b & E).
  exists a, (skipn 3000 (trim z) ++ b).
  rewrite (app_assoc (firstn 3000 (trim z))), firstn_skipn. exact E.
Qed.

Lemma parseVTT_closed vtt : angles_closed (parseVTT vtt).
Proof.
  destruct (parseVTT_piece vtt) as (a & b & E).
  pose proof (collapse_closed _ (strip_closed
    (join (lit " ") (filter keep_line (split NL vtt))))) as C.
  rewrite E in C. apply closed_app in C. destruct C as [_ C].
  apply closed_app in C. tauto.
Qed.

Lemma parseVTT_single vtt : single_spaced (parseVTT vtt).
Proof.
  destruct (parseVTT_piece vtt) as (a & b & E).
  pose proof (collapse_single (replace_all TAG_RE []
    (join (lit " ") (filter keep_line (split NL vtt))))) as C.
  rewrite E in C. apply single_app in C. destruct C as [_ C].
  apply single_app in C. tauto.
Qed.

(** The chain on inputs traced by hand through the source: a [<] inside a
    tag belongs to the tag; [<>] is no tag and [<c] is not closed; a tag may
    hold white space; a byte-order mark hides the header marker. *)
Example parseVTT_nested : parseVTT (lit "a<<b>c>d") = lit "ac>d".
Proof. reflexivity. Qed.

Example parseVTT_not_tags : parseVTT (lit "a<>b<c") = lit "a<>b<c".
Proof. reflexivity. Qed.

Example parseVTT_spaces : parseVTT (lit "  x <i> </i> y  ") = lit "x y".
Proof. reflexivity. Qed.

Example parseVTT_bom : parseVTT (65279%N :: lit "WEBVTT") = lit "WEBVTT".
Proof. reflexivity. Qed.

(** The transcript is what the specification describes. *)
Lemma parseVTT_transcript vtt : parseVTT vtt = Spec.transcript vtt.
Proof.
  unfold parseVTT, Spec.transcript, slice0. change (lit " ") with [SP].
  rewrite strip_untag, collapse_squeeze.
  rewrite (filter_ext keep_line Spec.stays keep_line_stays). reflexivity.
Qed.

(** C5. For every input the transcript is the text the specification
    describes: the lines that are empty or begin with [WEBVTT], [NOTE],
    [Kind:] or [Language:], or with two digits, a colon and two digits, are
    dropped and the others kept; in the kept lines, put together with
    spaces, every inline tag is left out and the text around the tags stays
    as it is; every run of white space becomes one space; the ends are
    trimmed and the result is cut at 3000 characters. A dropped line leaves
    no trace in the transcript, wherever it stands among the lines of the
    text. The transcript holds no inline tag (the tag pattern finds nothing
    in it), its only white-space characters are single spaces, never two in
    a row, and it is at most 3000 characters long. *)
Theorem C5_parseVTT_lines_tags_spaces_length (vtt : jsstring) :
  parseVTT vtt
  = firstn 3000
      (trim (Spec.squeeze false (Spec.untag false
         (join [SP] (filter Spec.stays (split NL vtt))))))
  /\ (forall l, keep_line l = true
                <-> l <> [] /\ ~ header_line l /\ ~ timestamp_line l)
  /\ (forall s, replace_all TAG_RE [] s = Spec.untag false s)
  /\ (forall s, replace_all WS_RE [SP] s = Spec.squeeze false s)
  /\ (forall before h after,
        ~ In NL h -> header_line h \/ timestamp_line h ->
        parseVTT (join [NL] (before ++ h :: after))
        = parseVTT (join [NL] (before ++ after)))
  /\ ~ has_tag (parseVTT vtt)
  /\ test TAG_RE (parseVTT vtt) = false
  /\ (forall c, In c (parseVTT vtt) -> is_space c = true -> c = SP)
  /\ ~ occurs [SP; SP] (parseVTT vtt)
  /\ List.length (parseVTT vtt) <= 3000.
Proof.
  pose proof (closed_no_tag _ (parseVTT_closed vtt)) as T.
  destruct (single_spaces _ (parseVTT_single vtt)) as [S1 S2].
  split; [exact (parseVTT_transcript vtt) | ].
  split; [exact keep_line_iff | ]. split; [exact strip_untag | ].
  split; [exact collapse_squeeze | ].
  split; [ | split; [exact T | split; [ | split; [exact S1 | split; [exact S2 | ]]]]].
  - intros before h after N H. unfold parseVTT.
    rewrite (line_removed before h after N H). reflexivity.
  - destruct (test TAG_RE (parseVTT vtt)) eqn:E; [ | reflexivity].
    exfalso. apply T. apply has_tag_test. exact E.
  - unfold parseVTT, slice0. apply firstn_le_length.
Qed.

(** C5 at a header line and a cue timing around one line of text. *)
Lemma C5_parseVTT_witness :
  parseVTT (join [NL] [lit "WEBVTT"; lit "<c>Hello</c>   world";
                       lit "00:00:01.000 --> 00:00:02.000"])
  = lit "Hello world".
Proof.
  destruct (C5_parseVTT_lines_tags_spaces_length
              (join [NL] [lit "<c>Hello</c>   world"]))
    as (E & _ & _ & _ & H & _).
  assert (N1 : ~ In NL (lit "WEBVTT")) by (vm_compute; intuition discriminate).
  assert (N2 : ~ In NL (lit "00:00:01.000 --> 00:00:02.000"))
    by (vm_compute; intuition discriminate).
  assert (H1 : header_line (lit "WEBVTT") \/ timestamp_line (lit "WEBVTT"))
    by (left; exists []; left; reflexivity).
  assert (H2 : header_line (lit "00:00:01.000 --> 00:00:02.000")
               \/ timestamp_line (lit "00:00:01.000 --> 00:00:02.000")).
  { right. exists (ch "0"), (ch "0"), (ch "0"), (ch "0"),
      (lit ":01.000 --> 00:00:02.000"). repeat split. }
  transitivity (parseVTT (join [NL] [lit "<c>Hello</c>   world";
                                     lit "00:00:01.000 --> 00:00:02.000"])).
  - exact (H [] (lit "WEBVTT")
             [lit "<c>Hello</c>   world"; lit "00:00:01.000 --> 00:00:02.000"]
             N1 H1).
  - transitivity (parseVTT (join [NL] [lit "<c>Hello</c>   world"])).
    + exact (H [lit "<c>Hello</c>   world"]
               (lit "00:00:01.000 --> 00:00:02.000") [] N2 H2).
    + rewrite E. reflexivity.
Defined.

End ParseFacts.

(* ================================================================= *)
(** ** Further properties: start-up and e-mail capture *)

Module StartupFacts.
Import Startup.

(** X1. [loadContext] always returns a prompt that begins with the persona
    text; the prompt is the persona text alone exactly when [context.md]
    could not be read (an empty file still adds the knowledge-base header);
    and the knowledge base, when read, is the prompt's end, after persona
    and header, unchanged. *)
Theorem X1_loadContext_persona_then_knowledge (context_md : option jsstring) :
  firstn (List.length BASE_PROMPT) (loadContext context_md) = BASE_PROMPT
  /\ (loadContext context_md = BASE_PROMPT <-> context_md = None)
  /\ (forall context, context_md = Some context ->
      skipn (List.length BASE_PROMPT + List.length KNOWLEDGE_HEADER)
        (loadContext context_md) = context).
Proof.
  destruct context_md as [context | ]; cbn [loadContext].
  - split; [ | split].
    + rewrite firstn_app, Nat.sub_diag, firstn_all. cbn [firstn].
      apply app_nil_r.
    + split; [ | discriminate]. intros E. exfalso.
      rewrite <- (app_nil_r BASE_PROMPT) in E at 2.
      apply app_inv_head in E. discriminate.
    + intros c E. injection E as <-.
      rewrite app_assoc, <- length_app, skipn_app, Nat.sub_diag, skipn_all.
      reflexivity.
  - split; [apply firstn_all | ]. split; [tauto | discriminate].
Qed.

End StartupFacts.

Module EmailMore.
Import Email Shapes RegexFacts EmailFacts.

Lemma part_plain s : part s <-> s <> [] /\ forallb plain s = true.
Proof.
  unfold part. rewrite forallb_forall. unfold plain.
  split; intros [N H]; (split; [exact N | ]); intros c Hc.
  - destruct (H c Hc) as [S A]. rewrite S. simpl.
    apply negb_true_iff, N.eqb_neq. exact A.
  - specialize (H c Hc). apply negb_true_iff, orb_false_iff in H.
    destruct H as [S A]. split; [exact S | apply N.eqb_neq; exact A].
Qed.

(** The pattern accepts the addresses of the shape [local@domain.tld]. *)
Lemma valid_address e : valid (Some e) = true <-> address e.
Proof.
  unfold address. split.
  - intros V. apply valid_Lang, EMAIL_RE_shape in V.
    destruct V as (l & d & t & E & Nl & Nd & Nt & Hl & Hd & Ht).
    exists l, d, t. rewrite !part_plain. tauto.
  - intros (l & d & t & E & Pl & Pd & Pt).
    apply part_plain in Pl, Pd, Pt.
    assert (L : Lang EMAIL_RE e).
    { apply EMAIL_RE_shape. exists l, d, t. tauto. }
    unfold valid, test_full. destruct e as [ | c e].
    + destruct l; [tauto | discriminate].
    + apply matches_Lang. exact L.
Qed.

(** X2. For a request whose [email] field is a string or is absent, the
    capture endpoint answers 200 exactly when the field is a string of the
    shape [local@domain.tld], its three parts non-empty and free of white
    space and of [@]; every other such request, the absent and the empty
    field included, is answered 400 with ['Invalid email address'] and
    leaves the world as it was. A field of another type is not covered: the
    handler does not look at its type, and the pattern is tested against
    the string it is converted to. *)
Theorem X2_email_accepted_iff_address
  (env : Env) (email : option jsstring) (w : World) :
  (status (fst (save_email env email w)) = 200
   <-> exists e, email = Some e /\ address e)
  /\ (status (fst (save_email env email w)) = 200
      \/ save_email env email w
         = ({| status := 400; body := ErrorJson (lit "Invalid email address") |},
            w)).
Proof.
  destruct email as [e | ].
  - destruct (valid (Some e)) eqn:V.
    + assert (S : status (fst (save_email env (Some e) w)) = 200).
      { unfold save_email. rewrite V.
        destruct (appendFileSync env (entry_of env e) w) as [[err | ] w1];
          reflexivity. }
      split; [ | left; exact S]. split; [ | intros _; exact S].
      intros _. exists e. split; [reflexivity | apply valid_address; exact V].
    + assert (S : save_email env (Some e) w
                  = ({| status := 400;
                        body := ErrorJson (lit "Invalid email address") |}, w)).
      { unfold save_email. rewrite V. reflexivity. }
      split; [ | right; exact S]. rewrite S. simpl. split; [discriminate | ].
      intros (e' & E & A). injection E as <-.
      apply valid_address in A. congruence.
  - split; [ | right; reflexivity]. simpl. split; [discriminate | ].
    intros (e' & E & _). discriminate.
Qed.

End EmailMore.

(* ================================================================= *)
(** ** Further properties: the chat relay *)

Module ChatMore.
Import Chat ChatView Shapes ChatFacts.

(** *** JSON escaping *)

(** Text without control characters, quotes, backslashes and surrogates is
    escaped to itself. *)
Lemma json_escape_literal s : forallb literal s = true -> json_escape s = s.
Proof.
  induction s as [ | x s IH]; [reflexivity | ].
  cbn [forallb]. intros H. apply andb_true_iff in H. destruct H as [Hx Hs].
  unfold literal in Hx. repeat rewrite andb_true_iff in Hx.
  destruct Hx as ((((G & Q) & B) & Le) & Tr).
  apply N.leb_le in G. apply negb_true_iff in Q, B, Le, Tr.
  cbn [json_escape].
  replace (x =? 8)%N with false by (symmetry; apply N.eqb_neq; lia).
  replace (x =? 9)%N with false by (symmetry; apply N.eqb_neq; lia).
  replace (x =? 10)%N with false by (symmetry; apply N.eqb_neq; lia).
  replace (x =? 12)%N with false by (symmetry; apply N.eqb_neq; lia).
  replace (x =? 13)%N with false by (symmetry; apply N.eqb_neq; lia).
  replace (x <? 32)%N with false by (symmetry; apply N.ltb_ge; lia).
  rewrite Q, B, Le, Tr, (IH Hs). reflexivity.
Qed.

(** *** The chunks of a run *)

Lemma fragments_app a b : fragments (a ++ b) = fragments a ++ fragments b.
Proof.
  induction a as [ | [[t | ] | ] a IH]; simpl; rewrite ?IH; reflexivity.
Qed.

Lemma emitted_connected ts :
  exists rest, emitted ts = emitted_while_connected ts ++ rest.
Proof.
  induction ts as [ | [e | ] ts [rest IH]]; simpl.
  - exists []. reflexivity.
  - exists rest. rewrite IH. reflexivity.
  - exists (emitted ts). reflexivity.
Qed.

Lemma emitted_map_Emit evs :
  emitted (map Emit evs) = evs /\ stays (map Emit evs) = true.
Proof.
  induction evs as [ | e evs [IH1 IH2]]; simpl; [auto | ].
  rewrite IH1. auto.
Qed.

(** What a run writes, by whether the caller stays. *)
Lemma chat_written up m ms :
  written (chat up (Some (m :: ms)))
  = if stays (ticks up)
    then map text_event (fragments (emitted (ticks up)))
           ++ match finish up with
              | Completes => []
              | Fails _ => [error_event]
              end ++ [done_event]
    else map text_event (fragments (emitted_while_connected (ticks up))).
Proof.
  destruct (stays (ticks up)) eqn:S.
  - apply (chat_stays up m ms S).
  - apply (chat_gone up m ms S).
Qed.

Lemma text_not_done t : text_event t <> done_event.
Proof. intros H. vm_compute in H. discriminate H. Qed.

Lemma text_not_error t : text_event t <> error_event.
Proof. intros H. vm_compute in H. discriminate H. Qed.

Lemma not_in_texts chunk l :
  (forall t, text_event t <> chunk) -> ~ In chunk (map text_event l).
Proof.
  intros N H. apply in_map_iff in H. destruct H as (t & E & _).
  apply (N t E).
Qed.

(** X3. Whatever the model emits and whenever the caller leaves, every
    chunk the chat endpoint writes is one server-sent event: the text
    [data: ], a payload, and a blank line, the payload holding no code unit
    below 32, so no line break of its own. A fragment that holds line
    breaks cannot split or end an event. *)
Theorem X3_every_chunk_is_one_event
  (up : Upstream) (messages : option (list message)) (chunk : jsstring) :
  In chunk (written (chat up messages)) ->
  exists payload,
    chunk = lit "data: " ++ payload ++ [NL; NL]
    /\ forall c, In c payload -> (32 <= c)%N.
Proof.
  destruct messages as [[ | m ms] | ]; [simpl; tauto | | simpl; tauto].
  rewrite chat_written.
  assert (D : exists payload, done_event = lit "data: " ++ payload ++ [NL; NL]
                /\ forall c, In c payload -> (32 <= c)%N).
  { exists (lit "[DONE]"). split; [reflexivity | ].
    apply Forall_forall. vm_compute. repeat constructor; discriminate. }
  assert (E : exists payload, error_event = lit "data: " ++ payload ++ [NL; NL]
                /\ forall c, In c payload -> (32 <= c)%N).
  { exists (stringify1 (lit "error")
              (lit "Something went wrong. Please try again.")).
    split; [reflexivity | ].
    apply Forall_forall. vm_compute. repeat constructor; discriminate. }
  assert (T : forall l, In chunk (map text_event l) ->
                exists payload, chunk = lit "data: " ++ payload ++ [NL; NL]
                  /\ forall c, In c payload -> (32 <= c)%N).
  { intros l H. apply in_map_iff in H. destruct H as (t & <- & _).
    exists (stringify1 (lit "text") t). split; [reflexivity | ].
    apply Forall_forall. unfold stringify1.
    assert (J : Forall (fun c => (32 <= c)%N) (json_escape t))
      by (apply Forall_forall, json_escape_ge).
    repeat (apply Forall_app; split); try exact J;
      vm_compute; repeat constructor; discriminate. }
  destruct (stays (ticks up)); [ | apply T].
  intros H. apply in_app_or in H. destruct H as [H | H]; [apply (T _ H) | ].
  apply in_app_or in H. destruct H as [H | [<- | []]]; [ | exact D].
  destruct (finish up); [destruct H | destruct H as [<- | []]; exact E].
Qed.

(** X3 at a fragment of two lines. *)
Lemma X3_every_chunk_witness :
  exists payload,
    text_event (lit "a" ++ [NL] ++ lit "b")
    = lit "data: " ++ payload ++ [NL; NL]
    /\ forall c, In c payload -> (32 <= c)%N.
Proof.
  apply (X3_every_chunk_is_one_event
           {| ticks := [Emit (ContentBlockDelta
                                (TextDelta (lit "a" ++ [NL] ++ lit "b")))];
              finish := Completes |}
           (Some [(lit "user", lit "hi")])).
  left. reflexivity.
Defined.

(** X4. No fragment of the model can pass for the end of the stream or for
    the error event. In a run whose caller stays, the sentinel is the last
    chunk and occurs nowhere before it, and the error event occurs exactly
    when the stream failed; in a run whose caller leaves, neither is ever
    written. *)
Theorem X4_sentinel_and_error_cannot_be_forged
  (up : Upstream) (m : message) (ms : list message) :
  (forall t, text_event t <> done_event /\ text_event t <> error_event)
  /\ (stays (ticks up) = true ->
      exists before,
        written (chat up (Some (m :: ms))) = before ++ [done_event]
        /\ ~ In done_event before
        /\ (In error_event before <-> exists e, finish up = Fails e))
  /\ (stays (ticks up) = false ->
      ~ In done_event (written (chat up (Some (m :: ms))))
      /\ ~ In error_event (written (chat up (Some (m :: ms))))).
Proof.
  split; [intros t; split; [apply text_not_done | apply text_not_error] | ].
  rewrite chat_written. split; intros S; rewrite S.
  - exists (map text_event (fragments (emitted (ticks up)))
            ++ match finish up with
               | Completes => []
               | Fails _ => [error_event]
               end).
    split; [rewrite <- app_assoc; reflexivity | ]. split.
    + intros H. apply in_app_or in H. destruct H as [H | H].
      * revert H. apply not_in_texts, text_not_done.
      * destruct (finish up); [destruct H | ].
        destruct H as [H | []]. vm_compute in H. discriminate H.
    + split.
      * intros H. apply in_app_or in H. destruct H as [H | H].
        -- exfalso. revert H. apply not_in_texts, text_not_error.
        -- destruct (finish up) as [ | e]; [destruct H | eauto].
      * intros [e ->]. apply in_or_app. right. left. reflexivity.
  - split; apply not_in_texts; [apply text_not_done | apply text_not_error].
Qed.

(** X4 at a run that fails after one fragment. *)
Lemma X4_sentinel_witness :
  exists before,
    written (chat {| ticks := [Emit (ContentBlockDelta (TextDelta (lit "Hi")))];
                     finish := Fails (lit "overloaded") |}
               (Some [(lit "user", lit "hi")]))
    = before ++ [done_event]
    /\ ~ In done_event before
    /\ (In error_event before <-> exists e, Fails (lit "overloaded") = Fails e).
Proof.
  apply (proj1 (proj2 (X4_sentinel_and_error_cannot_be_forged
    {| ticks := [Emit (ContentBlockDelta (TextDelta (lit "Hi")))];
       finish := Fails (lit "overloaded") |} (lit "user", lit "hi") []))).
  reflexivity.
Defined.

(** X5. A caller who leaves gets a beginning of what a caller who stays
    would have got from the same stream: leaving cuts the chunks short, it
    never changes or reorders them. *)
Theorem X5_disconnect_only_truncates
  (up : Upstream) (m : message) (ms : list message) :
  exists rest,
    written (chat (uninterrupted up) (Some (m :: ms)))
    = written (chat up (Some (m :: ms))) ++ rest.
Proof.
  rewrite !chat_written. unfold uninterrupted. cbn [ticks finish].
  destruct (emitted_map_Emit (emitted (ticks up))) as [E S]. rewrite E, S.
  destruct (stays (ticks up)).
  - exists []. rewrite app_nil_r. reflexivity.
  - destruct (emitted_connected (ticks up)) as [rest R].
    rewrite R, fragments_app, map_app, <- app_assoc. eauto.
Qed.

(** X16. A fragment without control characters, quotes, backslashes and
    surrogates reaches the caller letter for letter: its event is
    [data: {"text":"], the fragment itself, then ["}] and a blank line. *)
Theorem X16_plain_fragment_is_sent_verbatim (text : jsstring) :
  forallb literal text = true ->
  text_event text
  = lit "data: {" ++ [DQ] ++ lit "text" ++ [DQ] ++ lit ":" ++ [DQ]
      ++ text ++ [DQ] ++ lit "}" ++ [NL; NL].
Proof.
  intros H. unfold text_event, sse, stringify1.
  rewrite (json_escape_literal text H), <- !app_assoc. reflexivity.
Qed.

(** X16 at the first fragment of the spec's example. *)
Lemma X16_plain_fragment_witness :
  text_event (lit "Hello")
  = lit "data: {" ++ [DQ] ++ lit "text" ++ [DQ] ++ lit ":" ++ [DQ]
      ++ lit "Hello" ++ [DQ] ++ lit "}" ++ [NL; NL].
Proof. apply X16_plain_fragment_is_sent_verbatim. reflexivity. Defined.

(** *** Validation *)

Lemma relay_headers ts : forall r, headers (snd (relay ts r)) = headers r.
Proof.
  induction ts as [ | [e | ] ts IH]; intros r; simpl.
  - reflexivity.
  - destruct (destroyed r); [reflexivity | ]. rewrite IH.
    destruct e as [[t | ] | ]; reflexivity.
  - rewrite IH. reflexivity.
Qed.

Lemma finally_headers r : headers (finally_ r) = headers r.
Proof. unfold finally_. destruct (destroyed r); reflexivity. Qed.

Lemma on_failure_headers e r : headers (on_failure e r) = headers r.
Proof.
  unfold on_failure. destruct (destroyed (log_error _ r)); reflexivity.
Qed.

(** X6. The chat endpoint answers in one of two ways, never both. A
    request whose [messages] is not an array or is empty gets status 400
    with ['Invalid messages array'], and no stream is opened: no header is
    set and no chunk written, whatever the model would have said. Any other
    request gets the three event-stream headers and no JSON body. *)
Theorem X6_chat_rejects_before_streaming
  (up : Upstream) (messages : option (list message)) :
  let r := chat up messages in
  match messages with
  | None | Some [] =>
      sent r = Some {| status := 400;
                       body := ErrorJson (lit "Invalid messages array") |}
      /\ headers r = [] /\ written r = []
  | Some (_ :: _) =>
      sent r = None
      /\ headers r
         = [ (lit "Content-Type", lit "text/event-stream");
             (lit "Cache-Control", lit "no-cache");
             (lit "Connection", lit "keep-alive") ]
  end.
Proof.
  cbv zeta. destruct messages as [[ | m ms] | ]; [simpl; auto | | simpl; auto].
  split.
  - destruct (stays (ticks up)) eqn:S.
    + apply (chat_stays up m ms S).
    + apply (chat_gone up m ms S).
  - unfold chat.
    set (r0 := setHeader _ _ (setHeader _ _ (setHeader _ _ fresh))).
    pose proof (relay_headers (ticks up) r0) as H.
    destruct (relay (ticks up) r0) as [broke r1]. simpl in H.
    rewrite finally_headers.
    destruct broke; [exact H | ].
    destruct (finish up); [exact H | rewrite on_failure_headers; exact H].
Qed.

End ChatMore.

(* ================================================================= *)
(** ** Further properties: the video handler *)

Module VideoMore.
Import Video VideoView Shapes RegexFacts VideoFacts.

Local Open Scope js_scope.

(** *** Every path of the handler *)




(** X8. When the directory is made and the downloader exits normally but
    leaves no file whose name begins with [video.] and does not end with
    [.vtt], the request is answered 500 with the text for a private video
    and the handler's own download message goes to the console. *)
Theorem X8_nothing_downloaded_reads_as_private
  (env : Env) (u : jsstring) (p : Platform) :
  detectPlatform u = Some p ->
  mkdir_error env = None -> fst (ytdlp_video env u) = None ->
  video_of env u = None ->
  sent (run env (Some u))
  = Some {| status := 500; body := ErrorJson MSG_PRIVATE |}
  /\ console_error (run env (Some u))
     = [lit "Video analysis error: " ++ ERR_DOWNLOAD].
Proof.
  intros D M F V.
  destruct (pipeline_early env u p)
    as [(e & M' & _) | [(e & _ & F' & _) | [(_ & _ & _ & P) | (v & _ & _ & V')]]];
    try congruence.
  apply (run_failure env u p ERR_DOWNLOAD _ D P).
Qed.

(** X8 at a download that leaves a subtitle file only. *)
Lemma X8_nothing_downloaded_witness :
  sent (run Runs.nothing_downloaded (Some Scenarios.URL))
  = Some {| status := 500; body := ErrorJson MSG_PRIVATE |}
  /\ console_error (run Runs.nothing_downloaded (Some Scenarios.URL))
     = [lit "Video analysis error: " ++ ERR_DOWNLOAD].
Proof.
  apply (X8_nothing_downloaded_reads_as_private Runs.nothing_downloaded
           Scenarios.URL youtube); reflexivity.
Defined.

(** *** The optional steps *)

(** X9. The transcript step never throws, from any world: whatever the
    subtitle fetch, the directory listing and the read do, it returns a
    transcript and leaves the answer and the console as they were; the
    transcript is empty when the fetch rejects. *)
Theorem X9_transcript_step_never_fails
  (env : Env) (u : jsstring) (w : World) :
  exists t w',
    fetch_transcript env u w = (Ok t, w')
    /\ sent w' = sent w /\ console_error w' = console_error w
    /\ (fst (ytdlp_subs env u) <> None -> t = []).
Proof.
  unfold fetch_transcript, try_catch, exec_tool, bind, leave_top, readdir_top,
    get_workspace, bind, readFileSync, get_workspace, bind.
  destruct (workspace w) as [ws | ] eqn:W; simpl.
  - destruct (fst (ytdlp_subs env u)) as [e | ]; simpl.
    + eexists _, _. repeat split.
    + destruct (filter _ _) as [ | sub0 rest]; simpl.
      * eexists _, _. repeat split; try (intros; congruence).
      * destruct (read_error env sub0) as [e | ]; simpl.
        -- eexists _, _. repeat split; try (intros; congruence).
        -- destruct (find_file sub0 _) as [f | ]; simpl;
             eexists _, _; repeat split; try (intros; congruence).
  - destruct (fst (ytdlp_subs env u)) as [e | ]; simpl.
    + eexists _, _. repeat split.
    + rewrite W. simpl. eexists _, _. repeat split; try (intros; congruence).
Qed.

Local Open Scope float_scope.

(** X10. The duration the frames are spread over is never [NaN] and never
    zero: it is what the probe parsed when that is a number other than zero,
    and 60 seconds when the probe rejects or parses to [NaN] or to a zero. *)
Theorem X10_duration_is_a_nonzero_number (env : Env) (v : jsstring) :
  PrimFloat.is_nan (probe_duration env v) = false
  /\ PrimFloat.is_zero (probe_duration env v) = false
  /\ (ffprobe env v = None -> probe_duration env v = 60)
  /\ (forall x, ffprobe env v = Some x ->
      probe_duration env v
      = if PrimFloat.is_nan x || PrimFloat.is_zero x then 60 else x).
Proof.
  unfold probe_duration, Num.or_else.
  destruct (ffprobe env v) as [x | ].
  - destruct (PrimFloat.is_nan x) eqn:N; simpl.
    + repeat split; try discriminate. intros y E. injection E as <-.
      rewrite N. reflexivity.
    + destruct (PrimFloat.is_zero x) eqn:Z.
      * repeat split; try discriminate. intros y E. injection E as <-.
        rewrite N, Z. reflexivity.
      * repeat split; try assumption; try discriminate.
        intros y E. injection E as <-. rewrite N, Z. reflexivity.
  - repeat split. discriminate.
Qed.

Local Close Scope float_scope.

(** *** The order of the frames *)






(** *** Text around the address, letter case in the message *)

Lemma occurs_within w u a b : occurs w u -> occurs w (a ++ u ++ b).
Proof.
  intros (x & y & ->). exists (a ++ x), (y ++ b).
  rewrite <- !app_assoc. reflexivity.
Qed.

Lemma test_Lit_within w u a b :
  test (Lit w) u = true -> test (Lit w) (a ++ u ++ b) = true.
Proof. rewrite !test_Lit. apply occurs_within. Qed.

Lemma test_YOUTUBE_within u a b :
  test YOUTUBE_RE u = true -> test YOUTUBE_RE (a ++ u ++ b) = true.
Proof.
  rewrite !test_YOUTUBE. intros [H | H]; [left | right];
    apply occurs_within; exact H.
Qed.

(** X12. Text before or after an address never gets it rejected: an
    address that names a platform still names one inside any longer string,
    the same one or one that is tried earlier; a YouTube address stays a
    YouTube address. *)
Theorem X12_surrounding_text_keeps_a_platform
  (u a b : jsstring) (p : Platform) :
  detectPlatform u = Some p ->
  exists q,
    detectPlatform (a ++ u ++ b) = Some q
    /\ (p = youtube -> q = youtube)
    /\ (q = p \/ q = youtube \/ (p = instagram /\ q = tiktok)).
Proof.
  unfold detectPlatform, TIKTOK_RE, INSTAGRAM_RE.
  destruct (test YOUTUBE_RE u) eqn:Y.
  - intros E. injection E as <-.
    rewrite (test_YOUTUBE_within u a b Y). exists youtube. auto.
  - destruct (test (Lit (lit "tiktok.com")) u) eqn:T.
    + intros E. injection E as <-.
      rewrite (test_Lit_within _ u a b T).
      destruct (test YOUTUBE_RE (a ++ u ++ b));
        [exists youtube | exists tiktok]; repeat split; auto; discriminate.
    + destruct (test (Lit (lit "instagram.com")) u) eqn:I; [ | discriminate].
      intros E. injection E as <-.
      rewrite (test_Lit_within _ u a b I).
      destruct (test YOUTUBE_RE (a ++ u ++ b)).
      * exists youtube. repeat split; auto; discriminate.
      * destruct (test (Lit (lit "tiktok.com")) (a ++ u ++ b));
          [exists tiktok | exists instagram]; repeat split; auto; discriminate.
Qed.

(** X12 at a pasted sentence around a short link. *)
Lemma X12_surrounding_text_witness :
  exists q,
    detectPlatform (lit "watch " ++ Scenarios.URL ++ lit " now") = Some q
    /\ (youtube = youtube -> q = youtube)
    /\ (q = youtube \/ q = youtube \/ (youtube = instagram /\ q = tiktok)).
Proof.
  apply (X12_surrounding_text_keeps_a_platform Scenarios.URL (lit "watch ")
           (lit " now") youtube).
  reflexivity.
Defined.

Lemma same_ci_sym m m' : same_ci m m' -> same_ci m' m.
Proof.
  unfold same_ci. induction 1; constructor; [symmetry; assumption | assumption].
Qed.

Lemma same_ci_trans w m : forall m', same_ci w m -> same_ci m m' -> same_ci w m'.
Proof.
  unfold same_ci. intros m' H. revert m'.
  induction H as [ | x y w m E H IH]; intros m' H'; inversion H'; subst.
  - constructor.
  - constructor; [congruence | apply IH; assumption].
Qed.

Lemma occurs_ci_same w m m' : same_ci m m' -> occurs_ci w m -> occurs_ci w m'.
Proof.
  intros S (a & x & b & -> & H). unfold same_ci in S.
  apply Forall2_app_inv_l in S. destruct S as (a' & r' & Sa & Sr & ->).
  apply Forall2_app_inv_l in Sr. destruct Sr as (x' & b' & Sx & Sb & ->).
  exists a', x', b'. split; [reflexivity | ].
  apply (same_ci_trans w x x' H Sx).
Qed.

Lemma test_LitCI_same w m m' :
  same_ci m m' -> test (LitCI w) m = test (LitCI w) m'.
Proof.
  intros S. apply eq_true_iff_eq. rewrite !test_LitCI. split.
  - apply occurs_ci_same. exact S.
  - apply occurs_ci_same, same_ci_sym. exact S.
Qed.

(** X13. The classification does not depend on the letter case of the
    message: two messages that are equal up to ASCII case get the same
    text. *)
Theorem X13_classification_ignores_case (m m' : jsstring) :
  same_ci m m' -> classify m = classify m'.
Proof.
  intros S. unfold classify, PRIVATE_RE, DURATION_RE, UNAVAILABLE_RE.
  rewrite !test_Alt, !(test_LitCI_same _ m m' S). reflexivity.
Qed.

(** X13 at a message in capitals. *)
Lemma X13_classification_ignores_case_witness :
  classify (lit "VIDEO UNAVAILABLE") = classify (lit "video unavailable").
Proof.
  apply X13_classification_ignores_case. unfold same_ci.
  repeat constructor.
Defined.

End VideoMore.

(* ================================================================= *)
(** ** Further properties: transcript parsing *)

Module ParseMore.
Import Video VideoView Shapes RegexFacts ReplaceFacts VideoFacts ParseFacts.

(** *** Which lines are kept *)

(** *** Text that passes unchanged *)

Lemma strip_id x : ~ In (ch "<") x -> replace_all TAG_RE [] x = x.
Proof.
  induction x as [ | c x IH]; [reflexivity | ].
  intros H. rewrite strip_other by (intros ->; apply H; left; reflexivity).
  rewrite IH; [reflexivity | ]. intros Hin. apply H. right. exact Hin.
Qed.

(** A space that no white space follows is a run of its own. *)
Lemma collapse_one s :
  (forall d rest, s = d :: rest -> is_space d = false) ->
  replace_all WS_RE [SP] (SP :: s) = SP :: replace_all WS_RE [SP] s.
Proof.
  intros H. rewrite replace_all_cons.
  destruct (match_len WS_RE (SP :: s)) as [[ | k] | ] eqn:E.
  - apply match_len_Some in E. destruct E as (_ & L & _).
    apply Lang_WS in L. simpl in L. tauto.
  - destruct k as [ | k]; [reflexivity | exfalso].
    apply match_len_Some in E. destruct E as (Hk & L & _).
    apply Lang_WS in L. destruct L as [_ F].
    destruct s as [ | d rest]; [simpl in Hk; lia | ].
    change (firstn (S (S k)) (SP :: d :: rest))
      with (SP :: d :: firstn k rest) in F.
    cbn [forallb] in F. rewrite (H d rest eq_refl) in F.
    rewrite andb_false_r in F. discriminate.
  - exfalso. apply (match_len_None _ _ E 1); [simpl; lia | ].
    apply Lang_WS. split; [discriminate | reflexivity].
Qed.

Lemma collapse_id x : single_spaced x -> replace_all WS_RE [SP] x = x.
Proof.
  induction x as [ | c x IH]; [reflexivity | ].
  intros [H S]. destruct (is_space c) eqn:Hc.
  - destruct (H eq_refl) as [-> N]. rewrite collapse_one, (IH S); [reflexivity | ].
    intros d rest ->. destruct S as [Hd _].
    destruct (is_space d) eqn:D; [ | reflexivity].
    destruct (Hd eq_refl) as [-> _]. exfalso. apply N. reflexivity.
  - rewrite (collapse_other c x Hc), (IH S). reflexivity.
Qed.

Lemma dropWhile_id q x :
  (forall c rest, x = c :: rest -> q c = false) -> dropWhile q x = x.
Proof.
  destruct x as [ | c x]; [reflexivity | ].
  intros H. simpl. rewrite (H c x eq_refl). reflexivity.
Qed.

Lemma trim_id x :
  (forall c rest, x = c :: rest -> is_space c = false) ->
  (forall pre c, x = pre ++ [c] -> is_space c = false) ->
  trim x = x.
Proof.
  intros Hh Hl. unfold trim. rewrite (dropWhile_id _ x Hh).
  rewrite dropWhile_id; [apply rev_involutive | ].
  intros c rest E. apply (Hl (rev rest) c).
  rewrite <- (rev_involutive x), E. reflexivity.
Qed.

Lemma single_glue a b :
  single_spaced a -> single_spaced b ->
  (forall pre c, a = pre ++ [c] -> is_space c = false) ->
  single_spaced (a ++ b).
Proof.
  induction a as [ | c a IH]; intros Sa Sb L; [exact Sb | ].
  destruct Sa as [H Sa]. simpl. split.
  - intros Hc. destruct a as [ | d a].
    + rewrite (L [] c eq_refl) in Hc. discriminate.
    + exact (H Hc).
  - apply IH; [exact Sa | exact Sb | ].
    intros pre x E. apply (L (c :: pre) x). rewrite E. reflexivity.
Qed.

Lemma last_of_app (a y : jsstring) pre (c : char) :
  y <> [] -> a ++ y = pre ++ [c] -> exists pre', y = pre' ++ [c].
Proof.
  intros N E. destruct (exists_last N) as (y0 & cy & ->).
  rewrite app_assoc in E. apply app_inj_tail in E. destruct E as [_ ->].
  eauto.
Qed.

(** The cue lines joined by single spaces are as clean as each of them. *)
Lemma joined_cues ls :
  Forall cue_text ls -> ls <> [] ->
  let x := join [SP] ls in
  x <> [] /\ ~ In (ch "<") x /\ single_spaced x
  /\ (forall c rest, x = c :: rest -> is_space c = false)
  /\ (forall pre c, x = pre ++ [c] -> is_space c = false).
Proof.
  cbv zeta. induction ls as [ | l ls IH]; [congruence | ].
  intros F _. inversion F as [ | ? ? C F']; subst.
  destruct C as (Ne & _ & _ & _ & Nt & S & Hh & Hl).
  destruct ls as [ | l' ls]; [cbn [join]; tauto | ].
  destruct (IH F' ltac:(discriminate)) as (Ne' & Nt' & S' & Hh' & Hl').
  change (join [SP] (l :: l' :: ls)) with (l ++ SP :: join [SP] (l' :: ls)).
  set (y := join [SP] (l' :: ls)) in *.
  split; [destruct l; [congruence | discriminate] | ].
  split; [ | split; [ | split]].
  - intros H. apply in_app_or in H. destruct H as [H | [H | H]]; auto.
    discriminate.
  - apply single_glue; [exact S | | exact Hl]. split; [ | exact S'].
    intros _. split; [reflexivity | ].
    destruct y as [ | d y']; [discriminate | ]. simpl.
    intros E. injection E as ->. specialize (Hh' _ _ eq_refl). discriminate.
  - intros c rest E. destruct l as [ | c0 l0]; [congruence | ].
    injection E as <- _. apply (Hh c0 l0 eq_refl).
  - intros pre c E.
    destruct (last_of_app (l ++ [SP]) y pre c Ne') as (pre' & E').
    { rewrite <- app_assoc. exact E. }
    apply (Hl' pre' c E').
Qed.

Lemma split_lines ls :
  Forall (fun l => ~ In NL l) ls -> List.concat (map (split NL) ls) = ls.
Proof.
  induction 1 as [ | l ls N _ IH]; [reflexivity | ].
  simpl. rewrite (split_line NL l N), IH. reflexivity.
Qed.

(** X14. For a subtitle text whose lines are each either dropped (empty,
    or beginning with a marker or a timestamp) or clean cue text (one line,
    no [<], single spaces inside only), the transcript is the cue lines in
    their order, joined by single spaces and cut at 3000 characters: the
    cue text comes out unchanged. A line is kept exactly when it is not
    empty and begins with no marker and no timestamp; a text without any
    kept line gives the empty transcript. *)
Theorem X14_cue_text_comes_out_unchanged (ls : list jsstring) :
  Forall (fun l => ~ In NL l
                   /\ (l = [] \/ header_line l \/ timestamp_line l
                       \/ cue_text l)) ls ->
  parseVTT (join [NL] ls) = slice0 3000 (join [SP] (filter keep_line ls))
  /\ (forall l, keep_line l = true
                <-> l <> [] /\ ~ header_line l /\ ~ timestamp_line l)
  /\ (filter keep_line ls = [] -> parseVTT (join [NL] ls) = []).
Proof.
  intros F.
  assert (N : Forall (fun l => ~ In NL l) ls).
  { eapply Forall_impl; [ | exact F]. simpl. tauto. }
  assert (C : Forall cue_text (filter keep_line ls)).
  { apply Forall_forall. intros l H. apply filter_In in H.
    destruct H as [H K]. rewrite Forall_forall in F.
    destruct (F l H) as [_ [-> | [D | [D | D]]]].
    - discriminate.
    - rewrite (header_dropped l D) in K. discriminate.
    - rewrite (timestamp_dropped l D) in K. discriminate.
    - exact D. }
  assert (P : parseVTT (join [NL] ls)
              = slice0 3000 (join [SP] (filter keep_line ls))).
  { unfold parseVTT. rewrite kept_of_join, (split_lines ls N).
    change (lit " ") with [SP].
    destruct (filter keep_line ls) as [ | k ks] eqn:E; [reflexivity | ].
    destruct (joined_cues (k :: ks) C ltac:(discriminate))
      as (_ & Nt & S & Hh & Hl).
    rewrite (strip_id _ Nt), (collapse_id _ S), (trim_id _ Hh Hl).
    reflexivity. }
  split; [exact P | ]. split; [exact keep_line_iff | ].
  intros E. rewrite P, E. reflexivity.
Qed.

(** X14 at two cue lines between a header and a cue timing. *)
Lemma X14_cue_text_witness :
  parseVTT (join [NL] Runs.two_cues) = lit "Hello there general Kenobi".
Proof.
  assert (F : Forall (fun l => ~ In NL l
                /\ (l = [] \/ header_line l \/ timestamp_line l
                    \/ cue_text l)) Runs.two_cues).
  { unfold Runs.two_cues.
    apply Forall_cons.
    { split; [vm_compute; intuition discriminate | ].
      right. left. exists []. left. reflexivity. }
    apply Forall_cons.
    { split; [vm_compute; intuition discriminate | ]. right. right. right.
      assert (K : keep_line (lit "Hello there") = true) by reflexivity.
      apply keep_line_iff in K. destruct K as (K1 & K2 & K3).
      split; [exact K1 | ].
      split; [vm_compute; intuition discriminate | ].
      split; [exact K2 | ]. split; [exact K3 | ].
      split; [vm_compute; intuition discriminate | ].
      split; [vm_compute; intuition discriminate | ].
      split.
      - intros c rest E. injection E as <- _. reflexivity.
      - intros pre c E.
        change (lit "Hello there") with (lit "Hello ther" ++ [ch "e"]) in E.
        apply app_inj_tail in E. destruct E as [_ <-]. reflexivity. }
    apply Forall_cons.
    { split; [vm_compute; intuition discriminate | ].
      right. right. left. exists (ch "0"), (ch "0"), (ch "0"), (ch "0"),
        (lit ":01.000 --> 00:00:02.000"). repeat split. }
    apply Forall_cons.
    { split; [vm_compute; intuition discriminate | ]. right. right. right.
      assert (K : keep_line (lit "general Kenobi") = true) by reflexivity.
      apply keep_line_iff in K. destruct K as (K1 & K2 & K3).
      split; [exact K1 | ].
      split; [vm_compute; intuition discriminate | ].
      split; [exact K2 | ]. split; [exact K3 | ].
      split; [vm_compute; intuition discriminate | ].
      split; [vm_compute; intuition discriminate | ].
      split.
      - intros c rest E. injection E as <- _. reflexivity.
      - intros pre c E.
        change (lit "general Kenobi") with (lit "general Kenob" ++ [ch "i"]) in E.
        apply app_inj_tail in E. destruct E as [_ <-]. reflexivity. }
    apply Forall_nil. }
  exact (proj1 (X14_cue_text_comes_out_unchanged Runs.two_cues F)).
Defined.

(** *** The ends of the transcript *)

Lemma dropWhile_hd q s c rest : dropWhile q s = c :: rest -> q c = false.
Proof.
  induction s as [ | x s IH]; simpl; [discriminate | ].
  destruct (q x) eqn:E; [exact IH | ]. intros H. injection H as <- _. exact E.
Qed.

Lemma trim_hd x c rest : trim x = c :: rest -> is_space c = false.
Proof.
  unfold trim. intros E.
  destruct (dropWhile_suffix is_space (rev (dropWhile is_space x))) as [h H].
  apply (f_equal (@rev char)) in H. rewrite rev_involutive, rev_app_distr, E in H.
  simpl in H. apply (dropWhile_hd _ _ _ _ H).
Qed.

Lemma trim_last x pre c : trim x = pre ++ [c] -> is_space c = false.
Proof.
  unfold trim. intros E. apply (f_equal (@rev char)) in E.
  rewrite rev_involutive, rev_app_distr in E. simpl in E.
  apply (dropWhile_hd _ _ _ _ E).
Qed.

(** X15. A transcript never begins with white space, and one shorter than
    the limit of 3000 characters never ends with it: the trimming comes
    before the cut, so only the cut can leave a space at the end. *)
Theorem X15_transcript_has_no_white_space_at_its_ends (vtt : jsstring) :
  (forall c rest, parseVTT vtt = c :: rest -> is_space c = false)
  /\ (List.length (parseVTT vtt) < 3000 ->
      forall pre c, parseVTT vtt = pre ++ [c] -> is_space c = false).
Proof.
  unfold parseVTT, slice0. set (t := trim _). split.
  - intros c rest E. destruct t as [ | c' t'] eqn:T; [discriminate | ].
    simpl in E. injection E as <- _. apply (trim_hd _ _ _ T).
  - intros L pre c E.
    assert (A : firstn 3000 t = t).
    { apply firstn_all2. rewrite length_firstn in L. lia. }
    rewrite A in E. apply (trim_last _ _ _ E).
Qed.

(** *** Where the characters come from *)

Lemma split_In sep s : forall l c, In l (split sep s) -> In c l -> In c s.
Proof.
  induction s as [ | x s IH]; simpl; intros l c.
  - intros [<- | []] H. exact H.
  - destruct (x =? sep)%N.
    + intros [<- | H] Hc; [destruct Hc | right; apply (IH l c H Hc)].
    + destruct (split sep s) as [ | l0 ls] eqn:E.
      * intros [<- | []] [<- | []]. left. reflexivity.
      * intros [<- | H] Hc.
        -- destruct Hc as [<- | Hc]; [left; reflexivity | right].
           apply (IH l0 c); [left; reflexivity | exact Hc].
        -- right. apply (IH l c); [right; exact H | exact Hc].
Qed.

Lemma join_In sep ls c :
  In c (join sep ls) -> In c sep \/ exists l, In l ls /\ In c l.
Proof.
  induction ls as [ | l ls IH]; [simpl; tauto | ].
  destruct ls as [ | l' ls].
  - simpl. intros H. right. exists l. auto.
  - change (join sep (l :: l' :: ls)) with (l ++ sep ++ join sep (l' :: ls)).
    intros H. apply in_app_or in H. destruct H as [H | H].
    + right. exists l. split; [left; reflexivity | exact H].
    + apply in_app_or in H. destruct H as [H | H]; [left; exact H | ].
      destruct (IH H) as [H' | (l0 & H1 & H2)]; [left; exact H' | ].
      right. exists l0. split; [right; exact H1 | exact H2].
Qed.

(** X17. The transcript invents nothing: each of its characters is a
    space or a character of the subtitle text, taken from a line that the
    filter keeps. *)
Theorem X17_transcript_characters_come_from_kept_lines
  (vtt : jsstring) (c : char) :
  In c (parseVTT vtt) ->
  c = SP
  \/ exists l, In l (split NL vtt) /\ keep_line l = true /\ In c l /\ In c vtt.
Proof.
  intros H. destruct (parseVTT_piece vtt) as (a & b & E).
  assert (Hz : In c (a ++ parseVTT vtt ++ b)).
  { apply in_or_app. right. apply in_or_app. left. exact H. }
  rewrite <- E in Hz. apply collapse_In in Hz.
  destruct Hz as [Hz | Hz]; [left; exact Hz | ].
  apply delete_In, join_In in Hz. destruct Hz as [Hz | (l & Hl & Hc)].
  - left. destruct Hz as [<- | []]. reflexivity.
  - right. apply filter_In in Hl. destruct Hl as [Hl K].
    exists l. repeat split; try assumption. apply (split_In NL vtt l c Hl Hc).
Qed.

(** X17 at the letter [H] of a cue between a header and a tag. *)
Lemma X17_transcript_characters_witness :
  ch "H" = SP
  \/ exists l,
       In l (split NL (lit "WEBVTT" ++ [NL] ++ lit "<b>Hi</b>"))
       /\ keep_line l = true /\ In (ch "H") l
       /\ In (ch "H") (lit "WEBVTT" ++ [NL] ++ lit "<b>Hi</b>").
Proof.
  apply X17_transcript_characters_come_from_kept_lines.
  left. reflexivity.
Defined.

End ParseMore.

(* ================================================================= *)
(** ** Further properties: requests in a row, letter case of addresses *)

Module SessionFacts.
Import Email Sessions.

Lemma save_email_step env email w :
  emails_txt (snd (save_email env email w))
  = emails_txt w ++ (if stored (env, email) then entry (env, email) else [])
  /\ appends (snd (save_email env email w))
     = appends w ++ (if accepted (env, email) then [entry (env, email)] else []).
Proof.
  unfold stored, accepted, entry, save_email, appendFileSync. simpl.
  destruct email as [e | ]; simpl; [ | rewrite !app_nil_r; auto].
  destruct (match e with [] => false | _ :: _ => test_full EMAIL_RE e end);
    simpl; [ | rewrite !app_nil_r; auto].
  destruct (append_error env); simpl; rewrite ?app_nil_r; auto.
Qed.

(** X18. After any number of capture requests the log file is what it was,
    followed by the lines of the requests that passed validation and whose
    write succeeded, in the order of the requests: nothing is rewritten,
    reordered or merged, and an address sent twice is there twice. One
    append was attempted for each request that passed validation. *)
Theorem X18_log_is_append_only (reqs : list request) (w : World) :
  emails_txt (serve reqs w)
  = emails_txt w ++ List.concat (map entry (filter stored reqs))
  /\ appends (serve reqs w)
     = appends w ++ map entry (filter accepted reqs).
Proof.
  revert w. induction reqs as [ | [env email] reqs IH]; intros w.
  - simpl. rewrite !app_nil_r. auto.
  - cbn [serve]. destruct (IH (snd (save_email env email w))) as [A B].
    destruct (save_email_step env email w) as [C D].
    rewrite A, B, C, D. cbn [filter].
    destruct (stored (env, email)), (accepted (env, email)); simpl;
      rewrite <- ?app_assoc; simpl; auto.
Qed.

End SessionFacts.

Module CaseFacts.
Import Video RegexFacts VideoFacts.

Lemma occurs_In w u c : occurs w u -> In c w -> In c u.
Proof.
  intros (a & b & ->) H. apply in_or_app. right. apply in_or_app. left.
  exact H.
Qed.

(** X19. The platform patterns have no [i] flag: an address without any
    lower-case letter names no platform, so an address typed in capitals is
    rejected, while the failure messages are classified in any case. *)
Theorem X19_address_in_capitals_names_no_platform (u : jsstring) :
  (forall c, In c u -> lower_case c = false) -> detectPlatform u = None.
Proof.
  intros H.
  assert (N : forall w c, In c w -> lower_case c = true -> ~ occurs w u).
  { intros w c Hc L O. rewrite (H c (occurs_In w u c O Hc)) in L.
    discriminate. }
  unfold detectPlatform, TIKTOK_RE, INSTAGRAM_RE.
  rewrite (not_true_false _ _ (test_YOUTUBE u)).
  - rewrite (not_true_false _ _ (test_Lit (lit "tiktok.com") u)).
    + rewrite (not_true_false _ _ (test_Lit (lit "instagram.com") u));
        [reflexivity | ].
      apply (N _ (ch "i")); [left | ]; reflexivity.
    + apply (N _ (ch "t")); [left | ]; reflexivity.
  - intros [O | O]; revert O; apply (N _ (ch "y")); try reflexivity;
      left; reflexivity.
Qed.

(** X19 at a YouTube address in capitals. *)
Lemma X19_address_in_capitals_witness :
  detectPlatform (lit "HTTPS://WWW.YOUTUBE.COM/WATCH?V=ABC") = None.
Proof.
  apply X19_address_in_capitals_names_no_platform.
  apply Forall_forall. vm_compute. repeat constructor.
Defined.

End CaseFacts.
